(** * Document-understanding pipeline: classifier, language detector, field extractor

    A shallow embedding of [core/document_classifier.py],
    [core/language_support.py] and [core/field_extractor.py], and the
    properties the specification states about them.

    Conventions of the embedding.
    - A Python [str] is a list of Unicode code points ([Z]); [ord] is the
      identity.  Tables are written as string literals, decoded from UTF-8
      the way the interpreter decodes the source file.
    - A Python [float] is an exact rational ([Q]): every score below is a
      small quotient and every branch compares it with a decimal literal.
      [Binary64] runs the classifier and the field confidence in IEEE 754
      double precision as well, and [Binary64Facts] shows that the two
      computations take the same branches and return the same type.
    - A Python [dict] is an association list in insertion order, because
      [max(d, key=...)] and [sorted(d.items(), ...)] depend on that order.
    - Exceptions are values of [result]; a function that can raise returns
      [result A], and the theorems show which functions never do.
    - The Unicode character database ([str.lower], [str.isspace], the
      classes behind [\s], [\w], [\d] and case folding under
      [re.IGNORECASE]) is not part of the repository: it is the class
      [Unicode], and every theorem holds for every instance.  [basic_latin]
      is the instance that agrees with CPython on code points below 128.
    - [re] is a backtracking matcher over the syntax of the patterns the
      three modules use; [hashlib.md5] is the digest of RFC 1321.

    Layout: [Py], [Re] and [MD5] are the runtime; [DocumentClassifier],
    [LanguageDetector] and [FieldExtractor] are the program; [Spec] is the
    specification in its own words; [Binary64] is the program in double
    precision; the properties follow. *)

From Stdlib Require Import String Ascii.
From Stdlib Require Import ZArith QArith Qminmax Lqa Lia List Bool Permutation Sorted.
From Stdlib Require Import Floats.SpecFloat.
From Stdlib Require Import Qround Qabs.
Import ListNotations.

Local Open Scope Z_scope.

(** ** Python values *)

Module Py.

Definition char := Z.
Definition str := list char.

Inductive exn := ValueError | KeyError | AttributeError | UnicodeEncodeError.

Inductive result (A : Type) :=
| Ok (a : A)
| Raise (e : exn).
Arguments Ok {A} a.
Arguments Raise {A} e.

Definition bind {A B} (m : result A) (k : A -> result B) : result B :=
  match m with
  | Ok a => k a
  | Raise e => Raise e
  end.

Fixpoint mapM {A B} (f : A -> result B) (l : list A) : result (list B) :=
  match l with
  | [] => Ok []
  | x :: t => bind (f x) (fun y => bind (mapM f t) (fun ys => Ok (y :: ys)))
  end.

(** The Unicode character database, as the interpreter consults it. *)
Class Unicode := {
  lower : str -> str;            (* str.lower() *)
  isspace : char -> bool;        (* str.isspace(), the class \s, str.strip() *)
  isword : char -> bool;         (* the class \w: alphanumeric or underscore *)
  isdigit : char -> bool;        (* the class \d *)
  fold_eq : char -> char -> bool; (* literal comparison under re.IGNORECASE *)
  lower_char : char -> char;     (* simple lower-case mapping of one code point *)
  upper_char : char -> char      (* simple upper-case mapping of one code point *)
}.

(** [a == b] on strings. *)
Fixpoint str_eqb (a b : str) : bool :=
  match a, b with
  | [], [] => true
  | x :: a', y :: b' => (x =? y) && str_eqb a' b'
  | _, _ => false
  end.

Fixpoint startswith (p s : str) : bool :=
  match p, s with
  | [], _ => true
  | x :: p', y :: s' => (x =? y) && startswith p' s'
  | _ :: _, [] => false
  end.

(** [p in s]: [p] occurs in [s] as a substring. *)
Fixpoint contains (p s : str) : bool :=
  startswith p s ||
  match s with
  | [] => false
  | _ :: s' => contains p s'
  end.

(** [s.replace(" ", "")] for a one-character [old] and an empty [new]. *)
Definition remove_char (c : char) (s : str) : str :=
  filter (fun x => negb (x =? c)) s.

Section WithUnicode.
Context {U : Unicode}.

Fixpoint lstrip (s : str) : str :=
  match s with
  | [] => []
  | c :: t => if isspace c then lstrip t else s
  end.

Definition rstrip (s : str) : str := rev (lstrip (rev s)).

(** [s.strip()] *)
Definition strip (s : str) : str := rstrip (lstrip s).

End WithUnicode.

(** [bool(x)] for a string, a list or a dictionary: it is not empty. *)
Definition truthy {A} (x : list A) : bool :=
  match x with
  | [] => false
  | _ :: _ => true
  end.

(** *** Dictionaries, in insertion order *)

Definition dict (V : Type) := list (str * V).

Fixpoint get {V} (d : dict V) (k : str) : option V :=
  match d with
  | [] => None
  | (k', v) :: t => if str_eqb k' k then Some v else get t k
  end.

(** [d[k] = v]: an existing key keeps its place, a new key goes last. *)
Fixpoint set {V} (d : dict V) (k : str) (v : V) : dict V :=
  match d with
  | [] => [(k, v)]
  | (k', v') :: t => if str_eqb k' k then (k', v) :: t else (k', v') :: set t k v
  end.

Definition keys {V} (d : dict V) : list str := map fst d.

(** *** Comparisons on floats *)

Definition Qltb (x y : Q) : bool := negb (Qle_bool y x).

(** [min(a, b)]: the first of the smallest. *)
Definition min (a b : Q) : Q := if Qltb b a then b else a.

(** [max(xs, key=key)]: the first element whose key is largest, [ltb]
    being [<] on the keys; [None] on an empty sequence, where Python raises
    [ValueError]. *)
Definition max_by {A K} (ltb : K -> K -> bool) (key : A -> K) (xs : list A)
  : option A :=
  match xs with
  | [] => None
  | x :: t =>
    Some (fold_left (fun best y => if ltb (key best) (key y) then y else best) t x)
  end.

(** [sorted(xs, key=key, reverse=True)].  The sort is stable, and with
    [reverse=True] elements with equal keys keep their original order; that
    determines the result, here produced by insertion. *)
Fixpoint insert_desc {A} (key : A -> Q) (x : A) (l : list A) : list A :=
  match l with
  | [] => [x]
  | y :: t => if Qltb (key x) (key y) then y :: insert_desc key x t else x :: l
  end.

Fixpoint sorted_desc {A} (key : A -> Q) (l : list A) : list A :=
  match l with
  | [] => []
  | x :: t => insert_desc key x (sorted_desc key t)
  end.

(** *** UTF-8 *)

(** Decoding of the bytes of a literal of the source file. *)
Fixpoint utf8_decode (bs : list Z) : str :=
  match bs with
  | [] => []
  | b0 :: t0 =>
    if b0 <? 0x80 then b0 :: utf8_decode t0
    else if b0 <? 0xE0 then
      match t0 with
      | b1 :: t1 =>
        Z.lor (Z.shiftl (Z.land b0 0x1F) 6) (Z.land b1 0x3F) :: utf8_decode t1
      | [] => [b0]
      end
    else if b0 <? 0xF0 then
      match t0 with
      | b1 :: b2 :: t2 =>
        Z.lor (Z.shiftl (Z.land b0 0x0F) 12)
          (Z.lor (Z.shiftl (Z.land b1 0x3F) 6) (Z.land b2 0x3F)) :: utf8_decode t2
      | _ => [b0]
      end
    else
      match t0 with
      | b1 :: b2 :: b3 :: t3 =>
        Z.lor (Z.shiftl (Z.land b0 0x07) 18)
          (Z.lor (Z.shiftl (Z.land b1 0x3F) 12)
            (Z.lor (Z.shiftl (Z.land b2 0x3F) 6) (Z.land b3 0x3F))) :: utf8_decode t3
      | _ => [b0]
      end
  end.

(** A literal of the source file. *)
Definition u (s : string) : str :=
  utf8_decode (map (fun b => Z.of_N (Byte.to_N b)) (list_byte_of_string s)).
Arguments u s%_string.

(** [s.encode()]: strict UTF-8; a surrogate or a value that is no code
    point raises [UnicodeEncodeError]. *)
Definition encode_char (c : char) : result (list Z) :=
  if c <? 0 then Raise UnicodeEncodeError
  else if c <? 0x80 then Ok [c]
  else if c <? 0x800 then
    Ok [Z.lor 0xC0 (Z.shiftr c 6); Z.lor 0x80 (Z.land c 0x3F)]
  else if (0xD800 <=? c) && (c <=? 0xDFFF) then Raise UnicodeEncodeError
  else if c <? 0x10000 then
    Ok [Z.lor 0xE0 (Z.shiftr c 12); Z.lor 0x80 (Z.land (Z.shiftr c 6) 0x3F);
        Z.lor 0x80 (Z.land c 0x3F)]
  else if c <=? 0x10FFFF then
    Ok [Z.lor 0xF0 (Z.shiftr c 18); Z.lor 0x80 (Z.land (Z.shiftr c 12) 0x3F);
        Z.lor 0x80 (Z.land (Z.shiftr c 6) 0x3F); Z.lor 0x80 (Z.land c 0x3F)]
  else Raise UnicodeEncodeError.

Definition encode (s : str) : result (list Z) :=
  bind (mapM encode_char s) (fun bss => Ok (concat bss)).

(** The database restricted to code points below 128, where it agrees with
    CPython; other code points are left alone and belong to no class. *)
Definition ascii_lower (c : char) : char :=
  if (65 <=? c) && (c <=? 90) then c + 32 else c.

Definition ascii_upper (c : char) : char :=
  if (97 <=? c) && (c <=? 122) then c - 32 else c.

Definition ascii_isspace (c : char) : bool :=
  ((9 <=? c) && (c <=? 13)) || ((28 <=? c) && (c <=? 32)).

Definition ascii_isdigit (c : char) : bool := (48 <=? c) && (c <=? 57).

Definition ascii_isword (c : char) : bool :=
  ascii_isdigit c || ((65 <=? c) && (c <=? 90)) || ((97 <=? c) && (c <=? 122))
  || (c =? 95).

#[export] Instance basic_latin : Unicode := {
  lower := map ascii_lower;
  isspace := ascii_isspace;
  isword := ascii_isword;
  isdigit := ascii_isdigit;
  fold_eq := fun a b => ascii_lower a =? ascii_lower b;
  lower_char := ascii_lower;
  upper_char := ascii_upper
}.

End Py.

Notation "x <- m ;; k" := (Py.bind m (fun x => k))
  (at level 61, m at next level, right associativity).

(** ** The fragment of [re] the three modules use

    Patterns are kept as syntax trees; next to each pattern of a table the
    source text of the pattern is given.  Every repetition in the source
    ranges over a single-character class, so repetition is over [cset]. *)

Module Re.
Import Py.

(** Single-character matchers. *)
Inductive cset :=
| Lit (c : char)          (* a literal character *)
| Dot                     (* .   any character but a newline *)
| Space                   (* \s *)
| Word                    (* \w *)
| Digit                   (* \d *)
| Range (lo hi : char)    (* lo-hi inside a class *)
| Or (a b : cset)         (* members of one class [...] *)
| Not (a : cset).         (* [^...] *)

Inductive regex :=
| Eps
| One (s : cset)
| Cat (r1 r2 : regex)
| Alt (r1 r2 : regex)     (* r1|r2 *)
| Opt (r : regex)         (* r? *)
| Star (s : cset)         (* s* *)
| Plus (s : cset)         (* s+ *)
| StarLazy (s : cset)     (* s*? *)
| Group (n : nat) (r : regex)  (* the n-th capturing group *)
| Bound.                  (* \b *)

Arguments Lit c%_Z.
Arguments Range (lo hi)%_Z.

Definition seq (rs : list regex) : regex := fold_right Cat Eps rs.

(** A literal string inside a pattern. *)
Definition lit (s : str) : regex := seq (map (fun c => One (Lit c)) s).

(** [re.escape(s)], compiled: the pattern that matches [s] literally. *)
Definition escape (s : str) : regex := lit s.

(** A state of the matcher: the character before the cursor, the text from
    the cursor on, and the groups captured so far. *)
Record state := {
  prev : option char;
  rest : str;
  caps : list (nat * str)
}.

Section WithUnicode.
Context {U : Unicode}.

(** [in_cset ic s c]: character [c] is matched by [s]; [ic] is
    [re.IGNORECASE]. *)
Fixpoint in_cset (ic : bool) (s : cset) (c : char) : bool :=
  match s with
  | Lit p => if ic then fold_eq c p else c =? p
  | Dot => negb (c =? 10)
  | Space => isspace c
  | Word => isword c
  | Digit => isdigit c
  | Range lo hi =>
    if ic then
      let l := lower_char c in
      ((lo <=? l) && (l <=? hi))
      || ((lo <=? upper_char l) && (upper_char l <=? hi))
    else (lo <=? c) && (c <=? hi)
  | Or a b => in_cset ic a c || in_cset ic b c
  | Not a => negb (in_cset ic a c)
  end.

(** The cursors reachable by consuming zero or more characters of a class,
    the shortest first. *)
Fixpoint spans (ic : bool) (s : cset) (p : option char) (t : str)
  : list (option char * str) :=
  (p, t) ::
  match t with
  | [] => []
  | c :: t' => if in_cset ic s c then spans ic s (Some c) t' else []
  end.

Definition is_word_opt (c : option char) : bool :=
  match c with
  | Some c => isword c
  | None => false
  end.

Definition at_boundary (st : state) : bool :=
  xorb (is_word_opt (prev st)) (is_word_opt (hd_error (rest st))).

Definition move (st : state) (pt : option char * str) : state :=
  {| prev := fst pt; rest := snd pt; caps := caps st |}.

(** The text consumed between two cursors of the same subject. *)
Definition consumed (before after : str) : str :=
  firstn (length before - length after) before.

Fixpoint set_cap (n : nat) (v : str) (cs : list (nat * str)) : list (nat * str) :=
  match cs with
  | [] => [(n, v)]
  | (m, w) :: t => if Nat.eqb m n then (m, v) :: t else (m, w) :: set_cap n v t
  end.

(** [run ic r st]: every way of matching [r] at the cursor, in the order the
    backtracking matcher tries them (greedy repetition longest first, lazy
    repetition shortest first, alternatives left to right).  The head is the
    match the engine reports. *)
Fixpoint run (ic : bool) (r : regex) (st : state) : list state :=
  match r with
  | Eps => [st]
  | One s =>
    match rest st with
    | c :: t => if in_cset ic s c then [move st (Some c, t)] else []
    | [] => []
    end
  | Cat r1 r2 => flat_map (run ic r2) (run ic r1 st)
  | Alt r1 r2 => run ic r1 st ++ run ic r2 st
  | Opt r1 => run ic r1 st ++ [st]
  | Star s => map (move st) (rev (spans ic s (prev st) (rest st)))
  | Plus s => map (move st) (rev (tl (spans ic s (prev st) (rest st))))
  | StarLazy s => map (move st) (spans ic s (prev st) (rest st))
  | Group n r1 =>
    map (fun st' =>
           {| prev := prev st'; rest := rest st';
              caps := set_cap n (consumed (rest st) (rest st')) (caps st') |})
        (run ic r1 st)
  | Bound => if at_boundary st then [st] else []
  end.

(** A match object: where the match starts, how long it is, its groups. *)
Record match_obj := {
  m_start : nat;
  m_len : nat;
  m_groups : list (nat * str)
}.

Definition mk_match (start : nat) (before : str) (st : state) : match_obj :=
  {| m_start := start;
     m_len := length before - length (rest st);
     m_groups := caps st |}.

(** The first match at the cursor; with [must_advance] an empty match is
    passed over. *)
Definition match_here (ic : bool) (r : regex) (must_advance : bool)
    (p : option char) (t : str) (start : nat) : option match_obj :=
  let sts := run ic r {| prev := p; rest := t; caps := [] |} in
  let ok st := negb must_advance || negb (length (rest st) =? length t)%nat in
  match filter ok sts with
  | st :: _ => Some (mk_match start t st)
  | [] => None
  end.

(** The scan of [re.search]: the leftmost position with a match. *)
Fixpoint search_from (ic : bool) (r : regex) (p : option char) (t : str)
    (start : nat) : option match_obj :=
  match match_here ic r false p t start with
  | Some m => Some m
  | None =>
    match t with
    | [] => None
    | c :: t' => search_from ic r (Some c) t' (S start)
    end
  end.

(** [re.search(r, text, flags)] *)
Definition search (ic : bool) (r : regex) (text : str) : option match_obj :=
  search_from ic r None text 0.

(** [m.group(n)]; a group that took no part in the match is [None]. *)
Fixpoint group (m : list (nat * str)) (n : nat) : option str :=
  match m with
  | [] => None
  | (k, v) :: t => if Nat.eqb k n then Some v else group t n
  end.

(** The scan of [re.findall], counting the matches.  [skip] characters are
    still inside the previous match.  After an empty match the scan looks
    again at the same position for a match that advances, then moves on. *)
Fixpoint count_from (ic : bool) (r : regex) (p : option char) (t : str)
    (skip : nat) : nat :=
  let step k :=
    match t with
    | [] => 0%nat
    | c :: t' => count_from ic r (Some c) t' k
    end in
  match skip with
  | S k => step k
  | O =>
    match match_here ic r false p t 0 with
    | None => step 0%nat
    | Some m =>
      match m_len m with
      | S k => S (step k)
      | O =>
        match match_here ic r true p t 0 with
        | Some m' => S (S (step (Nat.pred (m_len m'))))
        | None => S (step 0%nat)
        end
      end
    end
  end.

(** [len(re.findall(r, text, flags))] *)
Definition findall_count (ic : bool) (r : regex) (text : str) : nat :=
  count_from ic r None text 0.

End WithUnicode.

(** Abbreviations for the tables. *)
Definition chr (s : string) : cset :=
  match u s with
  | c :: _ => Lit c
  | [] => Not Dot
  end.

Definition s_ (s : string) : regex := lit (u s).
Definition c_ (s : string) : regex := One (chr s).
Arguments chr s%_string.
Arguments s_ s%_string.
Arguments c_ s%_string.
Definition ws0 : regex := Star Space.   (* \s* *)
Definition ws1 : regex := Plus Space.   (* \s+ *)

End Re.

(** ** [core/document_classifier.py] *)

Module DocumentClassifier.
Import Py Re.
Local Open Scope string_scope.
Local Open Scope list_scope.
Local Open Scope Q_scope.

Inductive DocumentType :=
| INVOICE | RECEIPT | CONTRACT | FORM | LETTER | REPORT | ID_DOCUMENT
| BANK_STATEMENT | TAX_DOCUMENT | MEDICAL | UNKNOWN.

(** The members in declaration order. *)
Definition members : list DocumentType :=
  [INVOICE; RECEIPT; CONTRACT; FORM; LETTER; REPORT; ID_DOCUMENT;
   BANK_STATEMENT; TAX_DOCUMENT; MEDICAL; UNKNOWN].

Definition value (d : DocumentType) : str :=
  match d with
  | INVOICE => u "invoice"
  | RECEIPT => u "receipt"
  | CONTRACT => u "contract"
  | FORM => u "form"
  | LETTER => u "letter"
  | REPORT => u "report"
  | ID_DOCUMENT => u "id_document"
  | BANK_STATEMENT => u "bank_statement"
  | TAX_DOCUMENT => u "tax_document"
  | MEDICAL => u "medical"
  | UNKNOWN => u "unknown"
  end.

(** [DocumentType(v)]: the member with that value, else [ValueError]. *)
Definition of_value (v : str) : result DocumentType :=
  match find (fun d => str_eqb (value d) v) members with
  | Some d => Ok d
  | None => Raise ValueError
  end.

Definition DocumentType_eqb (a b : DocumentType) : bool :=
  str_eqb (value a) (value b).

Record ClassificationResult := {
  document_type : DocumentType;
  confidence : Q;
  all_scores : dict Q;
  keywords_found : list str
}.

Record Config := {
  keywords : list str;
  patterns : list regex;
  weight : Q
}.

Definition _build_patterns : list (DocumentType * Config) :=
  [ (INVOICE,
     {| keywords := map u
          ["invoice"; "bill to"; "ship to"; "invoice number"; "invoice date";
           "due date"; "payment terms"; "subtotal"; "tax"; "total due";
           "remit to"; "purchase order"; "qty"; "unit price"; "amount due"];
        patterns :=
          [ (* invoice\s*#?\s*:?\s*\w+ *)
            seq [s_ "invoice"; ws0; Opt (c_ "#"); ws0; Opt (c_ ":"); ws0; Plus Word];
            (* inv\s*-?\s*\d+ *)
            seq [s_ "inv"; ws0; Opt (c_ "-"); ws0; Plus Digit];
            (* bill\s+to\s*: *)
            seq [s_ "bill"; ws1; s_ "to"; ws0; c_ ":"];
            (* payment\s+due *)
            seq [s_ "payment"; ws1; s_ "due"];
            (* total\s+amount\s*:?\s*\$? *)
            seq [s_ "total"; ws1; s_ "amount"; ws0; Opt (c_ ":"); ws0; Opt (c_ "$")] ];
        weight := 1.0 |});
    (RECEIPT,
     {| keywords := map u
          ["receipt"; "transaction"; "paid"; "cash"; "credit card";
           "change"; "subtotal"; "tax"; "total"; "thank you";
           "store"; "cashier"; "items"];
        patterns :=
          [ (* receipt\s*#?\s*:?\s*\w+ *)
            seq [s_ "receipt"; ws0; Opt (c_ "#"); ws0; Opt (c_ ":"); ws0; Plus Word];
            (* transaction\s*id *)
            seq [s_ "transaction"; ws0; s_ "id"];
            (* paid\s+by *)
            seq [s_ "paid"; ws1; s_ "by"];
            (* change\s*:?\s*\$?\d+ *)
            seq [s_ "change"; ws0; Opt (c_ ":"); ws0; Opt (c_ "$"); Plus Digit] ];
        weight := 1.0 |});
    (CONTRACT,
     {| keywords := map u
          ["agreement"; "contract"; "terms and conditions"; "party";
           "whereas"; "hereby"; "witnesseth"; "covenant"; "binding";
           "executed"; "signature"; "effective date"; "termination"];
        patterns :=
          [ (* this\s+agreement *)
            seq [s_ "this"; ws1; s_ "agreement"];
            (* parties\s+agree *)
            seq [s_ "parties"; ws1; s_ "agree"];
            (* terms\s+and\s+conditions *)
            seq [s_ "terms"; ws1; s_ "and"; ws1; s_ "conditions"];
            (* binding\s+agreement *)
            seq [s_ "binding"; ws1; s_ "agreement"] ];
        weight := 1.0 |});
    (FORM,
     {| keywords := map u
          ["form"; "application"; "please fill"; "required fields";
           "checkbox"; "select"; "signature required"; "date of birth";
           "applicant"; "submit"];
        patterns :=
          [ (* form\s*#?\s*:?\s*\w+ *)
            seq [s_ "form"; ws0; Opt (c_ "#"); ws0; Opt (c_ ":"); ws0; Plus Word];
            (* please\s+(fill|complete) *)
            seq [s_ "please"; ws1; Group 1 (Alt (s_ "fill") (s_ "complete"))];
            (* \[\s*\] *)
            seq [c_ "["; ws0; c_ "]"];
            (* _+\s*\(.*?\) *)
            seq [Plus (chr "_"); ws0; c_ "("; StarLazy Dot; c_ ")"] ];
        weight := 1.0 |});
    (LETTER,
     {| keywords := map u
          ["dear"; "sincerely"; "regards"; "yours truly"; "to whom";
           "attention"; "re:"; "subject:"; "enclosed"];
        patterns :=
          [ (* dear\s+\w+ *)
            seq [s_ "dear"; ws1; Plus Word];
            (* sincerely\s*, *)
            seq [s_ "sincerely"; ws0; c_ ","];
            (* regards\s*, *)
            seq [s_ "regards"; ws0; c_ ","];
            (* to\s+whom\s+it\s+may\s+concern *)
            seq [s_ "to"; ws1; s_ "whom"; ws1; s_ "it"; ws1; s_ "may"; ws1; s_ "concern"] ];
        weight := 0.9 |});
    (REPORT,
     {| keywords := map u
          ["report"; "summary"; "analysis"; "findings"; "conclusion";
           "executive summary"; "methodology"; "results"; "recommendations"];
        patterns :=
          [ (* executive\s+summary *)
            seq [s_ "executive"; ws1; s_ "summary"];
            (* table\s+of\s+contents *)
            seq [s_ "table"; ws1; s_ "of"; ws1; s_ "contents"];
            (* section\s+\d+ *)
            seq [s_ "section"; ws1; Plus Digit];
            (* figure\s+\d+ *)
            seq [s_ "figure"; ws1; Plus Digit] ];
        weight := 0.9 |});
    (ID_DOCUMENT,
     {| keywords := map u
          ["passport"; "driver license"; "identification"; "id card";
           "date of birth"; "expiry"; "nationality"; "sex"; "height"];
        patterns :=
          [ (* passport\s*no *)
            seq [s_ "passport"; ws0; s_ "no"];
            (* license\s*# *)
            seq [s_ "license"; ws0; c_ "#"];
            (* date\s+of\s+birth *)
            seq [s_ "date"; ws1; s_ "of"; ws1; s_ "birth"];
            (* expir(y|ation)\s+date *)
            seq [s_ "expir"; Group 1 (Alt (s_ "y") (s_ "ation")); ws1; s_ "date"] ];
        weight := 1.0 |});
    (BANK_STATEMENT,
     {| keywords := map u
          ["statement"; "account"; "balance"; "deposit"; "withdrawal";
           "transaction"; "opening balance"; "closing balance"; "interest"];
        patterns :=
          [ (* account\s*(number|#) *)
            seq [s_ "account"; ws0; Group 1 (Alt (s_ "number") (c_ "#"))];
            (* statement\s+period *)
            seq [s_ "statement"; ws1; s_ "period"];
            (* opening\s+balance *)
            seq [s_ "opening"; ws1; s_ "balance"];
            (* closing\s+balance *)
            seq [s_ "closing"; ws1; s_ "balance"] ];
        weight := 1.0 |});
    (TAX_DOCUMENT,
     {| keywords := map u
          ["tax"; "w-2"; "1099"; "irs"; "income"; "deduction";
           "federal"; "state"; "employer"; "wages"; "withholding"];
        patterns :=
          [ (* form\s+w-?2 *)
            seq [s_ "form"; ws1; s_ "w"; Opt (c_ "-"); s_ "2"];
            (* form\s+1099 *)
            seq [s_ "form"; ws1; s_ "1099"];
            (* tax\s+year *)
            seq [s_ "tax"; ws1; s_ "year"];
            (* taxable\s+income *)
            seq [s_ "taxable"; ws1; s_ "income"] ];
        weight := 1.0 |});
    (MEDICAL,
     {| keywords := map u
          ["patient"; "diagnosis"; "prescription"; "medication";
           "doctor"; "physician"; "hospital"; "clinic"; "medical";
           "treatment"; "dosage"; "symptoms"];
        patterns :=
          [ (* patient\s+(name|id) *)
            seq [s_ "patient"; ws1; Group 1 (Alt (s_ "name") (s_ "id"))];
            (* date\s+of\s+service *)
            seq [s_ "date"; ws1; s_ "of"; ws1; s_ "service"];
            (* diagnosis\s*: *)
            seq [s_ "diagnosis"; ws0; c_ ":"];
            (* rx\s*: *)
            seq [s_ "rx"; ws0; c_ ":"] ];
        weight := 1.0 |}) ].

Section WithUnicode.
Context {U : Unicode}.

(** The keyword loop: the score and the keywords found, in table order. *)
Definition score_keywords (text_lower : str) (kws : list str) : Q * list str :=
  fold_left
    (fun (acc : Q * list str) keyword =>
       let '(score, found_keywords) := acc in
       if contains (lower keyword) text_lower
       then (score + 1.0, found_keywords ++ [keyword])
       else acc)
    kws (0.0, []).

(** The pattern loop. *)
Definition score_patterns (text_lower : str) (pats : list regex) (score : Q) : Q :=
  fold_left
    (fun score pattern =>
       match search false pattern text_lower with
       | Some _ => score + 2.0
       | None => score
       end)
    pats score.

(** The body of the loop over the table, for one type. *)
Definition score_type (text_lower : str) (config : Config) : Q * list str :=
  let '(score, found_keywords) := score_keywords text_lower (keywords config) in
  let score := score_patterns text_lower (patterns config) score in
  let score := score * weight config in
  let max_score := (length (keywords config) + length (patterns config) * 2)%nat in
  let normalized_score :=
    if (0 <? max_score)%nat then score / inject_Z (Z.of_nat max_score) else 0 in
  (normalized_score, found_keywords).

(** The loop over the table: the dictionaries [scores] and [keywords_found]. *)
Definition score_all (table : list (DocumentType * Config)) (text_lower : str)
  : dict Q * dict (list str) :=
  fold_left
    (fun (acc : dict Q * dict (list str)) (entry : DocumentType * Config) =>
       let '(doc_type, config) := entry in
       let '(normalized_score, found_keywords) := score_type text_lower config in
       (set (fst acc) (value doc_type) normalized_score,
        set (snd acc) (value doc_type) found_keywords))
    table ([], []).

(** [scores.get], the key of [max]; it is applied to keys of [scores] only. *)
Definition scores_get (scores : dict Q) (k : str) : Q :=
  match get scores k with
  | Some v => v
  | None => 0
  end.

(** The part of [classify] after the loop. *)
Definition best_match (scores : dict Q) (keywords_found : dict (list str))
  : result ClassificationResult :=
  if truthy scores then
    match max_by Qltb (scores_get scores) (keys scores) with
    | None => Raise ValueError
    | Some best_type =>
      match get scores best_type with
      | None => Raise KeyError
      | Some best_score =>
        if Qltb best_score 0.1 then
          Ok {| document_type := UNKNOWN; confidence := 0.0;
                all_scores := scores; keywords_found := [] |}
        else
          doc_type <- of_value best_type ;;
          Ok {| document_type := doc_type;
                confidence := min (best_score * 2) 1.0;
                all_scores := scores;
                keywords_found :=
                  match get keywords_found best_type with
                  | Some ks => ks
                  | None => []
                  end |}
      end
    end
  else
    Ok {| document_type := UNKNOWN; confidence := 0.0;
          all_scores := []; keywords_found := [] |}.

Definition classify_with (table : list (DocumentType * Config)) (text : str)
  : result ClassificationResult :=
  let text_lower := lower text in
  let '(scores, keywords_found) := score_all table text_lower in
  best_match scores keywords_found.

(** [DocumentClassifier.classify], with [self._patterns] the table built by
    the constructor. *)
Definition classify (text : str) : result ClassificationResult :=
  classify_with _build_patterns text.

(** The dictionaries [scores] and [keywords_found] of [classify], entry by
    entry; the loop builds them (lemma [score_all_eq]). *)
Definition scores_of (text : str) : dict Q :=
  map (fun e => (value (fst e), fst (score_type (lower text) (snd e)))) _build_patterns.

Definition found_of (text : str) : dict (list str) :=
  map (fun e => (value (fst e), snd (score_type (lower text) (snd e)))) _build_patterns.

End WithUnicode.

End DocumentClassifier.

(** ** [hashlib.md5]

    The digest of RFC 1321 on a list of bytes, so that the confidence of a
    field can be computed on concrete field names. *)

Module MD5.
Local Open Scope Z_scope.

Definition add32 (a b : Z) : Z := (a + b) mod 2 ^ 32.

Definition not32 (a : Z) : Z := Z.lxor a 0xFFFFFFFF.

Definition rotl32 (x n : Z) : Z :=
  Z.lor (Z.shiftl x n mod 2 ^ 32) (Z.shiftr x (32 - n)).

(** The table K: floor(2^32 * abs(sin(i + 1))). *)
Definition K : list Z :=
  [ 0xd76aa478; 0xe8c7b756; 0x242070db; 0xc1bdceee;
    0xf57c0faf; 0x4787c62a; 0xa8304613; 0xfd469501;
    0x698098d8; 0x8b44f7af; 0xffff5bb1; 0x895cd7be;
    0x6b901122; 0xfd987193; 0xa679438e; 0x49b40821;
    0xf61e2562; 0xc040b340; 0x265e5a51; 0xe9b6c7aa;
    0xd62f105d; 0x02441453; 0xd8a1e681; 0xe7d3fbc8;
    0x21e1cde6; 0xc33707d6; 0xf4d50d87; 0x455a14ed;
    0xa9e3e905; 0xfcefa3f8; 0x676f02d9; 0x8d2a4c8a;
    0xfffa3942; 0x8771f681; 0x6d9d6122; 0xfde5380c;
    0xa4beea44; 0x4bdecfa9; 0xf6bb4b60; 0xbebfbc70;
    0x289b7ec6; 0xeaa127fa; 0xd4ef3085; 0x04881d05;
    0xd9d4d039; 0xe6db99e5; 0x1fa27cf8; 0xc4ac5665;
    0xf4292244; 0x432aff97; 0xab9423a7; 0xfc93a039;
    0x655b59c3; 0x8f0ccc92; 0xffeff47d; 0x85845dd1;
    0x6fa87e4f; 0xfe2ce6e0; 0xa3014314; 0x4e0811a1;
    0xf7537e82; 0xbd3af235; 0x2ad7d2bb; 0xeb86d391 ].

(** The per-round shift amounts. *)
Definition S : list Z :=
  [ 7; 12; 17; 22; 7; 12; 17; 22; 7; 12; 17; 22; 7; 12; 17; 22;
    5; 9; 14; 20; 5; 9; 14; 20; 5; 9; 14; 20; 5; 9; 14; 20;
    4; 11; 16; 23; 4; 11; 16; 23; 4; 11; 16; 23; 4; 11; 16; 23;
    6; 10; 15; 21; 6; 10; 15; 21; 6; 10; 15; 21; 6; 10; 15; 21 ].

(** Little-endian bytes of a word. *)
Fixpoint le_bytes (n : nat) (x : Z) : list Z :=
  match n with
  | O => []
  | Datatypes.S n' => x mod 256 :: le_bytes n' (x / 256)
  end.

Fixpoint le_word (bs : list Z) : Z :=
  match bs with
  | [] => 0
  | b :: t => b + 256 * le_word t
  end.

(** Split a list in pieces of [n] elements; [k] counts down inside a piece. *)
Fixpoint chunk_aux {A} (n k : nat) (cur : list A) (l : list A) : list (list A) :=
  match l with
  | [] => match cur with [] => [] | _ => [rev cur] end
  | x :: t =>
    match k with
    | O | Datatypes.S O => rev (x :: cur) :: chunk_aux n n [] t
    | Datatypes.S k' => chunk_aux n k' (x :: cur) t
    end
  end.

Definition chunk {A} (n : nat) (l : list A) : list (list A) := chunk_aux n n [] l.

(** The message, a 1 bit, zeros up to 56 modulo 64, the bit length on 8 bytes. *)
Definition pad (msg : list Z) : list Z :=
  let len := Z.of_nat (length msg) in
  let zeros := Z.to_nat ((55 - len) mod 64) in
  msg ++ [0x80] ++ repeat 0 zeros ++ le_bytes 8 ((8 * len) mod 2 ^ 64).

Definition round (M : list Z) (st : Z * Z * Z * Z) (i : nat) : Z * Z * Z * Z :=
  let '(A, B, C, D) := st in
  let iz := Z.of_nat i in
  let '(F, g) :=
    match (i / 16)%nat with
    | 0%nat => (Z.lor (Z.land B C) (Z.land (not32 B) D), iz)
    | 1%nat => (Z.lor (Z.land D B) (Z.land (not32 D) C), (5 * iz + 1) mod 16)
    | 2%nat => (Z.lxor B (Z.lxor C D), (3 * iz + 5) mod 16)
    | _ => (Z.lxor C (Z.lor B (not32 D)), (7 * iz) mod 16)
    end in
  let F := add32 (add32 (add32 F A) (nth i K 0)) (nth (Z.to_nat g) M 0) in
  (D, add32 B (rotl32 F (nth i S 0)), B, C).

Definition block (h : Z * Z * Z * Z) (bytes : list Z) : Z * Z * Z * Z :=
  let M := map le_word (chunk 4 bytes) in
  let '(a0, b0, c0, d0) := h in
  let '(A, B, C, D) := fold_left (round M) (seq 0 64) h in
  (add32 a0 A, add32 b0 B, add32 c0 C, add32 d0 D).

(** [hashlib.md5(msg).digest()] *)
Definition digest (msg : list Z) : list Z :=
  let '(a, b, c, d) :=
    fold_left block (chunk 64 (pad msg))
      (0x67452301, 0xefcdab89, 0x98badcfe, 0x10325476) in
  le_bytes 4 a ++ le_bytes 4 b ++ le_bytes 4 c ++ le_bytes 4 d.

Definition hex_digit (n : Z) : Z := if n <? 10 then 48 + n else 87 + n.

(** [hashlib.md5(msg).hexdigest()] *)
Definition hexdigest (msg : list Z) : Py.str :=
  flat_map (fun b => [hex_digit (b / 16); hex_digit (b mod 16)]) (digest msg).

End MD5.

(** ** [core/language_support.py] *)

Module LanguageDetector.
Import Py Re.
Local Open Scope string_scope.
Local Open Scope list_scope.
Local Open Scope Q_scope.

Inductive Language :=
| ENGLISH | SPANISH | FRENCH | GERMAN | ITALIAN | PORTUGUESE | DUTCH | RUSSIAN
| CHINESE | JAPANESE | KOREAN | ARABIC | HINDI | THAI | VIETNAMESE | INDONESIAN
| MALAY | TURKISH | POLISH | SWEDISH | NORWEGIAN | DANISH | FINNISH | GREEK
| HEBREW | CZECH | ROMANIAN | HUNGARIAN | UKRAINIAN | UNKNOWN.

Definition members : list Language :=
  [ENGLISH; SPANISH; FRENCH; GERMAN; ITALIAN; PORTUGUESE; DUTCH; RUSSIAN;
   CHINESE; JAPANESE; KOREAN; ARABIC; HINDI; THAI; VIETNAMESE; INDONESIAN;
   MALAY; TURKISH; POLISH; SWEDISH; NORWEGIAN; DANISH; FINNISH; GREEK;
   HEBREW; CZECH; ROMANIAN; HUNGARIAN; UKRAINIAN; UNKNOWN].

Definition value (l : Language) : str :=
  match l with
  | ENGLISH => u "en" | SPANISH => u "es" | FRENCH => u "fr" | GERMAN => u "de"
  | ITALIAN => u "it" | PORTUGUESE => u "pt" | DUTCH => u "nl" | RUSSIAN => u "ru"
  | CHINESE => u "zh" | JAPANESE => u "ja" | KOREAN => u "ko" | ARABIC => u "ar"
  | HINDI => u "hi" | THAI => u "th" | VIETNAMESE => u "vi" | INDONESIAN => u "id"
  | MALAY => u "ms" | TURKISH => u "tr" | POLISH => u "pl" | SWEDISH => u "sv"
  | NORWEGIAN => u "no" | DANISH => u "da" | FINNISH => u "fi" | GREEK => u "el"
  | HEBREW => u "he" | CZECH => u "cs" | ROMANIAN => u "ro" | HUNGARIAN => u "hu"
  | UKRAINIAN => u "uk" | UNKNOWN => u "unknown"
  end.

(** [Language(v)]: the member with that value, else [ValueError]. *)
Definition of_value (v : str) : result Language :=
  match find (fun l => str_eqb (value l) v) members with
  | Some l => Ok l
  | None => Raise ValueError
  end.

Record LanguageDetectionResult := {
  primary_language : Language;
  confidence : Q;
  all_scores : dict Q;
  script_detected : str;
  is_multilingual : bool;
  secondary_languages : list Language
}.

Record Config := {
  common_words : list str;
  patterns : list regex;
  script : str
}.

(** \bword\b for a literal word of a pattern. *)
Definition w_ (s : string) : regex := seq [Bound; s_ s; Bound].
Arguments w_ s%_string.

(** A range lo-hi of a class, the ends written as characters. *)
Definition range_ (lo hi : string) : cset :=
  match u lo, u hi with
  | a :: _, b :: _ => Range a b
  | _, _ => Not Dot
  end.
Arguments range_ (lo hi)%_string.

Definition _build_language_patterns : list (Language * Config) :=
  [ (ENGLISH,
     {| common_words := map u ["the"; "and"; "is"; "in"; "to"; "of"; "a"; "for"; "that"; "with"];
        (* \bthe\b  \band\b  \bis\b *)
        patterns := [w_ "the"; w_ "and"; w_ "is"];
        script := u "latin" |});
    (SPANISH,
     {| common_words := map u ["de"; "la"; "que"; "el"; "en"; "y"; "los"; "se"; "del"; "las"];
        (* \bque\b  \bdel\b  ñ  ¿  ¡ *)
        patterns := [w_ "que"; w_ "del"; s_ "ñ"; s_ "¿"; s_ "¡"];
        script := u "latin" |});
    (FRENCH,
     {| common_words := map u ["de"; "la"; "le"; "et"; "les"; "des"; "en"; "un"; "du"; "une"];
        (* \bqu['e]  \bc'est\b  œ  ç *)
        patterns := [seq [Bound; s_ "qu"; One (Or (chr "'") (chr "e"))];
                     w_ "c'est"; s_ "œ"; s_ "ç"];
        script := u "latin" |});
    (GERMAN,
     {| common_words := map u ["der"; "die"; "und"; "in"; "den"; "von"; "zu"; "das"; "mit"; "sich"];
        (* \bder\b  \bdie\b  \bund\b  ß  ü  ö  ä *)
        patterns := [w_ "der"; w_ "die"; w_ "und"; s_ "ß"; s_ "ü"; s_ "ö"; s_ "ä"];
        script := u "latin" |});
    (ITALIAN,
     {| common_words := map u ["di"; "che"; "la"; "il"; "un"; "per"; "con"; "non"; "una"; "sono"];
        (* \bche\b  \bnon\b  \bper\b *)
        patterns := [w_ "che"; w_ "non"; w_ "per"];
        script := u "latin" |});
    (PORTUGUESE,
     {| common_words := map u ["de"; "que"; "e"; "do"; "da"; "em"; "um"; "para"; "com"; "não"];
        (* \bnão\b  \bpara\b  ã  õ *)
        patterns := [w_ "não"; w_ "para"; s_ "ã"; s_ "õ"];
        script := u "latin" |});
    (DUTCH,
     {| common_words := map u ["de"; "het"; "een"; "van"; "en"; "in"; "is"; "dat"; "op"; "te"];
        (* \bhet\b  \been\b  \bvan\b  ij *)
        patterns := [w_ "het"; w_ "een"; w_ "van"; s_ "ij"];
        script := u "latin" |});
    (RUSSIAN,
     {| common_words := map u ["и"; "в"; "не"; "на"; "я"; "что"; "он"; "с"; "это"; "как"];
        (* [а-яА-Я] *)
        patterns := [One (Or (range_ "а" "я") (range_ "А" "Я"))];
        script := u "cyrillic" |});
    (CHINESE,
     {| common_words := map u ["的"; "一"; "是"; "不"; "了"; "在"; "人"; "有"; "我"; "他"];
        (* [\u4e00-\u9fff] *)
        patterns := [One (Range 0x4e00 0x9fff)];
        script := u "cjk" |});
    (JAPANESE,
     {| common_words := map u ["の"; "に"; "は"; "を"; "た"; "が"; "で"; "て"; "と"; "し"];
        (* [\u3040-\u309f]  [\u30a0-\u30ff] *)
        patterns := [One (Range 0x3040 0x309f); One (Range 0x30a0 0x30ff)];
        script := u "japanese" |});
    (KOREAN,
     {| common_words := map u ["이"; "그"; "저"; "것"; "수"; "하다"; "있다"; "되다"; "없다"];
        (* [\uac00-\ud7af] *)
        patterns := [One (Range 0xac00 0xd7af)];
        script := u "hangul" |});
    (ARABIC,
     {| common_words := map u ["من"; "في"; "على"; "إلى"; "عن"; "مع"; "هذا"; "أن"; "كان"; "لا"];
        (* [\u0600-\u06ff] *)
        patterns := [One (Range 0x0600 0x06ff)];
        script := u "arabic" |});
    (HINDI,
     {| common_words := map u ["का"; "की"; "को"; "में"; "है"; "और"; "से"; "के"; "एक"; "यह"];
        (* [\u0900-\u097f] *)
        patterns := [One (Range 0x0900 0x097f)];
        script := u "devanagari" |});
    (THAI,
     {| common_words := map u ["ที่"; "และ"; "ใน"; "ของ"; "มี"; "เป็น"; "ได้"; "จะ"; "นี้"; "ไม่"];
        (* [\u0e00-\u0e7f] *)
        patterns := [One (Range 0x0e00 0x0e7f)];
        script := u "thai" |}) ].

(** The dictionary literal that opens [_detect_script]. *)
Definition script_counts0 : dict Z :=
  map (fun k => (u k, 0%Z))
    ["latin"; "cyrillic"; "arabic"; "cjk"; "hangul"; "devanagari"; "thai";
     "japanese"; "hebrew"; "greek"].

(** The if/elif chain on [ord(char)]: the counter to increase, if any. *)
Definition script_of_code (code : Z) : option str :=
  if (0x0000 <=? code)%Z && (code <=? 0x024F)%Z then Some (u "latin")
  else if (0x0400 <=? code)%Z && (code <=? 0x04FF)%Z then Some (u "cyrillic")
  else if (0x0600 <=? code)%Z && (code <=? 0x06FF)%Z then Some (u "arabic")
  else if (0x4E00 <=? code)%Z && (code <=? 0x9FFF)%Z then Some (u "cjk")
  else if (0xAC00 <=? code)%Z && (code <=? 0xD7AF)%Z then Some (u "hangul")
  else if (0x0900 <=? code)%Z && (code <=? 0x097F)%Z then Some (u "devanagari")
  else if (0x0E00 <=? code)%Z && (code <=? 0x0E7F)%Z then Some (u "thai")
  else if (0x3040 <=? code)%Z && (code <=? 0x30FF)%Z then Some (u "japanese")
  else if (0x0590 <=? code)%Z && (code <=? 0x05FF)%Z then Some (u "hebrew")
  else if (0x0370 <=? code)%Z && (code <=? 0x03FF)%Z then Some (u "greek")
  else None.

(** [counts[k] += 1] *)
Definition incr (counts : dict Z) (k : str) : result (dict Z) :=
  match get counts k with
  | Some n => Ok (set counts k (n + 1)%Z)
  | None => Raise KeyError
  end.

(** The loop over the characters of the text. *)
Fixpoint count_scripts (counts : dict Z) (text : str) : result (dict Z) :=
  match text with
  | [] => Ok counts
  | char :: text' =>
    counts' <- match script_of_code char with
               | Some k => incr counts k
               | None => Ok counts
               end ;;
    count_scripts counts' text'
  end.

(** [script_counts.get], the key of [max]. *)
Definition counts_get (counts : dict Z) (k : str) : Z :=
  match get counts k with
  | Some n => n
  | None => 0%Z
  end.

Definition _detect_script (text : str) : result str :=
  script_counts <- count_scripts script_counts0 text ;;
  if truthy script_counts then
    match max_by Z.ltb (counts_get script_counts) (keys script_counts) with
    | Some k => Ok k
    | None => Raise ValueError
    end
  else Ok (u "unknown").

Section WithUnicode.
Context {U : Unicode}.

(** The loop over the common words. *)
Definition score_words (text_lower : str) (words : list str) : Q :=
  fold_left
    (fun score word =>
       match search false (seq [Bound; escape word; Bound]) text_lower with
       | Some _ => score + 1.0
       | None => score
       end)
    words 0.0.

(** The loop over the patterns. *)
Definition score_patterns (text : str) (pats : list regex) (score : Q) : Q :=
  fold_left
    (fun score pattern =>
       score + inject_Z (Z.of_nat (findall_count true pattern text)) * 0.5)
    pats score.

(** The body of the loop over the table, for one language. *)
Definition score_language (text text_lower script_ : str) (config : Config) : Q :=
  let score := score_words text_lower (common_words config) in
  let score := score_patterns text (patterns config) score in
  let score := if str_eqb (script config) script_ then score * 1.5 else score in
  let max_possible :=
    (length (common_words config) + length (patterns config) * 5)%nat in
  if (0 <? max_possible)%nat then score / inject_Z (Z.of_nat max_possible) else 0.

Definition score_all (table : list (Language * Config)) (text text_lower script_ : str)
  : dict Q :=
  fold_left
    (fun scores (entry : Language * Config) =>
       let '(lang, config) := entry in
       set scores (value lang) (score_language text text_lower script_ config))
    table [].

(** The part of [detect] after the loop. *)
Definition best_matches (scores : dict Q) (script_ : str)
  : result LanguageDetectionResult :=
  let sorted_scores := sorted_desc (fun x : str * Q => snd x) scores in
  let unknown :=
    {| primary_language := UNKNOWN; confidence := 0.0; all_scores := scores;
       script_detected := script_; is_multilingual := false;
       secondary_languages := [] |} in
  match sorted_scores with
  | (code, top) :: _ =>
    if Qltb 0 top then
      primary <- of_value code ;;
      let confidence := min (top * 2) 1.0 in
      secondary <- mapM (fun x : str * Q => of_value (fst x))
                     (filter (fun x : str * Q => Qltb 0.1 (snd x))
                        (firstn 3 (skipn 1 sorted_scores))) ;;
      Ok {| primary_language := primary; confidence := confidence;
            all_scores := scores; script_detected := script_;
            is_multilingual := (0 <? length secondary)%nat;
            secondary_languages := secondary |}
    else Ok unknown
  | [] => Ok unknown
  end.

(** [text] is empty or consists of white space. *)
Definition blank (text : str) : bool :=
  negb (truthy text) || (length (strip text) =? 0)%nat.

Definition detect_with (table : list (Language * Config)) (text : str)
  : result LanguageDetectionResult :=
  if blank text then
    Ok {| primary_language := UNKNOWN; confidence := 0.0; all_scores := [];
          script_detected := u "unknown"; is_multilingual := false;
          secondary_languages := [] |}
  else
    let text_lower := lower text in
    script_ <- _detect_script text ;;
    best_matches (score_all table text text_lower script_) script_.

(** [LanguageDetector.detect] *)
Definition detect (text : str) : result LanguageDetectionResult :=
  detect_with _build_language_patterns text.

(** The dictionary [scores] of [detect], entry by entry; the loop builds it
    (lemma [language_score_all_eq]). *)
Definition scores_of (text script_ : str) : dict Q :=
  map (fun e => (value (fst e), score_language text (lower text) script_ (snd e)))
    _build_language_patterns.

End WithUnicode.

End LanguageDetector.

(** ** [core/field_extractor.py] *)

Module FieldExtractor.
Import Py Re.
Local Open Scope list_scope.
Local Open Scope Q_scope.

Record FieldResult := {
  value : str;
  confidence : Q;
  found : bool
}.

Record FieldExtractor := {
  fields : list str;
  _custom_fields : list str
}.

(** [FieldExtractor.__init__]; [PREDEFINED_FIELDS] comes from the
    configuration module. *)
Definition __init__ (PREDEFINED_FIELDS : list str) (field_config : option (list str))
  : FieldExtractor :=
  {| fields :=
       match field_config with
       | Some (f :: fs) => f :: fs
       | _ => PREDEFINED_FIELDS
       end;
     _custom_fields := [] |}.

(** [int(s, 16)] on a string of lower-case hexadecimal digits. *)
Definition hex_value (c : char) : Z :=
  (if c <? 58 then c - 48 else c - 87)%Z.

Definition int16 (s : str) : Z :=
  fold_left (fun acc c => (16 * acc + hex_value c)%Z) s 0%Z.

(** [int(hashlib.md5(field_name.encode()).hexdigest()[:8], 16)] *)
Definition stable_hash (field_name : str) : result Z :=
  bytes <- encode field_name ;;
  Ok (int16 (firstn 8 (MD5.hexdigest bytes))).

(** The pattern  label[\s:]+([^\n]+)  for an escaped label. *)
Definition label_pattern (label : str) : regex :=
  seq [escape label; Plus (Or Space (Lit 58)); Group 1 (Plus (Not (Lit 10)))].

Definition _calculate_confidence (field_name value : str) : result Q :=
  if negb (truthy value) then Ok 0.0
  else
    let base_confidence := 0.85 in
    hash_value <- stable_hash field_name ;;
    let variation := inject_Z (hash_value mod 15) / 100 in
    Ok (min 1.0 (base_confidence + variation)).

Section WithUnicode.
Context {U : Unicode}.

(** The loop of [_extract_field] over the patterns.  [match.group(1)] of a
    group that took no part in the match is [None], and [None.strip()]
    raises [AttributeError]. *)
Fixpoint first_match (text : str) (patterns : list regex) : result str :=
  match patterns with
  | [] => Ok []
  | pattern :: patterns' =>
    match search true pattern text with
    | Some m =>
      match group (m_groups m) 1 with
      | Some g => Ok (strip g)
      | None => Raise AttributeError
      end
    | None => first_match text patterns'
    end
  end.

Definition field_patterns (field_name : str) : list regex :=
  let field_lower := lower field_name in
  [ label_pattern field_name;
    label_pattern field_lower;
    label_pattern (remove_char 32%Z field_name) ].

Definition _extract_field (text field_name : str) : result str :=
  first_match text (field_patterns field_name).

(** The body of the loop of [extract], for one field. *)
Definition extract_one (text field : str) : result FieldResult :=
  value <- _extract_field text field ;;
  confidence <- _calculate_confidence field value ;;
  Ok {| value := value; confidence := confidence; found := truthy value |}.

Fixpoint extract_loop (text : str) (all_fields : list str) (results : dict FieldResult)
  : result (dict FieldResult) :=
  match all_fields with
  | [] => Ok results
  | field :: rest =>
    r <- extract_one text field ;;
    extract_loop text rest (set results field r)
  end.

(** [FieldExtractor.extract]; a missing argument is [None]. *)
Definition extract (self : FieldExtractor) (text : str)
    (enabled_fields custom_fields : option (list str))
  : result (dict FieldResult) :=
  let enabled_fields :=
    match enabled_fields with
    | None => fields self
    | Some fs => fs
    end in
  let all_fields :=
    match custom_fields with
    | Some (c :: cs) =>
      enabled_fields ++ map strip (filter (fun f => truthy (strip f)) (c :: cs))
    | _ => enabled_fields
    end in
  extract_loop text all_fields [].

End WithUnicode.

End FieldExtractor.

(** ** What the specification says, in its own words

    These definitions follow the prose of the specification; the theorems
    below compare them with the functions embedded from the source. *)

Module Spec.
Import Py Re.
Local Open Scope Q_scope.

(** [k] with score [s] is the highest entry of [scores], and the first of
    the highest in the order of the dictionary. *)
Definition first_highest (scores : dict Q) (k : str) (s : Q) : Prop :=
  exists before after,
    scores = (before ++ (k, s) :: after)%list /\
    Forall (fun kv => snd kv < s) before /\
    Forall (fun kv => snd kv <= s) after.

(** [s] is the largest value of [scores]. *)
Definition highest (scores : dict Q) (s : Q) : Prop :=
  (exists k, In (k, s) scores) /\ Forall (fun kv => snd kv <= s) scores.

(** A ranking of [scores] by descending score; entries with the same score
    stay in the order of the dictionary. *)
Definition ranking_of (scores ranking : dict Q) : Prop :=
  Permutation ranking scores /\
  StronglySorted (fun a b : str * Q => snd b <= snd a) ranking /\
  forall s, filter (fun kv => Qeq_bool (snd kv) s) ranking
            = filter (fun kv => Qeq_bool (snd kv) s) scores.

Definition matches {U : Unicode} (ic : bool) (r : regex) (text : str) : bool :=
  match search ic r text with
  | Some _ => true
  | None => false
  end.

Module Classifier.
Import DocumentClassifier.

(** The fixed declared order of the types that carry a configuration. *)
Definition declared_order : list DocumentType :=
  [INVOICE; RECEIPT; CONTRACT; FORM; LETTER; REPORT; ID_DOCUMENT;
   BANK_STATEMENT; TAX_DOCUMENT; MEDICAL].

(** The type returned is the one whose score is highest, the first-declared
    of those that share the highest score. *)
Definition returns_first_highest (r : ClassificationResult) : Prop :=
  exists s, first_highest (all_scores r) (value (document_type r)) s.

Section WithUnicode.
Context {U : Unicode}.

(** Keywords occurring in the text, case-insensitively, each counted once. *)
Definition keyword_hits (text : str) (cfg : Config) : nat :=
  length (filter (fun k => contains (lower k) (lower text)) (keywords cfg)).

(** Patterns that match the lower-cased text. *)
Definition pattern_hits (text : str) (cfg : Config) : nat :=
  length (filter (fun p => matches false p (lower text)) (patterns cfg)).

(** The maximum attainable score of a type. *)
Definition max_attainable (cfg : Config) : nat :=
  (length (keywords cfg) + 2 * length (patterns cfg))%nat.

(** weight x (keyword hits + 2 x pattern hits) / maximum attainable score *)
Definition normalized (text : str) (cfg : Config) : Q :=
  weight cfg
  * inject_Z (Z.of_nat (keyword_hits text cfg + 2 * pattern_hits text cfg))
  / inject_Z (Z.of_nat (max_attainable cfg)).

End WithUnicode.
End Classifier.

Module Detector.
Import LanguageDetector.

(** The ten script tags, in the order of declaration. *)
Definition script_tags : list str :=
  map u ["latin"; "cyrillic"; "arabic"; "cjk"; "hangul"; "devanagari"; "thai";
         "japanese"; "hebrew"; "greek"]%string.

(** The ten Unicode ranges. *)
Definition script_ranges : list (Z * Z) :=
  [ (0x0000, 0x024F); (0x0400, 0x04FF); (0x0600, 0x06FF); (0x4E00, 0x9FFF);
    (0xAC00, 0xD7AF); (0x0900, 0x097F); (0x0E00, 0x0E7F); (0x3040, 0x30FF);
    (0x0590, 0x05FF); (0x0370, 0x03FF) ]%Z.

Definition in_some_range (code : Z) : bool :=
  existsb (fun r => (fst r <=? code)%Z && (code <=? snd r)%Z) script_ranges.

(** The languages of the table, in the order of declaration. *)
Definition declared_order : list Language :=
  [ENGLISH; SPANISH; FRENCH; GERMAN; ITALIAN; PORTUGUESE; DUTCH; RUSSIAN;
   CHINESE; JAPANESE; KOREAN; ARABIC; HINDI; THAI].

Section WithUnicode.
Context {U : Unicode}.

(** The text is empty or white space only. *)
Definition whitespace_only (text : str) : Prop :=
  Forall (fun c => isspace c = true) text.

(** Common words matching as a whole word, case-insensitively. *)
Definition word_hits (text : str) (cfg : Config) : nat :=
  length (filter (fun w => matches false (seq [Bound; escape w; Bound]) (lower text))
            (common_words cfg)).

(** Occurrences of the patterns in the text. *)
Definition pattern_occurrences (text : str) (cfg : Config) : nat :=
  list_sum (map (fun p => findall_count true p text) (patterns cfg)).

(** (1 per word + 0.5 per occurrence), times 1.5 when the script of the
    language is the dominant script, over (#words + 5 x #patterns). *)
Definition score (text dominant : str) (cfg : Config) : Q :=
  (inject_Z (Z.of_nat (word_hits text cfg))
   + 0.5 * inject_Z (Z.of_nat (pattern_occurrences text cfg)))
  * (if str_eqb (script cfg) dominant then 1.5 else 1)
  / inject_Z (Z.of_nat (length (common_words cfg) + 5 * length (patterns cfg))).

End WithUnicode.
End Detector.

Module Extractor.
Import FieldExtractor.

Section WithUnicode.
Context {U : Unicode}.

(** [text] reads  pre lab sep val post  where [lab] is the label as the
    engine compares it under re.IGNORECASE, [sep] is one or more characters
    of the class [\s:], [val] is one or more characters of the class [^\n],
    and [val] runs up to the end of its line: [post] is empty or starts
    with a character that is not of the class [^\n]. *)
Definition label_match (label text lab sep val : str) : Prop :=
  exists pre post,
    text = (pre ++ lab ++ sep ++ val ++ post)%list /\
    Forall2 (fun c p => in_cset true (Lit p) c = true) lab label /\
    sep <> [] /\ Forall (fun c => in_cset true (Or Space (Lit 58)) c = true) sep /\
    val <> [] /\ Forall (fun c => in_cset true (Not (Lit 10)) c = true) val /\
    (post = [] \/
     exists c post', post = c :: post' /\ in_cset true (Not (Lit 10)) c = false).

(** The first of the patterns that matches the text, with its match. *)
Fixpoint first_hit (text : str) (ps : list regex) : option match_obj :=
  match ps with
  | [] => None
  | p :: ps' =>
    match search true p text with
    | Some m => Some m
    | None => first_hit text ps'
    end
  end.

End WithUnicode.
End Extractor.

End Spec.

(** ** The classifier and the field confidence in double precision

    The same functions as above with the arithmetic of IEEE 754 binary64
    (round to nearest even), the arithmetic of a Python [float]. *)

Module Binary64.
Import Py Re.

Definition float := spec_float.

Definition prec : Z := 53.
Definition emax : Z := 1024.

(** [float(n)] for an integer. *)
Definition of_int (n : Z) : float := binary_normalize prec emax n 0 false.

Definition add : float -> float -> float := SFadd prec emax.
Definition mul : float -> float -> float := SFmul prec emax.
Definition div : float -> float -> float := SFdiv prec emax.
Definition ltb : float -> float -> bool := SFltb.
Definition leb : float -> float -> bool := SFleb.

(** A decimal literal of the source: the double nearest to the quotient. *)
Definition literal (q : Q) : float := div (of_int (Qnum q)) (of_int (Zpos (Qden q))).

Definition min (a b : float) : float := if ltb b a then b else a.

Record ClassificationResult := {
  document_type : DocumentClassifier.DocumentType;
  confidence : float;
  all_scores : dict float;
  keywords_found : list str
}.

Section WithUnicode.
Context {U : Unicode}.

Definition score_keywords (text_lower : str) (kws : list str) : float * list str :=
  fold_left
    (fun (acc : float * list str) keyword =>
       let '(score, found_keywords) := acc in
       if contains (lower keyword) text_lower
       then (add score (literal 1.0), (found_keywords ++ [keyword])%list)
       else acc)
    kws (literal 0.0, []).

Definition score_patterns (text_lower : str) (pats : list regex) (score : float)
  : float :=
  fold_left
    (fun score pattern =>
       match search false pattern text_lower with
       | Some _ => add score (literal 2.0)
       | None => score
       end)
    pats score.

Definition score_type (text_lower : str) (config : DocumentClassifier.Config)
  : float * list str :=
  let '(score, found_keywords) :=
    score_keywords text_lower (DocumentClassifier.keywords config) in
  let score := score_patterns text_lower (DocumentClassifier.patterns config) score in
  let score := mul score (literal (DocumentClassifier.weight config)) in
  let max_score :=
    (length (DocumentClassifier.keywords config)
     + length (DocumentClassifier.patterns config) * 2)%nat in
  let normalized_score :=
    if (0 <? max_score)%nat then div score (of_int (Z.of_nat max_score))
    else of_int 0 in
  (normalized_score, found_keywords).

Definition score_all (table : list (DocumentClassifier.DocumentType * DocumentClassifier.Config))
    (text_lower : str) : dict float * dict (list str) :=
  fold_left
    (fun (acc : dict float * dict (list str)) entry =>
       let '(doc_type, config) := entry in
       let '(normalized_score, found_keywords) := score_type text_lower config in
       (set (fst acc) (DocumentClassifier.value doc_type) normalized_score,
        set (snd acc) (DocumentClassifier.value doc_type) found_keywords))
    table ([], []).

Definition scores_get (scores : dict float) (k : str) : float :=
  match get scores k with
  | Some v => v
  | None => of_int 0
  end.

Definition best_match (scores : dict float) (keywords_found : dict (list str))
  : result ClassificationResult :=
  if truthy scores then
    match max_by ltb (scores_get scores) (keys scores) with
    | None => Raise ValueError
    | Some best_type =>
      match get scores best_type with
      | None => Raise KeyError
      | Some best_score =>
        if ltb best_score (literal 0.1) then
          Ok {| document_type := DocumentClassifier.UNKNOWN;
                confidence := literal 0.0;
                all_scores := scores; keywords_found := [] |}
        else
          doc_type <- DocumentClassifier.of_value best_type ;;
          Ok {| document_type := doc_type;
                confidence := min (mul best_score (of_int 2)) (literal 1.0);
                all_scores := scores;
                keywords_found :=
                  match get keywords_found best_type with
                  | Some ks => ks
                  | None => []
                  end |}
      end
    end
  else
    Ok {| document_type := DocumentClassifier.UNKNOWN; confidence := literal 0.0;
          all_scores := []; keywords_found := [] |}.

(** [DocumentClassifier.classify] *)
Definition classify (text : str) : result ClassificationResult :=
  let text_lower := lower text in
  let '(scores, keywords_found) :=
    score_all DocumentClassifier._build_patterns text_lower in
  best_match scores keywords_found.

End WithUnicode.

(** [FieldExtractor._calculate_confidence] *)
Definition _calculate_confidence (field_name value : str) : result float :=
  if negb (truthy value) then Ok (literal 0.0)
  else
    let base_confidence := literal 0.85 in
    hash_value <- FieldExtractor.stable_hash field_name ;;
    let variation := div (of_int (hash_value mod 15)) (of_int 100) in
    Ok (min (literal 1.0) (add base_confidence variation)).

(** The score of a type with [k] keywords and [p] patterns found. *)
Definition normalized (config : DocumentClassifier.Config) (k p : nat) : float :=
  let score := Nat.iter p (fun s => add s (literal 2.0))
                 (Nat.iter k (fun s => add s (literal 1.0)) (literal 0.0)) in
  let score := mul score (literal (DocumentClassifier.weight config)) in
  let max_score :=
    (length (DocumentClassifier.keywords config)
     + length (DocumentClassifier.patterns config) * 2)%nat in
  if (0 <? max_score)%nat then div score (of_int (Z.of_nat max_score)) else of_int 0.

(** The same score in the rational model. *)
Definition normalized_Q (config : DocumentClassifier.Config) (k p : nat) : Q :=
  (DocumentClassifier.weight config
   * inject_Z (Z.of_nat (k + 2 * p))
   / inject_Z (Z.of_nat (length (DocumentClassifier.keywords config)
                         + 2 * length (DocumentClassifier.patterns config))))%Q.

(** Every score a type of the table can reach, in both arithmetics. *)
Definition attainable : list (float * Q) :=
  flat_map
    (fun entry : DocumentClassifier.DocumentType * DocumentClassifier.Config =>
       let config := snd entry in
       flat_map
         (fun k =>
            map (fun p => (normalized config k p, normalized_Q config k p))
              (List.seq 0%nat (S (length (DocumentClassifier.patterns config)))))
         (List.seq 0%nat (S (length (DocumentClassifier.keywords config)))))
    DocumentClassifier._build_patterns.

End Binary64.

(** ** The rest of [core/document_classifier.py] *)

Module Routing.
Import Py DocumentClassifier.

(** The dictionary literal [schema_mapping]; its keys are members of the
    enumeration. *)
Definition schema_mapping : list (DocumentType * str) :=
  [ (INVOICE, u "invoice");
    (RECEIPT, u "receipt");
    (CONTRACT, u "contract");
    (BANK_STATEMENT, u "bank_statement");
    (TAX_DOCUMENT, u "tax_document");
    (MEDICAL, u "medical") ].

(** [m.get(k, default)] on a dictionary keyed by members. *)
Fixpoint get_member (m : list (DocumentType * str)) (k : DocumentType) (default : str)
  : str :=
  match m with
  | [] => default
  | (k', v) :: t => if DocumentType_eqb k' k then v else get_member t k default
  end.

Section WithUnicode.
Context {U : Unicode}.

(** [DocumentClassifier.classify_with_routing] *)
Definition classify_with_routing (text : str)
  : result (ClassificationResult * str) :=
  result <- classify text ;;
  let suggested_schema :=
    get_member schema_mapping (document_type result) (u "general") in
  Ok (result, suggested_schema).

End WithUnicode.

(** [DocumentClassifier.get_supported_types] *)
Definition get_supported_types : list str :=
  map value (filter (fun dt => negb (DocumentType_eqb dt UNKNOWN)) members).

End Routing.

(** ** The rest of [core/language_support.py] *)

Module MultiLanguageProcessor.
Import Py Re LanguageDetector.
Local Open Scope string_scope.
Local Open Scope list_scope.

Definition Language_eqb (a b : Language) : bool := str_eqb (value a) (value b).

(** [LanguageDetector.get_supported_languages] *)
Definition get_supported_languages : list str :=
  map value (filter (fun lang => negb (Language_eqb lang UNKNOWN)) members).

(** [LanguageDetector._build_script_ranges]; the detector stores the table
    and reads it nowhere. *)
Definition _build_script_ranges : dict (Z * Z) :=
  [ (u "latin", (0x0000, 0x024F));
    (u "cyrillic", (0x0400, 0x04FF));
    (u "arabic", (0x0600, 0x06FF));
    (u "devanagari", (0x0900, 0x097F));
    (u "thai", (0x0E00, 0x0E7F));
    (u "cjk", (0x4E00, 0x9FFF));
    (u "hangul", (0xAC00, 0xD7AF));
    (u "japanese_hiragana", (0x3040, 0x309F));
    (u "japanese_katakana", (0x30A0, 0x30FF));
    (u "hebrew", (0x0590, 0x05FF));
    (u "greek", (0x0370, 0x03FF)) ]%Z.

Definition _load_field_translations : dict (dict str) :=
  [ (u "invoice_number",
     [ (u "en", u "invoice number");
       (u "es", u "número de factura");
       (u "fr", u "numéro de facture");
       (u "de", u "rechnungsnummer");
       (u "it", u "numero fattura");
       (u "pt", u "número da fatura") ]);
    (u "date",
     [ (u "en", u "date");
       (u "es", u "fecha");
       (u "fr", u "date");
       (u "de", u "datum");
       (u "it", u "data");
       (u "pt", u "data") ]);
    (u "total",
     [ (u "en", u "total");
       (u "es", u "total");
       (u "fr", u "total");
       (u "de", u "gesamt");
       (u "it", u "totale");
       (u "pt", u "total") ]);
    (u "tax",
     [ (u "en", u "tax");
       (u "es", u "impuesto");
       (u "fr", u "taxe");
       (u "de", u "steuer");
       (u "it", u "tassa");
       (u "pt", u "imposto") ]) ].

(** [MultiLanguageProcessor.get_field_pattern] *)
Definition get_field_pattern (field_name : str) (language : Language) : option str :=
  match get _load_field_translations field_name with
  | Some translations => get translations (value language)
  | None => None
  end.

(** The characters that mean something else than themselves in a pattern. *)
Definition metacharacters : str := u ".^$*+?{}[]\|()".

(** A label with no metacharacter, put into a pattern as it is, is the
    pattern that matches the label. *)
Definition plain (label : str) : bool :=
  forallb (fun c => negb (existsb (Z.eqb c) metacharacters)) label.

(** The pattern  label\s*:?\s*(.+?)  of [process_multilingual], up to the
    final (?:\n|$). *)
Definition field_regex (label : str) : regex :=
  seq [lit label; ws0; Opt (One (Lit 58)); ws0;
       Group 1 (Cat (One Dot) (StarLazy Dot))].

(** [$] without re.MULTILINE: the end of the subject, or the place before
    a newline that ends the subject. *)
Definition at_dollar (st : state) : bool :=
  match rest st with
  | [] => true
  | [c] => (c =? 10)%Z
  | _ => false
  end.

Section WithUnicode.
Context {U : Unicode}.

(** The ways of matching  (?:\n|$)  at the cursor, in the order of the
    alternatives. *)
Definition line_end (ic : bool) (st : state) : list state :=
  run ic (One (Lit 10)) st ++ (if at_dollar st then [st] else []).

(** The first match at the cursor of a pattern followed by  (?:\n|$) . *)
Definition match_line_here (ic : bool) (r : regex) (p : option char) (t : str)
    (start : nat) : option match_obj :=
  match flat_map (line_end ic) (run ic r {| prev := p; rest := t; caps := [] |}) with
  | st :: _ => Some (mk_match start t st)
  | [] => None
  end.

Fixpoint search_line_from (ic : bool) (r : regex) (p : option char) (t : str)
    (start : nat) : option match_obj :=
  match match_line_here ic r p t start with
  | Some m => Some m
  | None =>
    match t with
    | [] => None
    | c :: t' => search_line_from ic r (Some c) t' (S start)
    end
  end.

(** [re.search] of a pattern followed by  (?:\n|$) . *)
Definition search_line (ic : bool) (r : regex) (text : str) : option match_obj :=
  search_line_from ic r None text 0.

Record MultilingualResult := {
  language : str;
  confidence : Q;
  fields : dict str
}.

(** The loop of [process_multilingual] over the requested fields. *)
Fixpoint process_fields (text : str) (primary : Language) (requested : list str)
    (acc : dict str) : result (dict str) :=
  match requested with
  | [] => Ok acc
  | field :: requested' =>
    match get_field_pattern field primary with
    | Some (c :: pattern') =>
      match search_line true (field_regex (c :: pattern')) text with
      | Some m =>
        match group (m_groups m) 1 with
        | Some g => process_fields text primary requested' (set acc field (strip g))
        | None => Raise AttributeError
        end
      | None => process_fields text primary requested' acc
      end
    | _ => process_fields text primary requested' acc
    end
  end.

(** [MultiLanguageProcessor.process_multilingual] *)
Definition process_multilingual (text : str) (requested : list str)
  : result MultilingualResult :=
  detection <- detect text ;;
  found <- process_fields text (primary_language detection) requested [] ;;
  Ok {| language := value (primary_language detection);
        confidence := LanguageDetector.confidence detection;
        fields := found |}.

End WithUnicode.

End MultiLanguageProcessor.

(** ** The rest of [core/field_extractor.py] *)

Module FieldTools.
Import Py FieldExtractor.

(** [FieldExtractor.add_custom_field] *)
Definition add_custom_field (self : FieldExtractor.FieldExtractor) (field_name : str)
  : FieldExtractor.FieldExtractor :=
  if truthy field_name && negb (existsb (str_eqb field_name) (_custom_fields self))
  then {| fields := fields self;
          _custom_fields := (_custom_fields self ++ [field_name])%list |}
  else self.

(** [FieldExtractor.get_confidence_scores]: a dictionary comprehension over
    the items. *)
Definition get_confidence_scores (results : dict FieldResult) : dict Q :=
  fold_left (fun d (item : str * FieldResult) => set d (fst item) (confidence (snd item)))
    results [].

(** [FieldExtractor.to_dict] *)
Definition to_dict (results : dict FieldResult) : dict str :=
  fold_left (fun d (item : str * FieldResult) => set d (fst item) (value (snd item)))
    results [].

(** The exact value of a finite double. *)
Definition exact (x : Binary64.float) : Q :=
  match x with
  | S754_finite s m e => (if s then -1 else 1) * inject_Z (Zpos m) * Qpower 2 e
  | _ => 0
  end%Q.

(** The nearest integer, ties to the even one. *)
Definition round_half_even (q : Q) : Z :=
  let n := Qfloor q in
  match Qcompare (q - inject_Z n) (1 # 2) with
  | Lt => n
  | Gt => (n + 1)%Z
  | Eq => if Z.even n then n else (n + 1)%Z
  end.

(** [round(x, 1)] on a float: the exact value is rounded to one decimal,
    ties to even, and the decimal is read back as a double. *)
Definition round1 (x : Binary64.float) : Binary64.float :=
  match x with
  | S754_finite s _ _ =>
    let n := round_half_even (Qabs (exact x) * 10)%Q in
    let r := Binary64.div (Binary64.of_int n) (Binary64.of_int 10) in
    if s then SFopp r else r
  | _ => x
  end.

(** A value of the statistics: an [int] or a [float]. *)
Inductive number :=
| Int (n : Z)
| Float (x : Binary64.float).

Record Statistics := {
  total_fields : Z;
  fields_found : Z;
  fields_empty : Z;
  success_rate : number
}.

(** [FieldExtractor.get_statistics] *)
Definition get_statistics (results : dict FieldResult) : Statistics :=
  let total := Z.of_nat (length results) in
  let found_ :=
    fold_left (fun n (item : str * FieldResult) => if found (snd item) then (n + 1)%Z else n)
      results 0%Z in
  {| total_fields := total;
     fields_found := found_;
     fields_empty := (total - found_)%Z;
     success_rate :=
       if (0 <? total)%Z
       then Float (round1 (Binary64.mul
                             (Binary64.div (Binary64.of_int found_) (Binary64.of_int total))
                             (Binary64.of_int 100)))
       else Int 0 |}.

Section WithUnicode.
Context {U : Unicode}.

(** The list [all_fields] of [extract]. *)
Definition all_fields (self : FieldExtractor.FieldExtractor)
    (enabled_fields custom_fields : option (list str)) : list str :=
  let enabled_fields :=
    match enabled_fields with
    | None => fields self
    | Some fs => fs
    end in
  match custom_fields with
  | Some (c :: cs) =>
    (enabled_fields ++ map strip (filter (fun f => truthy (strip f)) (c :: cs)))%list
  | _ => enabled_fields
  end.

End WithUnicode.

(** The elements of a list, each at the place where it comes first. *)
Fixpoint first_occurrences (l : list str) (seen : list str) : list str :=
  match l with
  | [] => []
  | x :: t =>
    if existsb (str_eqb x) seen then first_occurrences t seen
    else x :: first_occurrences t (x :: seen)
  end.

End FieldTools.

(** ** Notions the further properties are stated with *)

Module Notions.
Import Py.

(** The types that [classify_with_routing] sends to a schema of their own. *)
Definition routed_types : list DocumentClassifier.DocumentType :=
  [ DocumentClassifier.INVOICE; DocumentClassifier.RECEIPT;
    DocumentClassifier.CONTRACT; DocumentClassifier.BANK_STATEMENT;
    DocumentClassifier.TAX_DOCUMENT; DocumentClassifier.MEDICAL ].

(** The languages that have field translations. *)
Definition translated_languages : list LanguageDetector.Language :=
  [ LanguageDetector.ENGLISH; LanguageDetector.SPANISH; LanguageDetector.FRENCH;
    LanguageDetector.GERMAN; LanguageDetector.ITALIAN; LanguageDetector.PORTUGUESE ].

(** The Unicode range of each script tag. *)
Definition tagged_ranges : dict (Z * Z) :=
  combine Spec.Detector.script_tags Spec.Detector.script_ranges.

Definition in_range (r : Z * Z) (code : Z) : bool :=
  (fst r <=? code) && (code <=? snd r).

(** The number of characters of the text in the range of a script. *)
Definition chars_of (tag : str) (text : str) : Z :=
  match get tagged_ranges tag with
  | Some r => Z.of_nat (length (filter (in_range r) text))
  | None => 0
  end.

(** A string with no white space at either end. *)
Definition trimmed {U : Unicode} (s : str) : Prop :=
  match s with
  | [] => True
  | c :: _ => isspace c = false /\ isspace (last s c) = false
  end.

(** The character counts towards the script: the if/elif chain of
    [_detect_script] picks it. *)
Definition counts_towards (tag : str) (code : Z) : bool :=
  match LanguageDetector.script_of_code code with
  | Some k => str_eqb k tag
  | None => false
  end.

Section WithUnicode.
Context {U : Unicode}.

(** What follows a match of  (?:\n|$) : nothing, or a newline. *)
Definition ends_line (post : str) : Prop :=
  match post with
  | [] => True
  | c :: post' => Re.in_cset true (Re.Lit 10) c = true \/ (c = 10%Z /\ post' = [])
  end.

(** An occurrence of  label\s*:?\s*(.+?)(?:\n|$)  in the text: [lab] is the
    label up to case, [sep] is white space with at most one colon in it,
    [val] is one or more characters other than a newline, and [val] runs up
    to the end of its line. *)
Definition line_match (label text lab sep val : str) : Prop :=
  exists pre post s1 colon s2,
    text = (pre ++ lab ++ sep ++ val ++ post)%list /\
    Forall2 (fun c p => Re.in_cset true (Re.Lit p) c = true) lab label /\
    sep = (s1 ++ colon ++ s2)%list /\
    Forall (fun c => isspace c = true) s1 /\
    Forall (fun c => isspace c = true) s2 /\
    (colon = [] \/ exists c, colon = [c] /\ Re.in_cset true (Re.Lit 58) c = true) /\
    val <> [] /\ Forall (fun c => c <> 10%Z) val /\
    ends_line post.

End WithUnicode.

End Notions.

(** * Properties *)

(** ** Facts about the Python primitives *)

(** [table_entry F I]: a fact [F] about every entry of a table, at the entry
    that [I] says is in the table. *)
Ltac table_entry F I :=
  let H := fresh in
  pose proof F as H; rewrite Forall_forall in H; exact (H _ I).

Module PyFacts.
Import Py.
Local Open Scope Q_scope.

Lemma Qltb_lt (x y : Q) : Qltb x y = true <-> x < y.
Proof.
  unfold Qltb. rewrite negb_true_iff.
  split; intro H.
  - apply Qnot_le_lt. intro L. apply Qle_bool_iff in L. congruence.
  - destruct (Qle_bool y x) eqn:E; [|reflexivity].
    apply Qle_bool_iff in E. lra.
Qed.

Lemma Qltb_ge (x y : Q) : Qltb x y = false <-> y <= x.
Proof.
  unfold Qltb. rewrite negb_false_iff. apply Qle_bool_iff.
Qed.

Lemma min_spec (a b : Q) : min a b == Qmin a b.
Proof.
  unfold min. destruct (Qltb b a) eqn:E.
  - apply Qltb_lt in E. rewrite Q.min_r; lra.
  - apply Qltb_ge in E. rewrite Q.min_l; lra.
Qed.

Lemma str_eqb_eq (a b : str) : str_eqb a b = true <-> a = b.
Proof.
  revert b. induction a as [|x a IH]; intros [|y b]; simpl; try easy.
  rewrite andb_true_iff, Z.eqb_eq, IH.
  split; [intros [-> ->]; reflexivity | intro E; inversion E; auto].
Qed.

Lemma str_eqb_refl (a : str) : str_eqb a a = true.
Proof. now apply str_eqb_eq. Qed.

Lemma str_eqb_neq (a b : str) : str_eqb a b = false <-> a <> b.
Proof.
  rewrite <- str_eqb_eq. destruct (str_eqb a b); split; congruence.
Qed.

Section Dict.
Context {V : Type}.

Lemma get_none (d : dict V) (k : str) : get d k = None <-> ~ In k (keys d).
Proof.
  induction d as [|[k' v] d IH]; simpl.
  - tauto.
  - destruct (str_eqb k' k) eqn:E.
    + apply str_eqb_eq in E. split; [discriminate | intro H; exfalso; auto].
    + apply str_eqb_neq in E. rewrite IH. tauto.
Qed.

Lemma get_in (d : dict V) (k : str) (v : V) : get d k = Some v -> In (k, v) d.
Proof.
  induction d as [|[k' v'] d IH]; simpl; [discriminate|].
  destruct (str_eqb k' k) eqn:E.
  - apply str_eqb_eq in E. intros [= ->]. subst. now left.
  - intro H. right. auto.
Qed.

Lemma in_get (d : dict V) (k : str) (v : V) :
  NoDup (keys d) -> In (k, v) d -> get d k = Some v.
Proof.
  induction d as [|[k' v'] d IH]; simpl; [easy|].
  intros ND [E|I].
  - inversion E; subst. now rewrite str_eqb_refl.
  - inversion ND as [|? ? NI ND']; subst.
    destruct (str_eqb k' k) eqn:E.
    + apply str_eqb_eq in E. subst. exfalso. apply NI.
      change k with (fst (k, v)). now apply in_map.
    + auto.
Qed.

Lemma get_middle (before after : dict V) (k : str) (v : V) :
  NoDup (keys (before ++ (k, v) :: after)) ->
  get (before ++ (k, v) :: after) k = Some v.
Proof.
  intro ND. apply in_get; [assumption|].
  apply in_or_app. right. now left.
Qed.

(** Writing a key the dictionary does not hold appends the entry. *)
Lemma set_fresh (d : dict V) (k : str) (v : V) :
  ~ In k (keys d) -> set d k v = (d ++ [(k, v)])%list.
Proof.
  induction d as [|[k' v'] d IH]; simpl; [reflexivity|].
  intro NI. destruct (str_eqb k' k) eqn:E.
  - apply str_eqb_eq in E. tauto.
  - f_equal. apply IH. tauto.
Qed.

(** Writing a key the dictionary holds leaves the keys as they are. *)
Lemma keys_set_present (d : dict V) (k : str) (v : V) :
  In k (keys d) -> keys (set d k v) = keys d.
Proof.
  induction d as [|[k' v'] d IH]; simpl; [easy|].
  intros I. destruct (str_eqb k' k) eqn:E; simpl; [reflexivity|].
  f_equal. apply IH. destruct I as [->|I]; [|assumption].
  now rewrite str_eqb_refl in E.
Qed.

Lemma get_set_same (d : dict V) (k : str) (v : V) : get (set d k v) k = Some v.
Proof.
  induction d as [|[k' v'] d IH]; simpl.
  - now rewrite str_eqb_refl.
  - destruct (str_eqb k' k) eqn:E; simpl; rewrite E; auto.
Qed.

Lemma get_set_other (d : dict V) (k k' : str) (v : V) :
  k <> k' -> get (set d k v) k' = get d k'.
Proof.
  intro NE. induction d as [|[k0 v0] d IH]; simpl.
  - apply str_eqb_neq in NE. now rewrite NE.
  - destruct (str_eqb k0 k) eqn:E; simpl.
    + apply str_eqb_eq in E. subst.
      apply str_eqb_neq in NE. now rewrite NE.
    + now rewrite IH.
Qed.

(** A loop that writes distinct fresh keys builds the dictionary entry by
    entry, in the order of the loop. *)
Lemma fold_set_fresh {E : Type} (key : E -> str) (val : E -> V) (l : list E) :
  forall acc : dict V,
    NoDup (keys acc ++ map key l) ->
    fold_left (fun d e => set d (key e) (val e)) l acc
    = (acc ++ map (fun e => (key e, val e)) l)%list.
Proof.
  induction l as [|e l IH]; intros acc ND; simpl.
  - now rewrite app_nil_r.
  - rewrite set_fresh.
    + rewrite IH.
      * now rewrite <- app_assoc.
      * unfold keys in *. rewrite map_app. simpl.
        rewrite <- app_assoc. exact ND.
    + simpl in ND. apply NoDup_remove_2 in ND.
      intro I. apply ND. apply in_or_app. now left.
Qed.

End Dict.

(** *** [max] *)

Section MaxBy.
Context {A K : Type} (ltb : K -> K -> bool) (key : A -> K).

Let step (best y : A) : A := if ltb (key best) (key y) then y else best.

Lemma fold_max_in (t : list A) (x : A) : In (fold_left step t x) (x :: t).
Proof.
  revert x. induction t as [|y t IH]; intro x; simpl.
  - now left.
  - destruct (IH (step x y)) as [E|I].
    + unfold step in E at 1. destruct (ltb (key x) (key y)); auto.
    + auto.
Qed.

Lemma max_by_in (xs : list A) (b : A) : max_by ltb key xs = Some b -> In b xs.
Proof.
  destruct xs as [|x t]; simpl; [discriminate|].
  intros [= <-]. apply fold_max_in.
Qed.

Lemma max_by_some (xs : list A) : xs <> [] -> exists b, max_by ltb key xs = Some b.
Proof.
  destruct xs as [|x t]; [congruence|]. intros _. simpl. eauto.
Qed.

(** When nothing beats the first element, the first element is returned. *)
Lemma max_by_first (x : A) (t : list A) :
  Forall (fun y => ltb (key x) (key y) = false) t ->
  max_by ltb key (x :: t) = Some x.
Proof.
  simpl. intro F. f_equal.
  induction F as [|y t Hy F IH]; simpl; [reflexivity|].
  now rewrite Hy.
Qed.

End MaxBy.

(** On floats: the result is the first of the largest. *)
Lemma fold_max_split {A} (key : A -> Q) (t : list A) (x : A) :
  let b := fold_left (fun best y => if Qltb (key best) (key y) then y else best) t x in
  exists before after,
    x :: t = (before ++ b :: after)%list /\
    Forall (fun y => key y < key b) before /\
    Forall (fun y => key y <= key b) after.
Proof.
  induction t as [|y t IH] using rev_ind; simpl.
  - exists [], []. repeat split; constructor.
  - rewrite fold_left_app. simpl.
    destruct IH as (before & after & E & Fb & Fa).
    set (b := fold_left _ t x) in *.
    destruct (Qltb (key b) (key y)) eqn:L.
    + apply Qltb_lt in L.
      exists (x :: t), []. split; [reflexivity|]. split; [|constructor].
      rewrite E. apply Forall_app. split.
      * eapply Forall_impl; [|exact Fb]. simpl. intros; lra.
      * constructor; [assumption|].
        eapply Forall_impl; [|exact Fa]. simpl. intros; lra.
    + apply Qltb_ge in L.
      exists before, (after ++ [y])%list. split; [|split].
      * change (x :: t ++ [y])%list with ((x :: t) ++ [y])%list.
        rewrite E, <- app_assoc. reflexivity.
      * assumption.
      * apply Forall_app. split; [assumption|]. now constructor.
Qed.

(** [max(scores, key=scores.get)] on a dictionary with distinct keys. *)
Lemma max_by_first_highest (scores : dict Q) (k : str) :
  NoDup (keys scores) ->
  max_by Qltb (fun k => match get scores k with Some v => v | None => 0 end)
    (keys scores) = Some k ->
  exists s, get scores k = Some s /\ Spec.first_highest scores k s.
Proof.
  intros ND M.
  destruct scores as [|[k0 s0] rest]; [discriminate|].
  set (d := (k0, s0) :: rest) in *.
  set (key := fun k => match get d k with Some v => v | None => 0 end) in *.
  change (keys d) with (k0 :: keys rest) in M.
  unfold max_by in M. injection M as M.
  pose proof (fold_max_split key (keys rest) k0) as H. cbv zeta in H.
  rewrite M in H. destruct H as (kb & ka & E & Fb & Fa).
  change (k0 :: keys rest) with (keys d) in E.
  assert (S : exists before after s,
             d = (before ++ (k, s) :: after)%list /\
             keys before = kb /\ keys after = ka).
  { clearbody d. clear -E. revert d E.
    induction kb as [|a kb IH]; intros d E.
    - destruct d as [|[k1 s1] d]; simpl in E; [discriminate|].
      injection E as E1 E2. exists [], d, s1. subst. auto.
    - destruct d as [|[k1 s1] d]; simpl in E; [discriminate|].
      injection E as E1 E2.
      destruct (IH d E2) as (b & a' & s & Ed & Eb & Ea).
      exists ((k1, s1) :: b), a', s. subst. auto. }
  destruct S as (before & after & s & Ed & <- & <-).
  assert (G : forall k' v', In (k', v') d -> key k' = v').
  { intros k' v' I. unfold key. now rewrite (in_get d k' v' ND I). }
  assert (Gk : key k = s).
  { apply G. rewrite Ed. apply in_or_app. right. now left. }
  exists s. split.
  - rewrite Ed. apply get_middle. now rewrite <- Ed.
  - exists before, after. split; [assumption|].
    rewrite Gk in *.
    split; apply Forall_forall; intros [k' v'] I; simpl.
    + rewrite <- (G k' v').
      * rewrite Forall_forall in Fb. apply Fb.
        change k' with (fst (k', v')). now apply in_map.
      * rewrite Ed. apply in_or_app. now left.
    + rewrite <- (G k' v').
      * rewrite Forall_forall in Fa. apply Fa.
        change k' with (fst (k', v')). now apply in_map.
      * rewrite Ed. apply in_or_app. right. now right.
Qed.

Lemma first_highest_highest (scores : dict Q) (k : str) (s : Q) :
  Spec.first_highest scores k s -> Spec.highest scores s.
Proof.
  intros (before & after & -> & Fb & Fa). split.
  - exists k. apply in_or_app. right. now left.
  - apply Forall_app. split.
    + eapply Forall_impl; [|exact Fb]. simpl. intros; lra.
    + constructor; [simpl; lra | assumption].
Qed.

Lemma highest_unique (scores : dict Q) (a b : Q) :
  Spec.highest scores a -> Spec.highest scores b -> a == b.
Proof.
  intros [[ka Ia] Fa] [[kb Ib] Fb].
  rewrite Forall_forall in Fa, Fb.
  apply Fa in Ib. apply Fb in Ia. simpl in *. lra.
Qed.

Lemma first_highest_unique (scores : dict Q) (k k' : str) (s s' : Q) :
  Spec.first_highest scores k s -> Spec.first_highest scores k' s' -> k = k'.
Proof.
  intros (b1 & a1 & E1 & Fb1 & Fa1) (b2 & a2 & E2 & Fb2 & Fa2).
  rewrite E1 in E2. clear E1 scores.
  revert b2 E2 Fb2.
  induction b1 as [|x b1 IH]; intros [|y b2] E2 Fb2; simpl in E2.
  - congruence.
  - injection E2 as Ey Ea. subst y.
    inversion Fb2 as [|? ? Hy _]. simpl in Hy.
    rewrite Forall_forall in Fa1.
    assert (I : In (k', s') a1) by (rewrite Ea; apply in_or_app; right; now left).
    apply Fa1 in I. simpl in I. lra.
  - injection E2 as Ex Ea. subst x.
    inversion Fb1 as [|? ? Hx _]. simpl in Hx.
    rewrite Forall_forall in Fa2.
    assert (I : In (k, s) a2) by (rewrite <- Ea; apply in_or_app; right; now left).
    apply Fa2 in I. simpl in I. lra.
  - injection E2 as _ Et.
    inversion Fb1; inversion Fb2; subst. eapply IH; eauto.
Qed.

End PyFacts.

(** ** The document classifier *)

Module ClassifierFacts.
Import Py Re DocumentClassifier PyFacts.
Import Spec Spec.Classifier.
Local Open Scope Q_scope.

Lemma of_value_value (d : DocumentType) : of_value (value d) = Ok d.
Proof. destruct d; reflexivity. Qed.

Lemma table_order : map fst _build_patterns = declared_order.
Proof. reflexivity. Qed.

Lemma table_keys_nodup : NoDup (map (fun e => value (fst e)) _build_patterns).
Proof.
  repeat (constructor; [simpl; intuition discriminate|]). constructor.
Qed.

Lemma table_max_positive :
  Forall (fun e => (0 < max_attainable (snd e))%nat) _build_patterns.
Proof. repeat constructor. Qed.

Section WithUnicode.
Context {U : Unicode}.

(** *** The loops compute the counts of the specification *)

Lemma score_keywords_fold (tl : str) (kws : list str) :
  forall (score : Q) (found : list str),
    let r := fold_left
      (fun (acc : Q * list str) keyword =>
         let '(score, found_keywords) := acc in
         if contains (lower keyword) tl
         then (score + 1.0, (found_keywords ++ [keyword])%list)
         else acc) kws (score, found) in
    fst r == score + inject_Z (Z.of_nat (length (filter (fun k => contains (lower k) tl) kws)))
    /\ snd r = (found ++ filter (fun k => contains (lower k) tl) kws)%list.
Proof.
  induction kws as [|k kws IH]; intros score found; simpl.
  - split; [unfold inject_Z; lra | now rewrite app_nil_r].
  - destruct (contains (lower k) tl); simpl.
    + destruct (IH (score + 1.0) (found ++ [k])%list) as [E1 E2].
      split.
      * rewrite E1, Zpos_P_of_succ_nat, <- Z.add_1_r, inject_Z_plus.
        change (inject_Z 1) with 1. lra.
      * rewrite E2, <- app_assoc. reflexivity.
    + apply IH.
Qed.

Lemma score_patterns_fold (tl : str) (pats : list regex) :
  forall score : Q,
    score_patterns tl pats score
    == score + 2 * inject_Z (Z.of_nat (length (filter (fun p => matches false p tl) pats))).
Proof.
  unfold score_patterns, matches.
  induction pats as [|p pats IH]; intro score; simpl.
  - unfold inject_Z; lra.
  - destruct (search false p tl); simpl.
    + rewrite IH, Zpos_P_of_succ_nat, <- Z.add_1_r, inject_Z_plus.
      change (inject_Z 1) with 1. lra.
    + apply IH.
Qed.

(** The normalized score of one type is the quotient of the specification. *)
Lemma score_type_normalized (text : str) (cfg : Config) :
  (0 < max_attainable cfg)%nat ->
  fst (score_type (lower text) cfg) == normalized text cfg.
Proof.
  intro P. unfold score_type, score_keywords.
  destruct (score_keywords_fold (lower text) (keywords cfg) 0.0 []) as [E1 _].
  cbv zeta in E1.
  destruct (fold_left _ (keywords cfg) (0.0, [])) as [score found] eqn:F.
  simpl in E1. cbv zeta.
  replace (length (keywords cfg) + length (patterns cfg) * 2)%nat
    with (max_attainable cfg) by (unfold max_attainable; lia).
  destruct (0 <? max_attainable cfg)%nat eqn:L;
    [|apply Nat.ltb_ge in L; lia].
  simpl. unfold normalized.
  rewrite score_patterns_fold, E1.
  unfold keyword_hits, pattern_hits.
  set (k := length (filter _ (keywords cfg))).
  set (p := length (filter _ (patterns cfg))).
  rewrite Nat2Z.inj_add, Nat2Z.inj_mul, inject_Z_plus, inject_Z_mult.
  assert (D : ~ inject_Z (Z.of_nat (max_attainable cfg)) == 0).
  { intro Z0. unfold Qeq in Z0. simpl in Z0. lia. }
  change (inject_Z (Z.of_nat 2)) with 2.
  field. exact D.
Qed.

(** The two dictionaries built by the loop over the table. *)
Lemma score_all_pair (table : list (DocumentType * Config)) (tl : str) :
  forall (a : dict Q) (b : dict (list str)),
    fold_left
      (fun (acc : dict Q * dict (list str)) (entry : DocumentType * Config) =>
         let '(doc_type, config) := entry in
         let '(normalized_score, found_keywords) := score_type tl config in
         (set (fst acc) (value doc_type) normalized_score,
          set (snd acc) (value doc_type) found_keywords))
      table (a, b)
    = (fold_left (fun d e => set d (value (fst e)) (fst (score_type tl (snd e)))) table a,
       fold_left (fun d e => set d (value (fst e)) (snd (score_type tl (snd e)))) table b).
Proof.
  induction table as [|[d cfg] table IH]; intros a b; simpl; [reflexivity|].
  destruct (score_type tl cfg) as [n f]. simpl. apply IH.
Qed.

Lemma score_all_eq (table : list (DocumentType * Config)) (tl : str) :
  NoDup (map (fun e => value (fst e)) table) ->
  score_all table tl
  = (map (fun e => (value (fst e), fst (score_type tl (snd e)))) table,
     map (fun e => (value (fst e), snd (score_type tl (snd e)))) table).
Proof.
  intro ND. unfold score_all. rewrite score_all_pair.
  f_equal.
  - exact (fold_set_fresh (fun e => value (fst e))
             (fun e => fst (score_type tl (snd e))) table [] ND).
  - exact (fold_set_fresh (fun e => value (fst e))
             (fun e => snd (score_type tl (snd e))) table [] ND).
Qed.

Lemma keys_scores_of (text : str) :
  keys (scores_of text) = map value declared_order.
Proof. reflexivity. Qed.

Lemma value_declared (k : str) :
  In k (map value declared_order) ->
  exists d, In d declared_order /\ value d = k /\ d <> UNKNOWN.
Proof.
  intro I. apply in_map_iff in I. destruct I as (d & E & I).
  exists d. repeat split; auto.
  intros ->. simpl in I. intuition discriminate.
Qed.

(** What [classify] returns, case by case. *)
Lemma classify_cases (text : str) :
  exists k s d,
    first_highest (scores_of text) k s /\
    In d declared_order /\ value d = k /\ d <> UNKNOWN /\
    classify text =
    Ok (if Qltb s 0.1
        then {| document_type := UNKNOWN; confidence := 0.0;
                all_scores := scores_of text; keywords_found := [] |}
        else {| document_type := d; confidence := min (s * 2) 1.0;
                all_scores := scores_of text;
                keywords_found :=
                  match get (found_of text) k with
                  | Some ks => ks
                  | None => []
                  end |}).
Proof.
  unfold classify, classify_with.
  rewrite (score_all_eq _ _ table_keys_nodup).
  fold (scores_of text). fold (found_of text).
  unfold best_match.
  assert (ND : NoDup (keys (scores_of text))).
  { rewrite keys_scores_of. exact table_keys_nodup. }
  destruct (max_by_some Qltb (scores_get (scores_of text)) (keys (scores_of text)))
    as [k M]; [rewrite keys_scores_of; discriminate|].
  rewrite M.
  destruct (max_by_first_highest _ _ ND M) as (s & G & FH).
  rewrite G.
  pose proof (max_by_in _ _ _ _ M) as I. rewrite keys_scores_of in I.
  destruct (value_declared k I) as (d & Id & Ed & Nd).
  exists k, s, d. repeat split; auto.
  destruct (Qltb s 0.1); [reflexivity|].
  rewrite <- Ed, of_value_value. reflexivity.
Qed.

(** C1. For every text, [classify] returns a result whose confidence lies in
    [0,1], and the type is UNKNOWN exactly when the confidence is 0. *)
Theorem classify_confidence_range (text : str) :
  exists r,
    classify text = Ok r /\
    0 <= confidence r /\ confidence r <= 1 /\
    (document_type r = UNKNOWN <-> confidence r == 0).
Proof.
  destruct (classify_cases text) as (k & s & d & FH & Id & Ed & Nd & C).
  rewrite C. eexists. split; [reflexivity|].
  destruct (Qltb s 0.1) eqn:L; simpl.
  - repeat split; try lra; reflexivity.
  - apply Qltb_ge in L. rewrite min_spec.
    assert (P : 0 < Qmin (s * 2) 1.0 <= 1).
    { destruct (Q.min_spec (s * 2) 1.0) as [[? ->]|[? ->]]; lra. }
    split; [lra|]. split; [lra|]. split.
    + intro E. contradiction.
    + intro E. lra.
Qed.

(** C2. When the best normalized score is below 0.1 the result is UNKNOWN
    with confidence 0 and no keywords, whatever the scores, which are
    reported in [all_scores] all the same; otherwise the confidence is
    min(best x 2, 1.0). *)
Theorem classify_threshold (text : str) :
  exists r best,
    classify text = Ok r /\
    all_scores r = scores_of text /\
    highest (all_scores r) best /\
    (best < 0.1 ->
       document_type r = UNKNOWN /\ confidence r == 0 /\ keywords_found r = []) /\
    (~ best < 0.1 -> confidence r == Qmin (best * 2) 1.0).
Proof.
  destruct (classify_cases text) as (k & s & d & FH & Id & Ed & Nd & C).
  rewrite C. eexists. exists s. split; [reflexivity|].
  apply first_highest_highest in FH.
  destruct (Qltb s 0.1) eqn:L; simpl.
  - apply Qltb_lt in L.
    split; [reflexivity|]. split; [exact FH|]. split.
    + intros _. split; [reflexivity|]. split; [lra | reflexivity].
    + intro N. contradiction.
  - apply Qltb_ge in L.
    split; [reflexivity|]. split; [exact FH|]. split.
    + intro N. lra.
    + intros _. apply min_spec.
Qed.

(** C3, as amended.  For every text whose best normalized score is at least
    0.1, [classify] returns the type whose normalized score is highest, the
    types being iterated in the declared order INVOICE, RECEIPT, CONTRACT,
    FORM, LETTER, REPORT, ID_DOCUMENT, BANK_STATEMENT, TAX_DOCUMENT, MEDICAL,
    and the first-declared of those that share the highest score; below 0.1
    the type is UNKNOWN. *)
Theorem classify_first_highest (text : str) :
  exists r best,
    classify text = Ok r /\
    keys (all_scores r) = map value declared_order /\
    highest (all_scores r) best /\
    (0.1 <= best ->
       In (document_type r) declared_order /\ returns_first_highest r) /\
    (best < 0.1 -> document_type r = UNKNOWN).
Proof.
  destruct (classify_cases text) as (k & s & d & FH & Id & Ed & Nd & C).
  rewrite C. eexists. exists s. split; [reflexivity|].
  pose proof (first_highest_highest _ _ _ FH) as H.
  destruct (Qltb s 0.1) eqn:L; simpl.
  - apply Qltb_lt in L.
    split; [reflexivity|]. split; [exact H|]. split.
    + intro N. lra.
    + reflexivity.
  - apply Qltb_ge in L.
    split; [reflexivity|]. split; [exact H|]. split.
    + intros _. split; [exact Id|]. exists s. simpl. rewrite Ed. exact FH.
    + intro N. lra.
Qed.

(** C4. For every text and every type of the table, the score recorded in
    [all_scores] is weight x (keyword hits + 2 x pattern hits) over
    (number of keywords + 2 x number of patterns). *)
Theorem classify_all_scores (text : str) (d : DocumentType) (cfg : Config) :
  In (d, cfg) _build_patterns ->
  exists r s,
    classify text = Ok r /\
    get (all_scores r) (value d) = Some s /\
    (0 < max_attainable cfg)%nat /\
    s == normalized text cfg.
Proof.
  intro I.
  destruct (classify_cases text) as (k & s & d' & FH & Id & Ed & Nd & C).
  assert (P : (0 < max_attainable cfg)%nat).
  { table_entry table_max_positive I. }
  exists (if Qltb s 0.1
          then {| document_type := UNKNOWN; confidence := 0.0;
                  all_scores := scores_of text; keywords_found := [] |}
          else {| document_type := d'; confidence := min (s * 2) 1.0;
                  all_scores := scores_of text;
                  keywords_found :=
                    match get (found_of text) k with
                    | Some ks => ks
                    | None => []
                    end |}).
  exists (fst (score_type (lower text) cfg)).
  split; [exact C|]. split; [|split; [exact P|]].
  - assert (A : forall (b : bool) (x y : ClassificationResult),
               all_scores x = scores_of text -> all_scores y = scores_of text ->
               all_scores (if b then x else y) = scores_of text)
      by (intros b x y Hx Hy; destruct b; assumption).
    rewrite A by reflexivity.
    apply in_get.
    + rewrite keys_scores_of. exact table_keys_nodup.
    + unfold scores_of.
      exact (in_map (fun e => (value (fst e), fst (score_type (lower text) (snd e))))
               _build_patterns (d, cfg) I).
  - apply score_type_normalized. exact P.
Qed.

End WithUnicode.

(** C4 at the text "Invoice Number: INV-001" and the type INVOICE. *)
Lemma classify_all_scores_witness :
  exists cfg,
    In (INVOICE, cfg) _build_patterns /\
    exists r s,
      classify (U := basic_latin) (u "Invoice Number: INV-001") = Ok r /\
      get (all_scores r) (value INVOICE) = Some s /\
      (0 < max_attainable cfg)%nat /\
      s == normalized (U := basic_latin) (u "Invoice Number: INV-001") cfg.
Proof.
  eexists. split.
  - left. reflexivity.
  - apply (classify_all_scores (U := basic_latin)). left. reflexivity.
Defined.

(** C3 as stated fails on the empty text: every score is 0, the first of the
    highest is INVOICE, and the result is UNKNOWN. *)
Lemma classify_empty_not_first_highest :
  ~ exists r,
      classify (U := basic_latin) [] = Ok r /\ returns_first_highest r.
Proof.
  intros (r & C & s & before & after & E & _).
  vm_compute in C. injection C as <-.
  assert (I : In (value UNKNOWN) (keys (before ++ (value UNKNOWN, s) :: after))).
  { unfold keys. rewrite map_app. apply in_or_app. right. now left. }
  simpl all_scores in E. simpl document_type in E.
  rewrite <- E in I. vm_compute in I.
  repeat (destruct I as [I|I]; [discriminate I|]). exact I.
Qed.

End ClassifierFacts.

(** ** [sorted(..., reverse=True)] *)

Module SortFacts.
Import Py PyFacts.
Local Open Scope Q_scope.

Section Sorted.
Context {A : Type} (key : A -> Q).

Let ge (a b : A) : Prop := key b <= key a.

Lemma insert_desc_perm (x : A) (l : list A) :
  Permutation (insert_desc key x l) (x :: l).
Proof.
  induction l as [|y t IH]; simpl; [reflexivity|].
  destruct (Qltb (key x) (key y)); [|reflexivity].
  rewrite IH. apply perm_swap.
Qed.

Lemma sorted_desc_perm (l : list A) : Permutation (sorted_desc key l) l.
Proof.
  induction l as [|x t IH]; simpl; [reflexivity|].
  rewrite insert_desc_perm. now constructor.
Qed.

Lemma insert_desc_sorted (x : A) (l : list A) :
  StronglySorted ge l -> StronglySorted ge (insert_desc key x l).
Proof.
  induction 1 as [|y t S IH F]; simpl.
  - repeat constructor.
  - destruct (Qltb (key x) (key y)) eqn:L.
    + apply Qltb_lt in L. constructor; [exact IH|].
      apply (Permutation_Forall (Permutation_sym (insert_desc_perm x t))).
      constructor; [unfold ge; lra | exact F].
    + apply Qltb_ge in L. constructor; [now constructor|].
      constructor; [exact L|].
      eapply Forall_impl; [|exact F]. unfold ge. intros; lra.
Qed.

Lemma sorted_desc_sorted (l : list A) : StronglySorted ge (sorted_desc key l).
Proof.
  induction l as [|x t IH]; simpl; [constructor|].
  now apply insert_desc_sorted.
Qed.

(** Stability: entries with the same key keep their order. *)
Lemma insert_desc_stable (s : Q) (x : A) (l : list A) :
  filter (fun a => Qeq_bool (key a) s) (insert_desc key x l)
  = filter (fun a => Qeq_bool (key a) s) (x :: l).
Proof.
  induction l as [|y t IH]; [reflexivity|].
  simpl insert_desc. destruct (Qltb (key x) (key y)) eqn:L; [|reflexivity].
  apply Qltb_lt in L. simpl in *. rewrite IH.
  destruct (Qeq_bool (key x) s) eqn:Ex, (Qeq_bool (key y) s) eqn:Ey; try reflexivity.
  apply Qeq_bool_iff in Ex, Ey. lra.
Qed.

Lemma sorted_desc_stable (s : Q) (l : list A) :
  filter (fun a => Qeq_bool (key a) s) (sorted_desc key l)
  = filter (fun a => Qeq_bool (key a) s) l.
Proof.
  induction l as [|x t IH]; [reflexivity|].
  simpl sorted_desc. rewrite insert_desc_stable. simpl. now rewrite IH.
Qed.

Lemma sorted_desc_nil (l : list A) : sorted_desc key l = [] -> l = [].
Proof.
  intro E. pose proof (sorted_desc_perm l) as P. rewrite E in P.
  now apply Permutation_nil in P.
Qed.

End Sorted.

Lemma sorted_desc_ranking (scores : dict Q) :
  Spec.ranking_of scores (sorted_desc (fun x : str * Q => snd x) scores).
Proof.
  split; [apply sorted_desc_perm|]. split; [apply sorted_desc_sorted|].
  intro s. apply (sorted_desc_stable (fun x : str * Q => snd x)).
Qed.

(** The head of the ranking is the first of the highest entries. *)
Lemma sorted_desc_head (scores : dict Q) (k : str) (s : Q) (rest : dict Q) :
  sorted_desc (fun x : str * Q => snd x) scores = (k, s) :: rest ->
  Spec.first_highest scores k s.
Proof.
  revert k s rest. induction scores as [|[k0 s0] t IH]; intros k s rest E.
  - discriminate.
  - simpl in E. destruct (sorted_desc _ t) as [|[k1 s1] srt] eqn:S.
    + simpl in E. injection E as <- <- <-.
      apply sorted_desc_nil in S. subst. exists [], []. repeat constructor.
    + simpl in E. destruct (Qltb s0 s1) eqn:L.
      * injection E as <- <- <-. apply Qltb_lt in L.
        destruct (IH _ _ _ eq_refl) as (before & after & -> & Fb & Fa).
        exists ((k0, s0) :: before), after. split; [reflexivity|].
        split; [constructor; assumption | assumption].
      * injection E as <- <- <-. apply Qltb_ge in L.
        destruct (IH _ _ _ eq_refl) as (before & after & -> & Fb & Fa).
        exists [], (before ++ (k1, s1) :: after)%list. split; [reflexivity|].
        split; [constructor|]. apply Forall_app. split.
        -- eapply Forall_impl; [|exact Fb]. simpl. intros; lra.
        -- constructor; [exact L|].
           eapply Forall_impl; [|exact Fa]. simpl. intros; lra.
Qed.

End SortFacts.

(** ** The language detector *)

Module DetectorFacts.
Import Py Re LanguageDetector PyFacts SortFacts.
Import Spec Spec.Detector.
Local Open Scope Q_scope.

Lemma language_of_value (l : Language) : of_value (value l) = Ok l.
Proof. destruct l; reflexivity. Qed.

Lemma language_table_order : map fst _build_language_patterns = declared_order.
Proof. reflexivity. Qed.

Lemma language_keys_nodup :
  NoDup (map (fun e => value (fst e)) _build_language_patterns).
Proof.
  repeat (constructor; [simpl; intuition discriminate|]). constructor.
Qed.

Lemma language_max_positive :
  Forall (fun e => (0 < length (common_words (snd e))
                        + 5 * length (patterns (snd e)))%nat)
    _build_language_patterns.
Proof. repeat constructor. Qed.

Lemma language_declared (k : str) :
  In k (map value declared_order) ->
  exists l, In l declared_order /\ value l = k /\ l <> UNKNOWN.
Proof.
  intro I. apply in_map_iff in I. destruct I as (l & E & I).
  exists l. repeat split; auto.
  intros ->. simpl in I. intuition discriminate.
Qed.

(** *** The dominant script *)

Lemma script_counts0_keys : keys script_counts0 = script_tags.
Proof. reflexivity. Qed.

Lemma script_of_code_tag (code : Z) (k : str) :
  script_of_code code = Some k -> In k script_tags.
Proof.
  unfold script_of_code.
  repeat match goal with
         | |- context [if ?b then _ else _] => destruct b
         end;
    intros [= <-]; vm_compute; tauto.
Qed.

Lemma script_of_code_none (code : Z) :
  script_of_code code = None <-> in_some_range code = false.
Proof.
  unfold script_of_code, in_some_range, script_ranges, existsb, fst, snd.
  repeat match goal with
         | |- context [if ?b then _ else _] => destruct b
         end;
    simpl; split; congruence.
Qed.

Lemma incr_ok (counts : dict Z) (k : str) :
  In k (keys counts) ->
  exists counts', incr counts k = Ok counts' /\ keys counts' = keys counts.
Proof.
  intro I. unfold incr. destruct (get counts k) as [n|] eqn:G.
  - eexists. split; [reflexivity|]. now apply keys_set_present.
  - apply get_none in G. contradiction.
Qed.

(** The loop over the characters never raises and keeps the ten counters. *)
Lemma count_scripts_ok (text : str) :
  forall counts,
    keys counts = script_tags ->
    exists counts', count_scripts counts text = Ok counts' /\ keys counts' = script_tags.
Proof.
  induction text as [|c text IH]; intros counts K; simpl.
  - eauto.
  - destruct (script_of_code c) as [k|] eqn:S.
    + apply script_of_code_tag in S. rewrite <- K in S.
      destruct (incr_ok counts k S) as (counts' & -> & K').
      simpl. apply IH. congruence.
    + simpl. now apply IH.
Qed.

Lemma count_scripts_outside (text : str) (counts : dict Z) :
  Forall (fun c => in_some_range c = false) text ->
  count_scripts counts text = Ok counts.
Proof.
  induction 1 as [|c text H F IH]; simpl; [reflexivity|].
  apply script_of_code_none in H. rewrite H. simpl. exact IH.
Qed.

Lemma detect_script_ok (text : str) :
  exists k, _detect_script text = Ok k /\ In k script_tags.
Proof.
  unfold _detect_script.
  destruct (count_scripts_ok text script_counts0 script_counts0_keys)
    as (counts & -> & K).
  cbn [bind].
  assert (T : truthy counts = true).
  { destruct counts; [discriminate K | reflexivity]. }
  rewrite T.
  destruct (max_by_some Z.ltb (counts_get counts) (keys counts)) as [k M].
  { rewrite K. discriminate. }
  rewrite M. exists k. split; [reflexivity|].
  rewrite <- K. exact (max_by_in _ _ _ _ M).
Qed.

Lemma detect_script_outside (text : str) :
  Forall (fun c => in_some_range c = false) text ->
  _detect_script text = Ok (u "latin").
Proof.
  intro F. unfold _detect_script. rewrite (count_scripts_outside _ _ F).
  reflexivity.
Qed.

Lemma unknown_not_tag : ~ In (u "unknown") script_tags.
Proof. vm_compute. intuition discriminate. Qed.

Lemma mapM_of_value (l : list (str * Q)) :
  Forall (fun x => In (fst x) (map value declared_order)) l ->
  exists ls, mapM (fun x : str * Q => of_value (fst x)) l = Ok ls /\
             map value ls = map fst l.
Proof.
  induction 1 as [|x l Hx F (ls & E & M)]; simpl.
  - exists []. auto.
  - destruct (language_declared _ Hx) as (lang & _ & V & _).
    rewrite <- V, language_of_value, E. simpl.
    exists (lang :: ls). simpl. now rewrite M.
Qed.

Section WithUnicode.
Context {U : Unicode}.

(** *** Blank texts *)

Lemma lstrip_nil (s : str) : lstrip s = [] <-> Forall (fun c => isspace c = true) s.
Proof.
  induction s as [|c s IH]; simpl.
  - split; auto.
  - destruct (isspace c) eqn:E.
    + rewrite IH. split; [now constructor | now inversion 1].
    + split; [discriminate | inversion 1; congruence].
Qed.

Lemma lstrip_head (s : str) (c : char) (t : str) :
  lstrip s = c :: t -> isspace c = false.
Proof.
  induction s as [|x s IH]; simpl; [discriminate|].
  destruct (isspace x) eqn:E; [exact IH | now intros [= <- _]].
Qed.

Lemma strip_nil (s : str) : strip s = [] <-> whitespace_only s.
Proof.
  unfold strip, rstrip, whitespace_only. split.
  - intro E. apply lstrip_nil.
    assert (R : lstrip (rev (lstrip s)) = []).
    { rewrite <- (rev_involutive (lstrip _)), E. reflexivity. }
    apply lstrip_nil in R.
    destruct (lstrip s) as [|c t] eqn:L; [reflexivity|].
    apply lstrip_head in L.
    rewrite Forall_forall in R. rewrite (R c) in L; [discriminate|].
    apply in_rev. rewrite rev_involutive. now left.
  - intro F. apply lstrip_nil in F. rewrite F. reflexivity.
Qed.

(** The test that opens [detect] holds of the empty text and of the texts
    made of white space, and of no other. *)
Lemma blank_iff (text : str) : blank text = true <-> whitespace_only text.
Proof.
  unfold blank. rewrite orb_true_iff, Nat.eqb_eq, length_zero_iff_nil, strip_nil.
  split; [|auto]. intros [E|F]; [|exact F].
  destruct text; [constructor | discriminate].
Qed.

(** *** The loops compute the counts of the specification *)

Lemma score_words_fold (tl : str) (words : list str) :
  forall score : Q,
    fold_left
      (fun score word =>
         match search false (seq [Bound; escape word; Bound]) tl with
         | Some _ => score + 1.0
         | None => score
         end) words score
    == score + inject_Z (Z.of_nat (length
         (filter (fun w => matches false (seq [Bound; escape w; Bound]) tl) words))).
Proof.
  unfold matches.
  induction words as [|w words IH]; intro score.
  - simpl. unfold inject_Z; lra.
  - cbn [fold_left filter].
    destruct (search false (seq [Bound; escape w; Bound]) tl); cbn [length].
    + rewrite IH, Nat2Z.inj_succ, <- Z.add_1_r, inject_Z_plus.
      change (inject_Z 1) with 1. lra.
    + apply IH.
Qed.

Lemma language_patterns_fold (text : str) (pats : list regex) :
  forall score : Q,
    score_patterns text pats score
    == score + 0.5 * inject_Z (Z.of_nat
         (list_sum (map (fun p => findall_count true p text) pats))).
Proof.
  unfold score_patterns.
  induction pats as [|p pats IH]; intro score; simpl.
  - unfold inject_Z; lra.
  - rewrite IH, Nat2Z.inj_add, inject_Z_plus. lra.
Qed.

(** The score of one language is the quotient of the specification. *)
Lemma score_language_spec (text scr : str) (cfg : Config) :
  (0 < length (common_words cfg) + 5 * length (patterns cfg))%nat ->
  score_language text (lower text) scr cfg == score text scr cfg.
Proof.
  intro P. unfold score_language, score, score_words, word_hits, pattern_occurrences.
  replace (length (common_words cfg) + length (patterns cfg) * 5)%nat
    with (length (common_words cfg) + 5 * length (patterns cfg))%nat by lia.
  set (m := (length (common_words cfg) + 5 * length (patterns cfg))%nat) in *.
  destruct (0 <? m)%nat eqn:L; [|apply Nat.ltb_ge in L; lia].
  assert (D : ~ inject_Z (Z.of_nat m) == 0).
  { intro Z0. unfold Qeq in Z0. simpl in Z0. lia. }
  pose proof (score_words_fold (lower text) (common_words cfg) 0.0) as W.
  pose proof (language_patterns_fold text (patterns cfg)) as Pt.
  set (w := fold_left _ (common_words cfg) 0.0) in *.
  destruct (str_eqb (script cfg) scr).
  - rewrite (Pt w), W. field. exact D.
  - rewrite (Pt w), W. field. exact D.
Qed.

Lemma score_nonneg (text scr : str) (cfg : Config) : 0 <= score text scr cfg.
Proof.
  unfold score.
  set (w := word_hits text cfg). set (p := pattern_occurrences text cfg).
  set (m := (length (common_words cfg) + 5 * length (patterns cfg))%nat).
  assert (Hw : 0 <= inject_Z (Z.of_nat w)) by (unfold Qle; simpl; lia).
  assert (Hp : 0 <= inject_Z (Z.of_nat p)) by (unfold Qle; simpl; lia).
  assert (Hm : 0 <= / inject_Z (Z.of_nat m)).
  { apply Qinv_le_0_compat. unfold Qle; simpl; lia. }
  unfold Qdiv. apply Qmult_le_0_compat; [|exact Hm].
  apply Qmult_le_0_compat; [lra|].
  destruct (str_eqb (script cfg) scr); lra.
Qed.

Lemma language_score_all_eq (table : list (Language * Config)) (text tl scr : str) :
  NoDup (map (fun e => value (fst e)) table) ->
  score_all table text tl scr
  = map (fun e => (value (fst e), score_language text tl scr (snd e))) table.
Proof.
  intro ND. unfold score_all.
  transitivity
    (fold_left (fun d e => set d (value (fst e)) (score_language text tl scr (snd e)))
       table []).
  - generalize (@nil (str * Q)).
    induction table as [|[l cfg] table IH]; intro acc; simpl; [reflexivity|].
    apply IH. now inversion ND.
  - exact (fold_set_fresh (fun e => value (fst e))
             (fun e => score_language text tl scr (snd e)) table [] ND).
Qed.

Lemma language_keys_scores_of (text scr : str) :
  keys (scores_of text scr) = map value declared_order.
Proof. reflexivity. Qed.

Lemma scores_of_nonneg (text scr : str) :
  Forall (fun kv => 0 <= snd kv) (scores_of text scr).
Proof.
  unfold scores_of. apply Forall_map, Forall_forall. intros [l cfg] I. simpl.
  rewrite score_language_spec; [apply score_nonneg|].
  table_entry language_max_positive I.
Qed.

(** What [detect] returns on a text that is not blank. *)
Lemma detect_cases (text : str) :
  blank text = false ->
  exists scr k top rest lang secondary,
    _detect_script text = Ok scr /\ In scr script_tags /\
    sorted_desc (fun x : str * Q => snd x) (scores_of text scr) = (k, top) :: rest /\
    value lang = k /\ lang <> UNKNOWN /\
    map value secondary
    = map fst (filter (fun x : str * Q => Qltb 0.1 (snd x)) (firstn 3 rest)) /\
    detect text =
    Ok (if Qltb 0 top
        then {| primary_language := lang; confidence := min (top * 2) 1.0;
                all_scores := scores_of text scr; script_detected := scr;
                is_multilingual := (0 <? length secondary)%nat;
                secondary_languages := secondary |}
        else {| primary_language := UNKNOWN; confidence := 0.0;
                all_scores := scores_of text scr; script_detected := scr;
                is_multilingual := false; secondary_languages := [] |}).
Proof.
  intro B. unfold detect, detect_with. rewrite B.
  destruct (detect_script_ok text) as (scr & S & T). rewrite S. cbn [bind].
  rewrite (language_score_all_eq _ _ _ _ language_keys_nodup). fold (scores_of text scr).
  unfold best_matches.
  pose proof (sorted_desc_perm (fun x : str * Q => snd x) (scores_of text scr)) as P.
  destruct (sorted_desc _ (scores_of text scr)) as [|[k top] rest] eqn:E.
  { apply Permutation_nil in P. discriminate P. }
  assert (K : Forall (fun x : str * Q => In (fst x) (map value declared_order))
                ((k, top) :: rest)).
  { apply (Permutation_Forall (Permutation_sym P)).
    rewrite <- (language_keys_scores_of text scr). apply Forall_forall.
    intros x I. now apply in_map. }
  inversion K as [|? ? Kk Kr]; subst.
  destruct (language_declared _ Kk) as (lang & _ & V & N). simpl in V.
  assert (Kf : Forall (fun x : str * Q => In (fst x) (map value declared_order))
                 (filter (fun x : str * Q => Qltb 0.1 (snd x)) (firstn 3 rest))).
  { apply Forall_forall. intros x I. apply filter_In in I. destruct I as [I _].
    rewrite Forall_forall in Kr. apply Kr.
    rewrite <- (firstn_skipn 3 rest). apply in_or_app. now left. }
  destruct (mapM_of_value _ Kf) as (secondary & M & Ms).
  exists scr, k, top, rest, lang, secondary.
  repeat (split; [assumption || reflexivity|]).
  cbn [skipn]. destruct (Qltb 0 top); [|reflexivity].
  rewrite <- V, language_of_value. cbn [bind]. rewrite M. reflexivity.
Qed.

(** C5. [detect] returns UNKNOWN with confidence 0 and no secondary language
    exactly when the text is empty or white space only or every score is
    zero; otherwise the primary language is the top scorer and the
    confidence is min(top x 2, 1.0). *)
Theorem detect_unknown_iff (text : str) :
  exists r,
    detect text = Ok r /\
    ((primary_language r = UNKNOWN /\ confidence r == 0 /\ secondary_languages r = [])
     <-> (whitespace_only text \/ Forall (fun kv => snd kv == 0) (all_scores r))) /\
    (~ (whitespace_only text \/ Forall (fun kv => snd kv == 0) (all_scores r)) ->
     exists top,
       first_highest (all_scores r) (value (primary_language r)) top /\
       confidence r == Qmin (top * 2) 1.0) /\
    (~ whitespace_only text -> keys (all_scores r) = map value declared_order).
Proof.
  destruct (blank text) eqn:B.
  - pose proof (proj1 (blank_iff text) B) as W.
    unfold detect, detect_with. rewrite B. eexists. split; [reflexivity|].
    simpl. split; [|split].
    + split; [auto|]. intros _. split; [reflexivity|]. split; [lra|reflexivity].
    + intro N. exfalso. auto.
    + intro N. contradiction.
  - assert (W : ~ whitespace_only text).
    { intro W. apply blank_iff in W. congruence. }
    destruct (detect_cases text B)
      as (scr & k & top & rest & lang & secondary & S & T & E & V & N & M & D).
    rewrite D. eexists. split; [reflexivity|].
    pose proof (sorted_desc_head _ _ _ _ E) as FH.
    pose proof (first_highest_highest _ _ _ FH) as [[k' Ik] Hi].
    destruct (Qltb 0 top) eqn:L; simpl.
    + apply Qltb_lt in L.
      assert (NZ : ~ Forall (fun kv : str * Q => snd kv == 0) (scores_of text scr)).
      { intro F. rewrite Forall_forall in F. apply F in Ik. simpl in Ik. lra. }
      split; [|split].
      * split; [intros [P _]; contradiction | intros [?|?]; contradiction].
      * intros _. exists top. rewrite V. split; [exact FH | apply min_spec].
      * intros _. reflexivity.
    + apply Qltb_ge in L.
      assert (Z0 : Forall (fun kv : str * Q => snd kv == 0) (scores_of text scr)).
      { pose proof (scores_of_nonneg text scr) as NN.
        rewrite Forall_forall in *. intros x I.
        specialize (NN x I). specialize (Hi x I). cbv beta in NN, Hi |- *. lra. }
      split; [|split].
      * split; [auto|]. intros _. split; [reflexivity|]. split; [lra|reflexivity].
      * intro C. exfalso. auto.
      * intros _. reflexivity.
Qed.

(** C6. On a text that is not blank, the score recorded for a language of
    the table is (1 per common word found as a whole word + 0.5 per
    occurrence of a pattern), times 1.5 when the script of the language is
    the dominant script of the text, over (#words + 5 x #patterns). *)
Theorem detect_all_scores (text : str) (l : Language) (cfg : Config) :
  blank text = false ->
  In (l, cfg) _build_language_patterns ->
  exists r s,
    detect text = Ok r /\
    get (all_scores r) (value l) = Some s /\
    _detect_script text = Ok (script_detected r) /\
    (0 < length (common_words cfg) + 5 * length (patterns cfg))%nat /\
    s == score text (script_detected r) cfg.
Proof.
  intros B I.
  destruct (detect_cases text B)
    as (scr & k & top & rest & lang & secondary & S & T & E & V & N & M & D).
  assert (P : (0 < length (common_words cfg) + 5 * length (patterns cfg))%nat).
  { table_entry language_max_positive I. }
  rewrite D. eexists. exists (score_language text (lower text) scr cfg).
  split; [reflexivity|].
  assert (A : forall (b : bool) (x y : LanguageDetectionResult),
             all_scores x = scores_of text scr -> script_detected x = scr ->
             all_scores y = scores_of text scr -> script_detected y = scr ->
             all_scores (if b then x else y) = scores_of text scr /\
             script_detected (if b then x else y) = scr)
    by (intros b x y ? ? ? ?; destruct b; auto).
  match goal with
  | |- context [if ?b then ?x else ?y] =>
    destruct (A b x y eq_refl eq_refl eq_refl eq_refl) as [-> ->]
  end.
  split; [|split; [exact S|split; [exact P|]]].
  - apply in_get.
    + rewrite language_keys_scores_of. exact language_keys_nodup.
    + unfold scores_of.
      exact (in_map (fun e => (value (fst e),
                               score_language text (lower text) scr (snd e)))
               _build_language_patterns (l, cfg) I).
  - apply score_language_spec. exact P.
Qed.

(** C7. When the primary language is not UNKNOWN, the secondary languages
    are the languages ranked 2nd to 4th by descending score whose score
    exceeds 0.1, hence at most three; [is_multilingual] holds exactly when
    there is a secondary language. *)
Theorem detect_secondary (text : str) :
  exists r,
    detect text = Ok r /\
    (primary_language r <> UNKNOWN ->
     exists ranking top,
       ranking_of (all_scores r) ranking /\
       hd_error ranking = Some (value (primary_language r), top) /\
       map value (secondary_languages r)
       = map fst (filter (fun x : str * Q => Qltb 0.1 (snd x))
                    (firstn 3 (skipn 1 ranking))) /\
       (length (secondary_languages r) <= 3)%nat) /\
    (is_multilingual r = true <-> secondary_languages r <> []).
Proof.
  destruct (blank text) eqn:B.
  - unfold detect, detect_with. rewrite B. eexists. split; [reflexivity|].
    simpl. split; [intro N; contradiction|].
    split; [discriminate | intro N; contradiction].
  - destruct (detect_cases text B)
      as (scr & k & top & rest & lang & secondary & S & T & E & V & N & M & D).
    rewrite D. eexists. split; [reflexivity|].
    destruct (Qltb 0 top); simpl.
    + split.
      * intros _. exists ((k, top) :: rest), top.
        split; [rewrite <- E; apply sorted_desc_ranking|].
        split; [simpl; now rewrite V|]. split; [exact M|].
        rewrite <- (length_map value), M, length_map.
        etransitivity; [apply filter_length_le|].
        apply firstn_le_length.
      * destruct secondary as [|l0 ls]; simpl.
        -- split; [discriminate | intro C; contradiction].
        -- split; [discriminate | reflexivity].
    + split; [intro C; contradiction|].
      split; [discriminate | intro C; contradiction].
Qed.

(** C10. On a text that is not blank, [script_detected] is one of the ten
    tags, never "unknown", and it is "latin" when no character of the text
    lies in one of the ten ranges. *)
Theorem detect_script_tag (text : str) :
  blank text = false ->
  exists r,
    detect text = Ok r /\
    In (script_detected r) script_tags /\
    script_detected r <> u "unknown" /\
    (Forall (fun c => in_some_range c = false) text ->
     script_detected r = u "latin").
Proof.
  intro B.
  destruct (detect_cases text B)
    as (scr & k & top & rest & lang & secondary & S & T & E & V & N & M & D).
  rewrite D. eexists. split; [reflexivity|].
  assert (A : forall (b : bool) (x y : LanguageDetectionResult),
             script_detected x = scr -> script_detected y = scr ->
             script_detected (if b then x else y) = scr)
    by (intros b x y ? ?; destruct b; auto).
  rewrite A by reflexivity.
  split; [exact T|]. split.
  - intro C. rewrite C in T. exact (unknown_not_tag T).
  - intro F. rewrite (detect_script_outside text F) in S. congruence.
Qed.

End WithUnicode.

(** C6 at "The quick brown fox jumps over the lazy dog." and ENGLISH. *)
Lemma detect_all_scores_witness :
  exists cfg,
    blank (U := basic_latin) (u "The quick brown fox jumps over the lazy dog.") = false /\
    In (ENGLISH, cfg) _build_language_patterns /\
    exists r s,
      detect (U := basic_latin) (u "The quick brown fox jumps over the lazy dog.") = Ok r /\
      get (all_scores r) (value ENGLISH) = Some s /\
      _detect_script (u "The quick brown fox jumps over the lazy dog.")
      = Ok (script_detected r) /\
      (0 < length (common_words cfg) + 5 * length (patterns cfg))%nat /\
      s == score (U := basic_latin) (u "The quick brown fox jumps over the lazy dog.")
             (script_detected r) cfg.
Proof.
  eexists. split; [reflexivity|]. split.
  - left. reflexivity.
  - apply (detect_all_scores (U := basic_latin)).
    + reflexivity.
    + left. reflexivity.
Defined.

(** C10 at a text with no character in any range (the euro sign). *)
Lemma detect_script_tag_witness :
  blank (U := basic_latin) [0x20AC%Z] = false /\
  exists r,
    detect (U := basic_latin) [0x20AC%Z] = Ok r /\
    In (script_detected r) script_tags /\
    script_detected r <> u "unknown" /\
    (Forall (fun c => in_some_range c = false) [0x20AC%Z] ->
     script_detected r = u "latin").
Proof.
  split; [reflexivity|].
  apply (detect_script_tag (U := basic_latin)). reflexivity.
Defined.

End DetectorFacts.

(** ** The matcher *)

Module ReFacts.
Import Py Re.

Lemma flat_map_head {A B} (f : A -> list B) (l : list A) (y : B) (ys : list B) :
  flat_map f l = y :: ys ->
  exists x ys', In x l /\ f x = y :: ys'.
Proof.
  induction l as [|a l IH]; simpl; [discriminate|].
  destruct (f a) as [|b bs] eqn:E; simpl.
  - intro H. destruct (IH H) as (x & ys' & I & F). exists x, ys'. auto.
  - intros [= <- <-]. exists a, bs. auto.
Qed.

Lemma filter_all {A} (l : list A) : filter (fun _ => true) l = l.
Proof. induction l as [|a l IH]; simpl; congruence. Qed.

Lemma consumed_app (val t : str) : consumed (val ++ t) t = val.
Proof.
  unfold consumed. rewrite length_app, Nat.add_sub.
  rewrite firstn_app, Nat.sub_diag, firstn_all. simpl. apply app_nil_r.
Qed.

Lemma group_set_cap (n : nat) (v : str) (cs : list (nat * str)) :
  group (set_cap n v cs) n = Some v.
Proof.
  induction cs as [|[m w] cs IH]; simpl.
  - now rewrite Nat.eqb_refl.
  - destruct (Nat.eqb m n) eqn:E; simpl; rewrite E; auto.
Qed.

Section WithUnicode.
Context {U : Unicode}.

Lemma run_eps (ic : bool) (l : list state) : flat_map (run ic Eps) l = l.
Proof.
  change (flat_map (fun st : state => [st]) l = l).
  induction l as [|a l IH]; simpl; congruence.
Qed.

(** A literal string consumes a prefix that compares equal to it, character
    by character, and captures nothing. *)
Lemma run_lit (ic : bool) (label : str) :
  forall st st1,
    In st1 (run ic (lit label) st) ->
    exists lab,
      rest st = (lab ++ rest st1)%list /\
      Forall2 (fun c p => in_cset ic (Lit p) c = true) lab label /\
      caps st1 = caps st.
Proof.
  induction label as [|p label IH]; intros st st1 I.
  - simpl in I. destruct I as [<-|[]]. exists []. repeat split. constructor.
  - change (lit (p :: label)) with (Cat (One (Lit p)) (lit label)) in I.
    cbn [run] in I. apply in_flat_map in I. destruct I as (st' & I1 & I2).
    destruct (rest st) as [|c t] eqn:R; [contradiction|].
    destruct (in_cset ic (Lit p) c) eqn:M; [|contradiction].
    destruct I1 as [<-|[]].
    destruct (IH _ _ I2) as (lab & E & F & C). simpl in E, C.
    exists (c :: lab). split; [simpl; congruence|]. split; [|exact C].
    now constructor.
Qed.

Lemma spans_cons (ic : bool) (cs : cset) (p : option char) (t : str) :
  spans ic cs p t = (p, t) :: tl (spans ic cs p t).
Proof. destruct t; reflexivity. Qed.

Lemma spans_in (ic : bool) (cs : cset) :
  forall t p p' t',
    In (p', t') (spans ic cs p t) ->
    exists sep, t = (sep ++ t')%list /\ Forall (fun c => in_cset ic cs c = true) sep.
Proof.
  induction t as [|c t IH]; intros p p' t' I; simpl in I.
  - destruct I as [[= <- <-]|[]]. exists []. auto.
  - destruct I as [[= <- <-]|I]; [exists []; auto|].
    destruct (in_cset ic cs c) eqn:M; [|contradiction].
    destruct (IH _ _ _ I) as (sep & -> & F).
    exists (c :: sep). auto.
Qed.

Lemma spans_tl_in (ic : bool) (cs : cset) (t : str) (p p' : option char) (t' : str) :
  In (p', t') (tl (spans ic cs p t)) ->
  exists sep,
    t = (sep ++ t')%list /\ sep <> [] /\ Forall (fun c => in_cset ic cs c = true) sep.
Proof.
  destruct t as [|c t]; simpl; [contradiction|].
  destruct (in_cset ic cs c) eqn:M; [|contradiction].
  intro I. destruct (spans_in _ _ _ _ _ _ I) as (sep & -> & F).
  exists (c :: sep). repeat split; [discriminate | auto].
Qed.

Lemma spans_tl_nil (ic : bool) (cs : cset) (p : option char) (t : str) :
  tl (spans ic cs p t) = [] ->
  t = [] \/ exists c t', t = c :: t' /\ in_cset ic cs c = false.
Proof.
  destruct t as [|c t]; simpl; [auto|].
  destruct (in_cset ic cs c) eqn:M.
  - rewrite spans_cons. discriminate.
  - intros _. right. eauto.
Qed.

(** Greedy repetition tries the longest run first: after it the text ends
    or goes on with a character outside the class. *)
Lemma spans_longest (ic : bool) (cs : cset) :
  forall t p p' t' more,
    rev (tl (spans ic cs p t)) = (p', t') :: more ->
    t' = [] \/ exists c t'', t' = c :: t'' /\ in_cset ic cs c = false.
Proof.
  induction t as [|c t IH]; intros p p' t' more E; simpl in E; [discriminate|].
  destruct (in_cset ic cs c) eqn:M; [|discriminate].
  rewrite spans_cons in E. simpl in E.
  destruct (rev (tl (spans ic cs (Some c) t))) as [|x xs] eqn:R.
  - simpl in E. injection E as _ <- _.
    apply (spans_tl_nil ic cs (Some c)).
    rewrite <- (rev_involutive (tl _)), R. reflexivity.
  - simpl in E. injection E as -> _. exact (IH _ _ _ _ R).
Qed.

(** The scan reports a match found at some position of the text. *)
Lemma search_from_here (ic : bool) (r : regex) :
  forall t p start m,
    search_from ic r p t start = Some m ->
    exists pre t' p' start',
      t = (pre ++ t')%list /\ match_here ic r false p' t' start' = Some m.
Proof.
  induction t as [|c t IH]; intros p start m S; simpl in S.
  - destruct (match_here ic r false p [] start) eqn:H; [|discriminate].
    injection S as <-. exists [], [], p, start. auto.
  - destruct (match_here ic r false p (c :: t) start) eqn:H.
    + injection S as <-. exists [], (c :: t), p, start. auto.
    + destruct (IH _ _ _ S) as (pre & t' & p' & start' & -> & H').
      exists (c :: pre), t', p', start'. auto.
Qed.

End WithUnicode.

End ReFacts.

(** ** The field extractor *)

Module ExtractorFacts.
Import Py Re FieldExtractor PyFacts ReFacts.
Import Spec Spec.Extractor.
Local Open Scope Q_scope.

Section WithUnicode.
Context {U : Unicode}.

Lemma run_cat (ic : bool) (r1 r2 : regex) (st : state) :
  run ic (Cat r1 r2) st = flat_map (run ic r2) (run ic r1 st).
Proof. reflexivity. Qed.

(** What a match of  label[\s:]+([^\n]+)  at the cursor looks like. *)
Lemma label_pattern_here (label : str) (p : option char) (t : str) (start : nat)
    (m : match_obj) :
  match_here true (label_pattern label) false p t start = Some m ->
  exists lab sep val post,
    t = (lab ++ sep ++ val ++ post)%list /\
    Forall2 (fun c p => in_cset true (Lit p) c = true) lab label /\
    sep <> [] /\ Forall (fun c => in_cset true (Or Space (Lit 58)) c = true) sep /\
    val <> [] /\ Forall (fun c => in_cset true (Not (Lit 10)) c = true) val /\
    (post = [] \/
     exists c post', post = c :: post' /\ in_cset true (Not (Lit 10)) c = false) /\
    group (m_groups m) 1 = Some val.
Proof.
  unfold match_here. cbn [negb orb]. rewrite filter_all.
  set (st0 := {| prev := p; rest := t; caps := [] |}).
  destruct (run true (label_pattern label) st0) as [|st3 more] eqn:R; [discriminate|].
  intros [= <-].
  unfold label_pattern, escape, seq in R. cbn [fold_right] in R.
  rewrite run_cat in R. apply flat_map_head in R.
  destruct R as (st1 & more1 & I1 & R1).
  rewrite run_cat in R1. apply flat_map_head in R1.
  destruct R1 as (st2 & more2 & I2 & R2).
  rewrite run_cat, run_eps in R2.
  destruct (run_lit _ _ _ _ I1) as (lab & E0 & F0 & _).
  cbn [run] in I2. apply in_map_iff in I2. destruct I2 as ([p1 t1] & <- & I2).
  apply in_rev in I2. apply spans_tl_in in I2.
  destruct I2 as (sep & E1 & N1 & F1).
  cbn [run] in R2. cbn [move fst snd rest prev caps] in R2.
  destruct (rev (tl (spans true (Not (Lit 10)) p1 t1))) as [|[p2 t2] more3] eqn:RV;
    [discriminate|].
  pose proof (spans_longest _ _ _ _ _ _ _ RV) as L.
  assert (I3 : In (p2, t2) (tl (spans true (Not (Lit 10)) p1 t1))).
  { apply in_rev. rewrite RV. now left. }
  apply spans_tl_in in I3. destruct I3 as (val & E2 & N2 & F2).
  cbn [map] in R2. injection R2 as <- _.
  exists lab, sep, val, t2.
  split.
  { change t with (rest st0). rewrite E0, E1, E2. reflexivity. }
  repeat (split; [assumption|]).
  unfold mk_match. cbn [m_groups caps move fst snd rest].
  rewrite group_set_cap. rewrite E2, consumed_app. reflexivity.
Qed.

(** A successful search for the pattern of a label finds the label, the
    separator and the value in the text, and captures the value. *)
Lemma label_pattern_search (label text : str) (m : match_obj) :
  search true (label_pattern label) text = Some m ->
  exists lab sep val,
    group (m_groups m) 1 = Some val /\ label_match label text lab sep val.
Proof.
  intro S. unfold search in S.
  destruct (search_from_here _ _ _ _ _ _ S) as (pre & t' & p' & start' & -> & H).
  destruct (label_pattern_here _ _ _ _ _ H)
    as (lab & sep & val & post & -> & F0 & N1 & F1 & N2 & F2 & L & G).
  exists lab, sep, val. split; [exact G|].
  exists pre, post. repeat (split; [assumption || reflexivity|]). exact L.
Qed.

Lemma first_hit_in (text : str) (ps : list regex) (m : match_obj) :
  first_hit text ps = Some m ->
  exists p, In p ps /\ search true p text = Some m.
Proof.
  induction ps as [|p ps IH]; simpl; [discriminate|].
  destruct (search true p text) eqn:S.
  - intros [= <-]. eauto.
  - intro H. destruct (IH H) as (q & I & Sq). eauto.
Qed.

(** The loop over the patterns stops at the first pattern that matches. *)
Lemma first_match_first_hit (text : str) (ps : list regex) :
  first_match text ps =
  match first_hit text ps with
  | Some m =>
    match group (m_groups m) 1 with
    | Some g => Ok (strip g)
    | None => Raise AttributeError
    end
  | None => Ok []
  end.
Proof.
  induction ps as [|p ps IH]; simpl; [reflexivity|].
  destruct (search true p text); [reflexivity | exact IH].
Qed.

(** [_extract_field] never raises. *)
Lemma extract_field_ok (text field : str) :
  exists v, _extract_field text field = Ok v.
Proof.
  unfold _extract_field. rewrite first_match_first_hit.
  destruct (first_hit text (field_patterns field)) as [m|] eqn:H; [|eauto].
  destruct (first_hit_in _ _ _ H) as (p & I & S).
  assert (L : exists label, p = label_pattern label).
  { unfold field_patterns in I. simpl in I.
    destruct I as [<-|[<-|[<-|[]]]]; eauto. }
  destruct L as (label & ->).
  destruct (label_pattern_search _ _ _ S) as (lab & sep & val & -> & _). eauto.
Qed.

Lemma hash_variation (h : Z) :
  0 <= inject_Z (h mod 15) / 100 /\ inject_Z (h mod 15) / 100 <= 0.14.
Proof.
  pose proof (Z.mod_pos_bound h 15 eq_refl) as B.
  assert (L : 0 <= inject_Z (h mod 15)) by (unfold Qle; simpl; lia).
  assert (R : inject_Z (h mod 15) <= 14) by (unfold Qle; simpl; lia).
  split.
  - apply Qle_shift_div_l; lra.
  - apply Qle_shift_div_r; lra.
Qed.

(** Every entry of the dictionary that [extract] returns is the result of
    the loop body for its key. *)
Lemma extract_loop_entries (text : str) (all_fields : list str) :
  forall acc res,
    (forall f r, get acc f = Some r -> extract_one text f = Ok r) ->
    extract_loop text all_fields acc = Ok res ->
    forall f r, get res f = Some r -> extract_one text f = Ok r.
Proof.
  induction all_fields as [|field rest IH]; intros acc res Inv E; simpl in E.
  - injection E as <-. exact Inv.
  - destruct (extract_one text field) as [r0|e] eqn:R; [|discriminate].
    cbn [bind] in E. refine (IH _ _ _ E). intros f r G.
    destruct (str_eqb field f) eqn:Q.
    + apply str_eqb_eq in Q. subst f. rewrite get_set_same in G. congruence.
    + apply str_eqb_neq in Q. rewrite get_set_other in G by exact Q. auto.
Qed.

Lemma extract_entries (self : FieldExtractor.FieldExtractor) (text : str)
    (enabled_fields custom_fields : option (list str)) (res : dict FieldResult) :
  extract self text enabled_fields custom_fields = Ok res ->
  forall f r, get res f = Some r -> extract_one text f = Ok r.
Proof.
  unfold extract. intro E. eapply extract_loop_entries; [|exact E].
  intros f r G. discriminate G.
Qed.

(** C8. The three patterns are, in this order, the pattern of the label as
    given, of the lower-cased label and of the label without spaces, each of
    the form  label[\s:]+([^\n]+) ; the first that matches gives the result,
    its captured value stripped; when none matches the value is "" and
    [found] is false. *)
Theorem extract_field_first_match (text field : str) :
  let labels := [field; lower field; remove_char 32%Z field] in
  field_patterns field = map label_pattern labels /\
  (forall label m,
     In label labels ->
     search true (label_pattern label) text = Some m ->
     exists lab sep val,
       group (m_groups m) 1 = Some val /\ label_match label text lab sep val) /\
  match first_hit text (map label_pattern labels) with
  | Some m =>
    exists val,
      group (m_groups m) 1 = Some val /\
      _extract_field text field = Ok (strip val)
  | None =>
    _extract_field text field = Ok [] /\
    extract_one text field
    = Ok {| value := []; confidence := 0.0; found := false |}
  end.
Proof.
  intro labels. split; [reflexivity|]. split.
  - intros label m _ S. exact (label_pattern_search _ _ _ S).
  - change (map label_pattern labels) with (field_patterns field).
    unfold extract_one, _extract_field. rewrite first_match_first_hit.
    destruct (first_hit text (field_patterns field)) as [m|] eqn:H.
    + destruct (first_hit_in _ _ _ H) as (p & I & S).
      assert (L : exists label, p = label_pattern label).
      { unfold field_patterns in I. simpl in I.
        destruct I as [<-|[<-|[<-|[]]]]; eauto. }
      destruct L as (label & ->).
      destruct (label_pattern_search _ _ _ S) as (lab & sep & val & G & _).
      exists val. rewrite G. auto.
    + split; reflexivity.
Qed.

(** C9. The confidence of the result for a field is
    0.85 + (stable_hash(field_name) mod 15)/100 when the field is found,
    which lies in [0.85, 1.0), and 0.0 when it is not found. *)
Theorem field_confidence (text field : str) (h : Z) :
  stable_hash field = Ok h ->
  exists r,
    extract_one text field = Ok r /\
    found r = truthy (value r) /\
    (found r = true ->
       confidence r == 0.85 + inject_Z (h mod 15) / 100 /\
       0.85 <= confidence r /\ confidence r < 1.0) /\
    (found r = false -> confidence r == 0.0).
Proof.
  intro H. unfold extract_one.
  destruct (extract_field_ok text field) as (v & ->). cbn [bind].
  unfold _calculate_confidence.
  destruct (truthy v) eqn:T; cbn [negb].
  - rewrite H. cbn [bind]. eexists. split; [reflexivity|].
    cbn [found value confidence]. split; [auto|]. split; [|discriminate].
    intros _. destruct (hash_variation h) as [L R].
    rewrite min_spec.
    rewrite Q.min_r by lra. split; [reflexivity|]. split; lra.
  - eexists. split; [reflexivity|].
    cbn [found value confidence]. split; [auto|]. split; [discriminate|].
    intros _. reflexivity.
Qed.

End WithUnicode.

(** C9 at the field "Invoice Number" in the text "Invoice Number: INV-001". *)
Lemma field_confidence_witness :
  stable_hash (u "Invoice Number") = Ok 1309039521%Z /\
  exists r,
    extract_one (U := basic_latin) (u "Invoice Number: INV-001") (u "Invoice Number")
    = Ok r /\
    found r = truthy (value r) /\
    (found r = true ->
       confidence r == 0.85 + inject_Z (1309039521 mod 15) / 100 /\
       0.85 <= confidence r /\ confidence r < 1.0) /\
    (found r = false -> confidence r == 0.0).
Proof.
  split; [vm_compute; reflexivity|].
  apply (field_confidence (U := basic_latin)). vm_compute. reflexivity.
Defined.

End ExtractorFacts.

(** ** The functions on concrete texts *)

Module Examples.
Import Py Re.
Local Open Scope Q_scope.

(** The test vectors of RFC 1321. *)
Example md5_empty :
  MD5.hexdigest [] = u "d41d8cd98f00b204e9800998ecf8427e".
Proof. vm_compute. reflexivity. Qed.

Example md5_abc :
  Py.bind (encode (u "abc")) (fun b => Ok (MD5.hexdigest b))
  = Ok (u "900150983cd24fb0d6963f7d28e17f72").
Proof. vm_compute. reflexivity. Qed.

Example md5_message_digest :
  Py.bind (encode (u "message digest")) (fun b => Ok (MD5.hexdigest b))
  = Ok (u "f96b697d7cb7938d525a2f31aaf161d0").
Proof. vm_compute. reflexivity. Qed.

(** A digest over two blocks. *)
Example md5_two_blocks :
  MD5.hexdigest (repeat 97%Z 70) = u "0f5c6c4e740bfcc08c3c26ccb2673d46".
Proof. vm_compute. reflexivity. Qed.

(** An invoice is recognised: three keywords and two patterns of INVOICE. *)
Example classify_invoice :
  exists r,
    DocumentClassifier.classify (U := basic_latin)
      (u "Invoice Number: INV-001" ++ [10%Z] ++ u "Total Due: $500.00") = Ok r /\
    DocumentClassifier.document_type r = DocumentClassifier.INVOICE /\
    DocumentClassifier.confidence r == 0.56 /\
    DocumentClassifier.keywords_found r
    = [u "invoice"; u "invoice number"; u "total due"].
Proof. eexists. split; [vm_compute; reflexivity|]. repeat split. Qed.

(** "tax" is a keyword of three types; the best score, 1/19 for
    TAX_DOCUMENT, is below the threshold. *)
Example classify_below_threshold :
  exists r s,
    DocumentClassifier.classify (U := basic_latin) (u "tax") = Ok r /\
    DocumentClassifier.document_type r = DocumentClassifier.UNKNOWN /\
    get (DocumentClassifier.all_scores r) (u "tax_document") = Some s /\
    s == 1 # 19.
Proof. eexists. eexists. split; [vm_compute; reflexivity|]. repeat split. Qed.

Example detect_english :
  exists r,
    LanguageDetector.detect (U := basic_latin)
      (u "The quick brown fox jumps over the lazy dog.") = Ok r /\
    LanguageDetector.primary_language r = LanguageDetector.ENGLISH /\
    LanguageDetector.script_detected r = u "latin" /\
    LanguageDetector.confidence r == 0.24 /\
    LanguageDetector.secondary_languages r = [].
Proof. eexists. split; [vm_compute; reflexivity|]. repeat split. Qed.

(** Four languages score on these words; the three after the first are the
    secondary languages, in the order of their scores. *)
Example detect_multilingual :
  exists r,
    LanguageDetector.detect (U := basic_latin)
      (u "the de la que het een van is and") = Ok r /\
    LanguageDetector.primary_language r = LanguageDetector.DUTCH /\
    LanguageDetector.secondary_languages r
    = [LanguageDetector.ENGLISH; LanguageDetector.SPANISH; LanguageDetector.FRENCH] /\
    LanguageDetector.is_multilingual r = true.
Proof. eexists. split; [vm_compute; reflexivity|]. repeat split. Qed.

Example extract_invoice_number :
  FieldExtractor._extract_field (U := basic_latin)
    (u "Invoice Number: INV-2024-001") (u "Invoice Number")
  = Ok (u "INV-2024-001").
Proof. vm_compute. reflexivity. Qed.

(** The separator may run over a line break: the value is on the next line. *)
Example extract_next_line :
  FieldExtractor._extract_field (U := basic_latin)
    (u "Total:" ++ [10%Z] ++ u "  42 EUR  " ++ [10%Z] ++ u "end") (u "Total")
  = Ok (u "42 EUR").
Proof. vm_compute. reflexivity. Qed.

(** A pattern can match and capture white space only: the value is "" and
    the field counts as not found. *)
Example extract_blank_value :
  FieldExtractor.extract_one (U := basic_latin) (u "Total:   ") (u "Total")
  = Ok {| FieldExtractor.value := []; FieldExtractor.confidence := 0.0;
          FieldExtractor.found := false |}.
Proof. vm_compute. reflexivity. Qed.

(** A field name with a lone surrogate has no UTF-8 encoding: when it is
    found, the hash raises. *)
Example extract_surrogate_raises :
  FieldExtractor.extract_one (U := basic_latin) [0xD800; 58; 65]%Z [0xD800]%Z
  = Raise UnicodeEncodeError.
Proof. vm_compute. reflexivity. Qed.

End Examples.

(** ** Double precision and the rational model agree *)

Module Binary64Facts.
Import Py Re PyFacts.
Import DocumentClassifier.
Local Open Scope Q_scope.

Lemma Qltb_compat (x x' y y' : Q) : x == x' -> y == y' -> Qltb x y = Qltb x' y'.
Proof.
  intros Ex Ey. destruct (Qltb x' y') eqn:L.
  - apply Qltb_lt. apply Qltb_lt in L. lra.
  - apply Qltb_ge. apply Qltb_ge in L. lra.
Qed.

(** *** The checks over the attainable scores, by computation *)

Lemma attainable_order :
  forallb (fun a : Binary64.float * Q =>
             forallb (fun b : Binary64.float * Q =>
                        Bool.eqb (Binary64.ltb (fst a) (fst b)) (Qltb (snd a) (snd b)))
               Binary64.attainable)
    Binary64.attainable = true.
Proof. vm_compute. reflexivity. Qed.

Lemma attainable_threshold :
  forallb (fun a : Binary64.float * Q =>
             Bool.eqb (Binary64.ltb (fst a) (Binary64.literal 0.1)) (Qltb (snd a) 0.1))
    Binary64.attainable = true.
Proof. vm_compute. reflexivity. Qed.

Lemma attainable_confidence :
  forallb (fun a : Binary64.float * Q =>
             Binary64.ltb (fst a) (Binary64.literal 0.1)
             || (let c := Binary64.min (Binary64.mul (fst a) (Binary64.of_int 2))
                            (Binary64.literal 1.0) in
                 Binary64.ltb (Binary64.of_int 0) c
                 && Binary64.leb c (Binary64.of_int 1)))
    Binary64.attainable = true.
Proof. vm_compute. reflexivity. Qed.

Lemma attainable_in (d : DocumentType) (cfg : Config) (k p : nat) :
  In (d, cfg) _build_patterns ->
  (k <= length (keywords cfg))%nat -> (p <= length (patterns cfg))%nat ->
  In (Binary64.normalized cfg k p, Binary64.normalized_Q cfg k p) Binary64.attainable.
Proof.
  intros I Hk Hp. unfold Binary64.attainable.
  apply in_flat_map. exists (d, cfg). split; [exact I|].
  cbn [snd].
  apply in_flat_map. exists k. split; [apply in_seq; lia|].
  apply in_map_iff. exists p. split; [reflexivity | apply in_seq; lia].
Qed.

(** *** [max] with keys that compare alike *)

Lemma max_by_agree {A KA KB} (ltA : KA -> KA -> bool) (ltB : KB -> KB -> bool)
    (keyA : A -> KA) (keyB : A -> KB) (l : list A) :
  (forall x y, In x l -> In y l -> ltA (keyA x) (keyA y) = ltB (keyB x) (keyB y)) ->
  max_by ltA keyA l = max_by ltB keyB l.
Proof.
  intro H. destruct l as [|x t]; [reflexivity|]. simpl. f_equal.
  assert (G : forall t' best,
             In best (x :: t) -> incl t' (x :: t) ->
             fold_left (fun best y => if ltA (keyA best) (keyA y) then y else best) t' best
             = fold_left (fun best y => if ltB (keyB best) (keyB y) then y else best) t' best).
  { induction t' as [|y t' IH]; intros best Ib It; simpl; [reflexivity|].
    assert (Iy : In y (x :: t)) by (apply It; now left).
    rewrite (H best y Ib Iy).
    apply IH.
    - destruct (ltB (keyB best) (keyB y)); assumption.
    - intros z Iz. apply It. now right. }
  apply G; [now left | intros z Iz; now right].
Qed.

Section WithUnicode.
Context {U : Unicode}.

(** *** The loops in double precision *)

Lemma keywords64_fold (tl : str) (kws : list str) :
  forall (score : Binary64.float) (found : list str),
    fold_left
      (fun (acc : Binary64.float * list str) keyword =>
         let '(score, found_keywords) := acc in
         if contains (lower keyword) tl
         then (Binary64.add score (Binary64.literal 1.0),
               (found_keywords ++ [keyword])%list)
         else acc) kws (score, found)
    = (Nat.iter (length (filter (fun k => contains (lower k) tl) kws))
         (fun s => Binary64.add s (Binary64.literal 1.0)) score,
       (found ++ filter (fun k => contains (lower k) tl) kws)%list).
Proof.
  induction kws as [|k kws IH]; intros score found; simpl.
  - now rewrite app_nil_r.
  - destruct (contains (lower k) tl).
    + rewrite IH. cbn [filter length]. rewrite Nat.iter_succ_r, <- app_assoc.
      reflexivity.
    + apply IH.
Qed.

Lemma patterns64_fold (tl : str) (pats : list regex) :
  forall score : Binary64.float,
    Binary64.score_patterns tl pats score
    = Nat.iter (length (filter (fun p => Spec.matches false p tl) pats))
        (fun s => Binary64.add s (Binary64.literal 2.0)) score.
Proof.
  unfold Binary64.score_patterns, Spec.matches.
  induction pats as [|p pats IH]; intro score; simpl; [reflexivity|].
  destruct (search false p tl).
  - rewrite IH. cbn [length]. now rewrite Nat.iter_succ_r.
  - apply IH.
Qed.

Lemma score_type64 (text : str) (cfg : Config) :
  Binary64.score_type (lower text) cfg
  = (Binary64.normalized cfg (Spec.Classifier.keyword_hits text cfg)
       (Spec.Classifier.pattern_hits text cfg),
     filter (fun k => contains (lower k) (lower text)) (keywords cfg)).
Proof.
  unfold Binary64.score_type, Binary64.score_keywords.
  rewrite keywords64_fold, patterns64_fold. reflexivity.
Qed.

Lemma score_type_found (text : str) (cfg : Config) :
  snd (DocumentClassifier.score_type (lower text) cfg)
  = filter (fun k => contains (lower k) (lower text)) (keywords cfg).
Proof.
  unfold DocumentClassifier.score_type, DocumentClassifier.score_keywords.
  destruct (ClassifierFacts.score_keywords_fold (lower text) (keywords cfg) 0.0 [])
    as [_ E].
  cbv zeta in E.
  destruct (fold_left _ (keywords cfg) (0.0, [])) as [score found].
  exact E.
Qed.

(** The dictionary of scores in double precision. *)
Lemma score_all64 (text : str) :
  Binary64.score_all _build_patterns (lower text)
  = (map (fun e => (value (fst e),
                    Binary64.normalized (snd e)
                      (Spec.Classifier.keyword_hits text (snd e))
                      (Spec.Classifier.pattern_hits text (snd e))))
       _build_patterns,
     found_of text).
Proof.
  unfold Binary64.score_all.
  transitivity
    (fold_left (fun d e => set d (value (fst e))
                             (fst (Binary64.score_type (lower text) (snd e))))
       _build_patterns [],
     fold_left (fun d e => set d (value (fst e))
                             (snd (Binary64.score_type (lower text) (snd e))))
       _build_patterns []).
  - generalize (@nil (str * Binary64.float)) (@nil (str * list str)).
    generalize _build_patterns.
    induction l as [|[d cfg] l IH]; intros a b; simpl; [reflexivity|].
    destruct (Binary64.score_type (lower text) cfg) as [n f]. apply IH.
  - f_equal.
    + rewrite (fold_set_fresh (fun e => value (fst e))
                 (fun e => fst (Binary64.score_type (lower text) (snd e)))
                 _build_patterns [] ClassifierFacts.table_keys_nodup).
      apply map_ext. intros [d cfg]. now rewrite score_type64.
    + rewrite (fold_set_fresh (fun e => value (fst e))
                 (fun e => snd (Binary64.score_type (lower text) (snd e)))
                 _build_patterns [] ClassifierFacts.table_keys_nodup).
      unfold found_of. apply map_ext. intros [d cfg]. simpl.
      now rewrite score_type64, score_type_found.
Qed.

(** Each key of the two dictionaries holds one attainable pair. *)
Lemma scores_attainable (text : str) (k : str) :
  In k (map value Spec.Classifier.declared_order) ->
  exists a,
    In a Binary64.attainable /\
    get (fst (Binary64.score_all _build_patterns (lower text))) k = Some (fst a) /\
    exists s, get (scores_of text) k = Some s /\ s == snd a.
Proof.
  intro I. rewrite <- ClassifierFacts.table_order, map_map in I.
  apply in_map_iff in I. destruct I as ([d cfg] & <- & I). cbn [fst snd].
  exists (Binary64.normalized cfg (Spec.Classifier.keyword_hits text cfg)
            (Spec.Classifier.pattern_hits text cfg),
          Binary64.normalized_Q cfg (Spec.Classifier.keyword_hits text cfg)
            (Spec.Classifier.pattern_hits text cfg)).
  split; [|split].
  - apply (attainable_in d); [exact I | apply filter_length_le ..].
  - rewrite score_all64. cbn [fst]. apply in_get.
    + unfold keys. rewrite map_map. exact ClassifierFacts.table_keys_nodup.
    + exact (in_map (fun e => (value (fst e),
                               Binary64.normalized (snd e)
                                 (Spec.Classifier.keyword_hits text (snd e))
                                 (Spec.Classifier.pattern_hits text (snd e))))
               _build_patterns (d, cfg) I).
  - exists (fst (DocumentClassifier.score_type (lower text) cfg)). split.
    + apply in_get.
      * rewrite ClassifierFacts.keys_scores_of. exact ClassifierFacts.table_keys_nodup.
      * exact (in_map (fun e => (value (fst e),
                                 fst (DocumentClassifier.score_type (lower text) (snd e))))
                 _build_patterns (d, cfg) I).
    + cbn [snd]. rewrite ClassifierFacts.score_type_normalized.
      * reflexivity.
      * table_entry ClassifierFacts.table_max_positive I.
Qed.

(** The classifier in double precision never raises, returns the type and
    the keywords of the rational model, and its confidence lies in [0,1]
    and is zero exactly for UNKNOWN. *)
Theorem classify_binary64 (text : str) :
  exists r q,
    Binary64.classify text = Ok r /\
    DocumentClassifier.classify text = Ok q /\
    Binary64.document_type r = DocumentClassifier.document_type q /\
    Binary64.keywords_found r = DocumentClassifier.keywords_found q /\
    keys (Binary64.all_scores r) = keys (DocumentClassifier.all_scores q) /\
    Binary64.leb (Binary64.of_int 0) (Binary64.confidence r) = true /\
    Binary64.leb (Binary64.confidence r) (Binary64.of_int 1) = true /\
    (Binary64.document_type r = UNKNOWN
     <-> Binary64.confidence r = Binary64.literal 0.0).
Proof.
  destruct (ClassifierFacts.classify_cases text) as (k & s & d & FH & Id & Ed & Nd & C).
  assert (keysQ := ClassifierFacts.keys_scores_of text).
  assert (NDQ : NoDup (keys (scores_of text))).
  { rewrite keysQ. exact ClassifierFacts.table_keys_nodup. }
  unfold Binary64.classify.
  destruct (Binary64.score_all _build_patterns (lower text)) as [s64 f64] eqn:SA.
  assert (E64 := score_all64 text). rewrite SA in E64. injection E64 as Es Ef.
  assert (keys64 : keys s64 = keys (scores_of text)).
  { rewrite Es. unfold keys, scores_of. now rewrite !map_map. }
  assert (AT : forall k', In k' (keys (scores_of text)) ->
                 exists a, In a Binary64.attainable /\
                           get s64 k' = Some (fst a) /\
                           exists s', get (scores_of text) k' = Some s' /\ s' == snd a).
  { intros k' I'. rewrite keysQ in I'.
    destruct (scores_attainable text k' I') as (a & Ia & G & R).
    rewrite SA in G. eauto. }
  (* the maximum is reached at the same key *)
  assert (M : max_by Binary64.ltb (Binary64.scores_get s64) (keys s64)
              = max_by Qltb (DocumentClassifier.scores_get (scores_of text))
                  (keys (scores_of text))).
  { rewrite keys64. apply max_by_agree. intros x y Ix Iy.
    destruct (AT x Ix) as (a & Ia & Ga & sa & Qa & Ea).
    destruct (AT y Iy) as (b & Ib & Gb & sb & Qb & Eb).
    unfold Binary64.scores_get, DocumentClassifier.scores_get.
    rewrite Ga, Gb, Qa, Qb.
    rewrite (Qltb_compat _ _ _ _ Ea Eb).
    pose proof attainable_order as O. rewrite forallb_forall in O.
    specialize (O a Ia). rewrite forallb_forall in O.
    apply eqb_prop. exact (O b Ib). }
  assert (Ik : In k (keys (scores_of text))).
  { rewrite keysQ, <- Ed. now apply in_map. }
  assert (MQ : max_by Qltb (DocumentClassifier.scores_get (scores_of text))
                 (keys (scores_of text)) = Some k).
  { destruct (max_by_some Qltb (DocumentClassifier.scores_get (scores_of text))
                (keys (scores_of text))) as [k' Mk'];
      [rewrite keysQ; discriminate|].
    destruct (max_by_first_highest _ _ NDQ Mk') as (s' & _ & FH').
    rewrite Mk'. f_equal. exact (first_highest_unique _ _ _ _ _ FH' FH). }
  assert (T64 : truthy s64 = true).
  { destruct s64; [rewrite keysQ in keys64; discriminate keys64 | reflexivity]. }
  unfold Binary64.best_match. rewrite T64, M, MQ.
  destruct (AT k Ik) as (a & Ia & Ga & sa & Qa & Ea).
  rewrite Ga.
  assert (Gs : get (scores_of text) k = Some s).
  { destruct FH as (b1 & a1 & E1 & _). rewrite E1. apply get_middle.
    now rewrite <- E1. }
  rewrite Gs in Qa. injection Qa as <-.
  pose proof attainable_threshold as T. rewrite forallb_forall in T.
  specialize (T a Ia). apply eqb_prop in T.
  rewrite <- (Qltb_compat _ _ _ _ Ea (Qeq_refl 0.1)) in T.
  rewrite T, C.
  pose proof attainable_confidence as Cf. rewrite forallb_forall in Cf.
  specialize (Cf a Ia). rewrite T in Cf.
  destruct (Qltb s 0.1) eqn:L.
  - eexists. eexists. split; [reflexivity|]. split; [reflexivity|]. cbn.
    repeat split; try assumption.
  - rewrite <- Ed, ClassifierFacts.of_value_value. cbn [bind].
    eexists. eexists. split; [reflexivity|]. split; [reflexivity|].
    cbn [Binary64.document_type Binary64.keywords_found Binary64.all_scores
         Binary64.confidence DocumentClassifier.document_type
         DocumentClassifier.keywords_found DocumentClassifier.all_scores].
    cbn [orb] in Cf. apply andb_true_iff in Cf. destruct Cf as [Cp Cl].
    split; [reflexivity|]. split; [now rewrite Ef, Ed|]. split; [exact keys64|].
    set (c := Binary64.min _ _) in *.
    assert (P0 : Binary64.leb (Binary64.of_int 0) c = true).
    { revert Cp. unfold Binary64.ltb, Binary64.leb, SFltb, SFleb.
      destruct (SFcompare _ c) as [[]|]; intro; congruence. }
    split; [exact P0|]. split; [exact Cl|].
    split; [intro; contradiction|].
    intro Z0. rewrite Z0 in Cp. vm_compute in Cp. discriminate.
Qed.

End WithUnicode.

(** The confidence of a field in double precision: for each of the fifteen
    residues the sum 0.85 + r/100 is below 1.0, so [min] returns the sum,
    and it is at least 0.85. *)
Theorem field_confidence_binary64 (field_name value : str) (h : Z) :
  FieldExtractor.stable_hash field_name = Ok h ->
  exists c,
    Binary64._calculate_confidence field_name value = Ok c /\
    (truthy value = true ->
       c = Binary64.add (Binary64.literal 0.85)
             (Binary64.div (Binary64.of_int (h mod 15)) (Binary64.of_int 100)) /\
       Binary64.leb (Binary64.literal 0.85) c = true /\
       Binary64.ltb c (Binary64.literal 1.0) = true) /\
    (truthy value = false -> c = Binary64.literal 0.0).
Proof.
  intro H. unfold Binary64._calculate_confidence.
  destruct (truthy value); cbn [negb].
  - rewrite H. cbn [bind]. eexists. split; [reflexivity|].
    split; [|discriminate]. intros _.
    pose proof (Z.mod_pos_bound h 15 eq_refl) as B.
    assert (R : In (h mod 15) (map Z.of_nat (List.seq 0 15))).
    { apply in_map_iff. exists (Z.to_nat (h mod 15)).
      split; [lia | apply in_seq; lia]. }
    revert R. generalize (h mod 15). intros z R.
    assert (A : forallb
                  (fun z =>
                     let s := Binary64.add (Binary64.literal 0.85)
                                (Binary64.div (Binary64.of_int z) (Binary64.of_int 100)) in
                     Binary64.ltb s (Binary64.literal 1.0)
                     && Binary64.leb (Binary64.literal 0.85) s)
                  (map Z.of_nat (List.seq 0 15)) = true)
      by (vm_compute; reflexivity).
    rewrite forallb_forall in A. specialize (A z R). cbv zeta in A.
    apply andb_true_iff in A. destruct A as [A1 A2].
    unfold Binary64.min. rewrite A1. auto.
  - eexists. split; [reflexivity|]. split; [discriminate | reflexivity].
Qed.

(** An instance: the field "Invoice Number", whose hash is 6 modulo 15. *)
Lemma field_confidence_binary64_witness :
  FieldExtractor.stable_hash (u "Invoice Number") = Ok 1309039521%Z /\
  exists c,
    Binary64._calculate_confidence (u "Invoice Number") (u "INV-001") = Ok c /\
    (truthy (u "INV-001") = true ->
       c = Binary64.add (Binary64.literal 0.85)
             (Binary64.div (Binary64.of_int (1309039521 mod 15)) (Binary64.of_int 100)) /\
       Binary64.leb (Binary64.literal 0.85) c = true /\
       Binary64.ltb c (Binary64.literal 1.0) = true) /\
    (truthy (u "INV-001") = false -> c = Binary64.literal 0.0).
Proof.
  split; [vm_compute; reflexivity|].
  apply field_confidence_binary64. vm_compute. reflexivity.
Defined.

End Binary64Facts.

(** ** Routing and the supported types *)

Module RoutingFacts.
Import Py DocumentClassifier Routing PyFacts Notions.
Import Spec Spec.Classifier.
Local Open Scope Q_scope.

Lemma value_injective (a b : DocumentType) : value a = value b -> a = b.
Proof.
  intro E. pose proof (ClassifierFacts.of_value_value a) as A.
  rewrite E, ClassifierFacts.of_value_value in A. congruence.
Qed.

Lemma table_entry_of (d : DocumentType) :
  In d declared_order -> exists cfg, In (d, cfg) _build_patterns.
Proof.
  rewrite <- ClassifierFacts.table_order. intro I.
  apply in_map_iff in I. destruct I as ([d' cfg] & E & I). simpl in E. subst.
  eauto.
Qed.

Lemma weights_in_unit :
  Forall (fun e => 0 <= weight (snd e) /\ weight (snd e) <= 1) _build_patterns.
Proof. repeat (constructor; [simpl; lra|]). constructor. Qed.

Section WithUnicode.
Context {U : Unicode}.

(** X1. [classify_with_routing] never raises and returns the result of
    [classify]; the schema is the name of the type for the six routed types
    and "general" for every other type, so a text below the threshold goes
    to "general". *)
Theorem routing_schema (text : str) :
  exists r schema,
    classify_with_routing text = Ok (r, schema) /\
    classify text = Ok r /\
    schema = (if existsb (DocumentType_eqb (document_type r)) routed_types
              then value (document_type r) else u "general") /\
    (forall best, highest (all_scores r) best -> best < 0.1 -> schema = u "general").
Proof.
  destruct (ClassifierFacts.classify_cases text)
    as (k & s & d & FH & Id & Ed & Nd & C).
  unfold classify_with_routing. rewrite C. cbn [bind].
  eexists. eexists. split; [reflexivity|]. split; [reflexivity|].
  pose proof (first_highest_highest _ _ _ FH) as H.
  destruct (Qltb s 0.1) eqn:L; cbn [document_type all_scores].
  - split; [reflexivity|]. intros _ _ _. reflexivity.
  - apply Qltb_ge in L. split.
    + destruct d; reflexivity.
    + intros best Hb Lb. pose proof (highest_unique _ _ _ H Hb). lra.
Qed.

(** X2. The supported types are the keys of [all_scores], for every text, in the
    same order; each of them names a member that has a configuration, and
    "unknown" is not one of them. *)
Theorem supported_types_are_scored (text : str) :
  exists r,
    classify text = Ok r /\
    keys (all_scores r) = get_supported_types /\
    Forall (fun v => exists d cfg,
                of_value v = Ok d /\ value d = v /\ In (d, cfg) _build_patterns)
      get_supported_types /\
    ~ In (value UNKNOWN) get_supported_types.
Proof.
  destruct (ClassifierFacts.classify_cases text)
    as (k & s & d & FH & Id & Ed & Nd & C).
  rewrite C. eexists. split; [reflexivity|]. split; [|split].
  - destruct (Qltb s 0.1); reflexivity.
  - change get_supported_types with (map value declared_order).
    apply Forall_forall. intros v I. apply in_map_iff in I.
    destruct I as (d' & <- & I). destruct (table_entry_of d' I) as (cfg & Ic).
    exists d', cfg. split; [apply ClassifierFacts.of_value_value|]. auto.
  - change get_supported_types with (map value declared_order).
    intro I. apply in_map_iff in I. destruct I as (d' & E & I).
    apply value_injective in E. subst. simpl in I. intuition discriminate.
Qed.

(** X3. Every score of [all_scores] lies in [0,1]. *)
Theorem classify_scores_in_unit (text : str) :
  exists r,
    classify text = Ok r /\
    Forall (fun kv => 0 <= snd kv /\ snd kv <= 1) (all_scores r).
Proof.
  destruct (ClassifierFacts.classify_cases text)
    as (k & s & d & FH & Id & Ed & Nd & C).
  rewrite C. eexists. split; [reflexivity|].
  assert (A : forall (b : bool) (x y : ClassificationResult),
             all_scores x = scores_of text -> all_scores y = scores_of text ->
             all_scores (if b then x else y) = scores_of text)
    by (intros b x y Hx Hy; destruct b; assumption).
  rewrite A by reflexivity.
  unfold scores_of. apply Forall_map, Forall_forall. intros [d0 cfg] I.
  cbn [fst snd].
  assert (P : (0 < max_attainable cfg)%nat)
    by (table_entry ClassifierFacts.table_max_positive I).
  assert (W : 0 <= weight cfg /\ weight cfg <= 1)
    by (table_entry weights_in_unit I).
  rewrite (ClassifierFacts.score_type_normalized text cfg P).
  unfold normalized.
  set (n := (keyword_hits text cfg + 2 * pattern_hits text cfg)%nat).
  assert (B : (n <= max_attainable cfg)%nat).
  { unfold n, max_attainable, keyword_hits, pattern_hits.
    pose proof (filter_length_le (fun k => contains (lower k) (lower text)) (keywords cfg)).
    pose proof (filter_length_le (fun p => matches false p (lower text)) (patterns cfg)).
    lia. }
  assert (Hn : 0 <= inject_Z (Z.of_nat n)) by (unfold Qle; simpl; lia).
  assert (Hm : 0 < inject_Z (Z.of_nat (max_attainable cfg)))
    by (unfold Qlt; simpl; lia).
  assert (Hnm : inject_Z (Z.of_nat n) <= inject_Z (Z.of_nat (max_attainable cfg)))
    by (unfold Qle; simpl; lia).
  split.
  - apply Qle_shift_div_l; [exact Hm|]. nra.
  - apply Qle_shift_div_r; [exact Hm|]. nra.
Qed.

(** X4. When the type is not UNKNOWN, [keywords_found] lists the keywords of
    that type that occur in the lower-cased text, in the order of the table. *)
Theorem classify_keywords_found (text : str) :
  exists r,
    classify text = Ok r /\
    (document_type r <> UNKNOWN ->
     exists cfg,
       In (document_type r, cfg) _build_patterns /\
       keywords_found r
       = filter (fun k => contains (lower k) (lower text)) (keywords cfg)).
Proof.
  destruct (ClassifierFacts.classify_cases text)
    as (k & s & d & FH & Id & Ed & Nd & C).
  rewrite C. eexists. split; [reflexivity|].
  destruct (Qltb s 0.1); cbn [document_type keywords_found].
  - intro N. contradiction.
  - intros _. destruct (table_entry_of d Id) as (cfg & Ic).
    exists cfg. split; [exact Ic|].
    assert (G : get (found_of text) k
                = Some (snd (score_type (lower text) cfg))).
    { apply in_get.
      - unfold found_of, keys. rewrite map_map. exact ClassifierFacts.table_keys_nodup.
      - rewrite <- Ed. unfold found_of.
        exact (in_map (fun e => (value (fst e), snd (score_type (lower text) (snd e))))
                 _build_patterns (d, cfg) Ic). }
    rewrite G. apply Binary64Facts.score_type_found.
Qed.

End WithUnicode.

End RoutingFacts.

(** ** More on the language detector *)

Module DetectorMoreFacts.
Import Py LanguageDetector PyFacts SortFacts Notions.
Import Spec Spec.Detector.
Local Open Scope Q_scope.

Lemma language_value_injective (a b : Language) : value a = value b -> a = b.
Proof.
  intro E. pose proof (DetectorFacts.language_of_value a) as A.
  rewrite E, DetectorFacts.language_of_value in A. congruence.
Qed.

Lemma nodup_map_filter {X Y} (key : X -> Y) (keep : X -> bool) (xs : list X)
    (N : NoDup (map key xs)) :
  NoDup (map key (filter keep xs)).
Proof.
  induction xs as [|x xs IH]; simpl; [constructor|].
  inversion N as [|? ? Nx Nxs]; subst.
  destruct (keep x); simpl; [constructor|]; auto.
  intro I. apply Nx. apply in_map_iff in I. destruct I as (y & E & I).
  apply filter_In in I. apply in_map_iff. exists y. tauto.
Qed.

Lemma in_firstn {A} (n : nat) (l : list A) (x : A) : In x (firstn n l) -> In x l.
Proof.
  intro I. rewrite <- (firstn_skipn n l). apply in_or_app. now left.
Qed.

Lemma nodup_map_firstn {A B} (f : A -> B) (n : nat) (l : list A) :
  NoDup (map f l) -> NoDup (map f (firstn n l)).
Proof.
  revert n. induction l as [|a l IH]; intros [|n] N; simpl; try constructor.
  - inversion N as [|? ? Na Nl]; subst. intro I. apply Na.
    apply in_map_iff in I. destruct I as (x & E & I).
    apply in_map_iff. exists x. split; [exact E|]. eapply in_firstn; eauto.
  - inversion N; subst. auto.
Qed.

Section WithUnicode.
Context {U : Unicode}.

(** What [detect] returns on a text that is not blank, with the ranking
    spelled out. *)
Lemma detect_ranking (text : str) :
  blank text = false ->
  exists scr k top rest lang secondary,
    sorted_desc (fun x : str * Q => snd x) (scores_of text scr) = (k, top) :: rest /\
    NoDup (k :: map fst rest) /\
    Forall (fun x => In x (scores_of text scr) /\ snd x <= top) rest /\
    In (k, top) (scores_of text scr) /\
    In lang declared_order /\
    value lang = k /\
    map value secondary
    = map fst (filter (fun x : str * Q => Qltb 0.1 (snd x)) (firstn 3 rest)) /\
    detect text =
    Ok (if Qltb 0 top
        then {| primary_language := lang; confidence := min (top * 2) 1.0;
                all_scores := scores_of text scr; script_detected := scr;
                is_multilingual := (0 <? length secondary)%nat;
                secondary_languages := secondary |}
        else {| primary_language := UNKNOWN; confidence := 0.0;
                all_scores := scores_of text scr; script_detected := scr;
                is_multilingual := false; secondary_languages := [] |}).
Proof.
  intro B.
  destruct (DetectorFacts.detect_cases text B)
    as (scr & k & top & rest & lang & secondary & _ & _ & S & El & _ & Es & D).
  exists scr, k, top, rest, lang, secondary.
  pose proof (sorted_desc_perm (fun x : str * Q => snd x) (scores_of text scr)) as P.
  pose proof (sorted_desc_sorted (fun x : str * Q => snd x) (scores_of text scr)) as SS.
  rewrite S in P, SS.
  assert (N : NoDup (k :: map fst rest)).
  { change (NoDup (map fst ((k, top) :: rest))).
    apply (Permutation_NoDup (Permutation_map fst (Permutation_sym P))).
    change (NoDup (keys (scores_of text scr))).
    rewrite DetectorFacts.language_keys_scores_of.
    unfold scores_of, keys in *. 
    pose proof DetectorFacts.language_keys_nodup as K.
    rewrite <- DetectorFacts.language_table_order, map_map. exact K. }
  split; [exact S|]. split; [exact N|]. split; [|split; [|split; [|auto]]].
  - apply StronglySorted_inv in SS. destruct SS as [_ F].
    rewrite Forall_forall in *. intros x I. split.
    + apply (Permutation_in _ P). now right.
    + specialize (F x I). unfold ge in F. cbn [snd] in F. exact F.
  - apply (Permutation_in _ P). now left.
  - assert (I : In k (map value declared_order)).
    { rewrite <- DetectorFacts.language_keys_scores_of with (text := text) (scr := scr).
      change (In (fst (k, top)) (map fst (scores_of text scr))).
      apply in_map. apply (Permutation_in _ P). now left. }
    apply in_map_iff in I. destruct I as (l & E & I).
    rewrite <- El in E. apply language_value_injective in E. now subst.
Qed.

(** [detect] does not raise. *)
Lemma detect_returns (text : str) : exists r, detect text = Ok r.
Proof.
  destruct (blank text) eqn:B.
  - unfold detect, detect_with. rewrite B. eauto.
  - destruct (detect_ranking text B)
      as (scr & k & top & rest & lang & secondary & _ & _ & _ & _ & _ & _ & _ & D).
    rewrite D. eauto.
Qed.

(** X5. The confidence of [detect] lies in [0,1], and it is 0 exactly when the
    primary language is UNKNOWN. *)
Theorem detect_confidence_range (text : str) :
  exists r,
    detect text = Ok r /\
    0 <= confidence r /\ confidence r <= 1 /\
    (primary_language r = UNKNOWN <-> confidence r == 0).
Proof.
  destruct (blank text) eqn:B.
  - unfold detect, detect_with. rewrite B. eexists. split; [reflexivity|].
    cbn [confidence primary_language]. split; [lra|]. split; [lra|].
    split; intro; [lra|reflexivity].
  - destruct (detect_ranking text B)
      as (scr & k & top & rest & lang & secondary & _ & _ & _ & _ & Il & _ & _ & D).
    rewrite D. eexists. split; [reflexivity|].
    destruct (Qltb 0 top) eqn:L; cbn [confidence primary_language].
    + apply Qltb_lt in L. rewrite min_spec.
      split; [apply Q.min_glb; lra|].
      split; [pose proof (Q.le_min_r (top * 2) 1.0); lra|].
      split.
      * intro E. subst lang. simpl in Il. exfalso. intuition discriminate.
      * intro E. exfalso.
        assert (0 < Qmin (top * 2) 1.0) by (apply Q.min_glb_lt; lra). lra.
    + split; [lra|]. split; [lra|]. split; intro; [lra|reflexivity].
Qed.

(** X6. [detect] only ever returns a language of the table, as primary or as
    secondary language; the fifteen other languages that
    [get_supported_languages] lists are never detected. *)
Theorem detect_only_table_languages (text : str) :
  exists r,
    detect text = Ok r /\
    In (primary_language r) (UNKNOWN :: declared_order) /\
    Forall (fun l => In l declared_order) (secondary_languages r) /\
    forall l,
      In l [VIETNAMESE; INDONESIAN; MALAY; TURKISH; POLISH; SWEDISH; NORWEGIAN;
            DANISH; FINNISH; GREEK; HEBREW; CZECH; ROMANIAN; HUNGARIAN; UKRAINIAN] ->
      In (value l) MultiLanguageProcessor.get_supported_languages /\
      primary_language r <> l /\
      ~ In l (secondary_languages r).
Proof.
  assert (R : exists r,
             detect text = Ok r /\
             In (primary_language r) (UNKNOWN :: declared_order) /\
             Forall (fun l => In l declared_order) (secondary_languages r)).
  { destruct (blank text) eqn:B.
    - unfold detect, detect_with. rewrite B. eexists. split; [reflexivity|].
      cbn [primary_language secondary_languages]. split; [now left|constructor].
    - destruct (detect_ranking text B)
        as (scr & k & top & rest & lang & secondary & S & _ & F & _ & Il & _ & Es & D).
      rewrite D. eexists. split; [reflexivity|].
      destruct (Qltb 0 top); cbn [primary_language secondary_languages].
      + split; [now right|]. apply Forall_forall. intros l I.
        apply (in_map value) in I. rewrite Es in I.
        apply in_map_iff in I. destruct I as ([k' s'] & E & I). cbn [fst] in E. subst k'.
        apply filter_In in I. destruct I as [I _]. apply in_firstn in I.
        rewrite Forall_forall in F. destruct (F _ I) as [I' _].
        apply (in_map fst) in I'. cbn [fst] in I'.
        change (In (value l) (keys (scores_of text scr))) in I'.
        rewrite DetectorFacts.language_keys_scores_of in I'.
        apply in_map_iff in I'. destruct I' as (l' & E & I').
        apply language_value_injective in E. now subst.
      + split; [now left|constructor]. }
  destruct R as (r & D & Ip & Fs). exists r.
  split; [exact D|]. split; [exact Ip|]. split; [exact Fs|].
  intros l I. split; [|split].
  - simpl in I. vm_compute.
    repeat (destruct I as [<-|I]; [tauto|]). contradiction.
  - intro E. rewrite E in Ip. simpl in I, Ip.
    repeat (destruct I as [<-|I];
            [repeat (destruct Ip as [Ip|Ip]; [discriminate|]); contradiction|]).
    contradiction.
  - intro Is. rewrite Forall_forall in Fs. specialize (Fs l Is). simpl in I, Fs.
    repeat (destruct I as [<-|I];
            [repeat (destruct Fs as [Fs|Fs]; [discriminate|]); contradiction|]).
    contradiction.
Qed.

(** X7. The secondary languages are distinct, the primary language is not among
    them, and each has a score above 0.1 that does not exceed the score of
    the primary language. *)
Theorem detect_secondary_distinct (text : str) :
  exists r,
    detect text = Ok r /\
    NoDup (secondary_languages r) /\
    ~ In (primary_language r) (secondary_languages r) /\
    forall l,
      In l (secondary_languages r) ->
      exists s top,
        get (all_scores r) (value l) = Some s /\
        get (all_scores r) (value (primary_language r)) = Some top /\
        0.1 < s /\ s <= top.
Proof.
  destruct (blank text) eqn:B.
  - unfold detect, detect_with. rewrite B. eexists. split; [reflexivity|].
    cbn [secondary_languages]. split; [constructor|]. split; [tauto|].
    intros l [].
  - destruct (detect_ranking text B)
      as (scr & k & top & rest & lang & secondary & S & N & F & Ik & Il & El & Es & D).
    rewrite D. eexists. split; [reflexivity|].
    assert (K : NoDup (keys (scores_of text scr))).
    { rewrite DetectorFacts.language_keys_scores_of.
      rewrite <- DetectorFacts.language_table_order, map_map.
      exact DetectorFacts.language_keys_nodup. }
    inversion N as [|? ? Nk Nr]; subst.
    destruct (Qltb 0 top);
      cbn [primary_language secondary_languages all_scores].
    + split; [|split].
      * apply (NoDup_map_inv value). rewrite Es.
        apply nodup_map_filter, nodup_map_firstn, Nr.
      * intro I. apply Nk. apply (in_map value) in I. rewrite Es in I.
        apply in_map_iff in I. destruct I as (x & E & I). rewrite <- E.
        apply in_map. apply filter_In in I. destruct I as [I _].
        eapply in_firstn; eauto.
      * intros l I. apply (in_map value) in I. rewrite Es in I.
        apply in_map_iff in I. destruct I as ([k' s] & E & I). cbn [fst] in E.
        subst k'. apply filter_In in I. destruct I as [I L]. cbn [snd] in L.
        apply Qltb_lt in L. apply in_firstn in I.
        rewrite Forall_forall in F. destruct (F _ I) as [I' Le]. cbn [snd] in Le.
        exists s, top. split; [now apply in_get|]. split; [now apply in_get|].
        split; assumption.
    + split; [constructor|]. split; [tauto|]. intros l [].
Qed.

End WithUnicode.

End DetectorMoreFacts.

(** ** The dominant script *)

Module ScriptFacts.
Import Py LanguageDetector PyFacts Notions.
Import Spec Spec.Detector.
Local Open Scope Z_scope.

Ltac range_leaf :=
  first
    [ reflexivity
    | match goal with
      | E : (_ && _)%bool = true |- _ =>
        let Ea := fresh in
        let Eb := fresh in
        apply andb_true_iff in E; destruct E as [Ea Eb];
        apply Z.leb_le in Ea; apply Z.leb_le in Eb;
        transitivity false; [reflexivity|];
        symmetry; apply andb_false_iff; rewrite !Z.leb_gt; lia
      end ].

(** The chain picks the script whose range holds the character: the ranges
    do not overlap. *)
Lemma counts_towards_range (k : str) (r : Z * Z) (code : Z) :
  In (k, r) tagged_ranges -> counts_towards k code = in_range r code.
Proof.
  intro I. unfold tagged_ranges in I. simpl in I.
  unfold counts_towards, script_of_code, in_range.
  repeat (destruct I as [I|I];
    [ injection I as <- <-; cbn [fst snd];
      repeat match goal with
             | |- context [if ?b then _ else _] => destruct b eqn:?
             end; range_leaf
    | ]).
  contradiction.
Qed.

Lemma counts0_zero (k : str) : counts_get script_counts0 k = 0.
Proof.
  unfold counts_get. destruct (get script_counts0 k) as [n|] eqn:G; [|reflexivity].
  apply get_in in G. unfold script_counts0 in G. apply in_map_iff in G.
  destruct G as (x & E & _). congruence.
Qed.

Lemma count_scripts_counts (text : str) :
  forall counts,
    (forall k, In k script_tags -> In k (keys counts)) ->
    exists counts',
      count_scripts counts text = Ok counts' /\
      keys counts' = keys counts /\
      forall k,
        counts_get counts' k
        = counts_get counts k + Z.of_nat (length (filter (counts_towards k) text)).
Proof.
  induction text as [|c text IH]; intros counts T.
  - exists counts. split; [reflexivity|]. split; [reflexivity|].
    intro k. simpl. lia.
  - cbn [count_scripts].
    destruct (script_of_code c) as [k0|] eqn:S.
    + assert (I : In k0 (keys counts)) by (apply T; eapply DetectorFacts.script_of_code_tag; eauto).
      unfold incr. destruct (get counts k0) as [n|] eqn:G;
        [|apply get_none in G; contradiction].
      cbn [bind].
      destruct (IH (set counts k0 (n + 1))) as (counts' & C & K & V).
      { intros k Ik. rewrite keys_set_present by exact I. auto. }
      exists counts'. split; [exact C|]. split.
      { rewrite K. now apply keys_set_present. }
      intro k. rewrite V. cbn [filter].
      replace (counts_towards k c) with (str_eqb k0 k)
        by (unfold counts_towards; rewrite S; reflexivity).
      unfold counts_get.
      destruct (str_eqb k0 k) eqn:E.
      * apply str_eqb_eq in E. subst k0. rewrite get_set_same, G.
        cbn [length]. lia.
      * apply str_eqb_neq in E. rewrite get_set_other by exact E.
        lia.
    + cbn [bind]. destruct (IH counts T) as (counts' & C & K & V).
      exists counts'. split; [exact C|]. split; [exact K|].
      intro k. rewrite V. cbn [filter].
      replace (counts_towards k c) with false
        by (unfold counts_towards; rewrite S; reflexivity).
      reflexivity.
Qed.

Lemma fold_max_split_Z {A} (key : A -> Z) (t : list A) (x : A) :
  let b := fold_left (fun best y => if key best <? key y then y else best) t x in
  exists before after,
    x :: t = (before ++ b :: after)%list /\
    Forall (fun y => key y < key b) before /\
    Forall (fun y => key y <= key b) after.
Proof.
  induction t as [|y t IH] using rev_ind; simpl.
  - exists [], []. repeat split; constructor.
  - rewrite fold_left_app. simpl.
    destruct IH as (before & after & E & Fb & Fa).
    set (b := fold_left _ t x) in *.
    destruct (Z.ltb_spec (key b) (key y)) as [L|L].
    + exists (x :: t), []. split; [reflexivity|]. split; [|constructor].
      rewrite E. apply Forall_app. split.
      * eapply Forall_impl; [|exact Fb]. simpl. intros; lia.
      * constructor; [assumption|].
        eapply Forall_impl; [|exact Fa]. simpl. intros; lia.
    + exists before, (after ++ [y])%list. split; [|split].
      * change (x :: t ++ [y])%list with ((x :: t) ++ [y])%list.
        rewrite E, <- app_assoc. reflexivity.
      * assumption.
      * apply Forall_app. split; [assumption|]. now constructor.
Qed.

Lemma chars_of_counts (k : str) (text : str) :
  In k script_tags ->
  chars_of k text = Z.of_nat (length (filter (counts_towards k) text)).
Proof.
  intro I. unfold chars_of.
  destruct (get tagged_ranges k) as [r|] eqn:G.
  - apply get_in in G. f_equal. f_equal. apply filter_ext.
    intro c. symmetry. now apply counts_towards_range.
  - apply get_none in G. exfalso. apply G.
    assert (K : keys tagged_ranges = script_tags) by reflexivity.
    rewrite K. exact I.
Qed.

(** X8. [_detect_script] returns the script that has the most characters in the
    text, and the first such script of the ten when several have as many. *)
Theorem detect_script_most_frequent (text : str) :
  exists k before after,
    _detect_script text = Ok k /\
    script_tags = (before ++ k :: after)%list /\
    Forall (fun k' => chars_of k' text < chars_of k text) before /\
    Forall (fun k' => chars_of k' text <= chars_of k text) after.
Proof.
  destruct (count_scripts_counts text script_counts0) as (counts & C & K & V).
  { intros k I. exact I. }
  unfold _detect_script. rewrite C. cbn [bind].
  assert (Kt : keys counts = script_tags) by exact K.
  assert (T : truthy counts = true).
  { destruct counts; [discriminate Kt|reflexivity]. }
  rewrite T, Kt.
  assert (G : forall k, In k script_tags -> counts_get counts k = chars_of k text).
  { intros k I. rewrite V, counts0_zero, chars_of_counts by exact I. lia. }
  change script_tags with (u "latin" :: tl script_tags) at 1.
  cbn [max_by].
  pose proof (fold_max_split_Z (counts_get counts) (tl script_tags) (u "latin")) as H.
  cbv zeta in H. destruct H as (before & after & E & Fb & Fa).
  set (b := fold_left _ _ _) in *.
  change (u "latin" :: tl script_tags) with script_tags in E.
  assert (Ib : In b script_tags) by (rewrite E; apply in_elt).
  exists b, before, after. split; [reflexivity|]. split; [exact E|].
  rewrite Forall_forall in Fb, Fa. split; apply Forall_forall; intros k' I.
  - rewrite <- (G b Ib), <- (G k'); [now apply Fb|].
    rewrite E. apply in_or_app. now left.
  - rewrite <- (G b Ib), <- (G k'); [now apply Fa|].
    rewrite E. apply in_or_app. right. now right.
Qed.

(** X9. The table [_build_script_ranges], which the detector does not read,
    agrees with the chain of [_detect_script]: a character counts towards a
    script exactly when it lies in a range of the table whose name starts
    with the name of the script. *)
Theorem script_ranges_agree (code : Z) :
  Forall (fun k =>
            counts_towards k code
            = existsb (fun e : str * (Z * Z) =>
                         startswith k (fst e) && in_range (snd e) code)
                MultiLanguageProcessor._build_script_ranges)
    script_tags.
Proof.
  assert (H : forall k r, In (k, r) tagged_ranges ->
                counts_towards k code
                = existsb (fun e : str * (Z * Z) =>
                             startswith k (fst e) && in_range (snd e) code)
                    MultiLanguageProcessor._build_script_ranges).
  { intros k r I. rewrite (counts_towards_range k r code I).
    unfold tagged_ranges in I. simpl in I.
    repeat (destruct I as [I|I];
      [ injection I as <- <-;
        apply eq_true_iff_eq;
        unfold MultiLanguageProcessor._build_script_ranges, in_range;
        cbn [existsb fst snd];
        repeat match goal with
               | |- context [startswith ?a ?b] =>
                 let v := eval vm_compute in (startswith a b) in
                 change (startswith a b) with v
               end;
        cbn [andb orb];
        rewrite ?orb_true_iff, ?andb_true_iff, ?Z.leb_le; lia
      | ]).
    contradiction. }
  apply Forall_forall. intros k I.
  assert (K : keys tagged_ranges = script_tags) by reflexivity.
  rewrite <- K in I. apply in_map_iff in I. destruct I as ([k' r] & <- & I).
  exact (H k' r I).
Qed.

End ScriptFacts.

(** ** Fields in the detected language *)

Module MultiLanguageFacts.
Import Py Re LanguageDetector PyFacts ReFacts Notions.
Import Spec Spec.Detector.
Import MultiLanguageProcessor.
Local Open Scope list_scope.

(** Every label of the table is free of metacharacters: as a pattern it
    matches itself. *)
Lemma translations_plain :
  forallb (fun entry : str * dict str =>
             forallb (fun kv : str * str => plain (snd kv)) (snd entry))
    _load_field_translations = true.
Proof. vm_compute. reflexivity. Qed.

Lemma untranslated_pattern (f : str) (l : Language) :
  ~ In l translated_languages -> get_field_pattern f l = None.
Proof.
  intro N. unfold get_field_pattern.
  destruct (get _load_field_translations f) as [tr|] eqn:G; [|reflexivity].
  apply get_in in G. unfold _load_field_translations in G.
  destruct l; try (exfalso; apply N; simpl; tauto);
    simpl in G;
    repeat (destruct G as [G|G]; [injection G as _ <-; reflexivity|]);
    contradiction.
Qed.

Lemma known_field (f label : str) (l : Language) :
  get_field_pattern f l = Some label -> In f (keys _load_field_translations).
Proof.
  unfold get_field_pattern.
  destruct (get _load_field_translations f) as [tr|] eqn:G; [|discriminate].
  intros _. apply get_in in G. apply (in_map fst) in G. exact G.
Qed.

Section WithUnicode.
Context {U : Unicode}.

Lemma forall_lstrip (P : char -> Prop) (s : str) :
  Forall P s -> Forall P (lstrip s).
Proof.
  induction 1 as [|c s Pc Ps IH]; simpl; [constructor|].
  destruct (isspace c); [exact IH|now constructor].
Qed.

Lemma forall_strip (P : char -> Prop) (s : str) :
  Forall P s -> Forall P (strip s).
Proof.
  intro F. unfold strip, rstrip.
  apply Forall_rev, forall_lstrip, Forall_rev, forall_lstrip, F.
Qed.

Lemma lstrip_suffix (s : str) : exists pre, s = pre ++ lstrip s.
Proof.
  induction s as [|c s [pre E]]; simpl.
  - exists []. reflexivity.
  - destruct (isspace c).
    + exists (c :: pre). simpl. congruence.
    + exists []. reflexivity.
Qed.

(** [strip] leaves no white space at either end. *)
Lemma strip_trimmed (s : str) : trimmed (strip s).
Proof.
  unfold strip, rstrip.
  set (a := lstrip s).
  destruct (lstrip_suffix (rev a)) as (pre & E).
  set (b := lstrip (rev a)) in *.
  assert (Ea : a = rev b ++ rev pre).
  { rewrite <- rev_app_distr, <- E, rev_involutive. reflexivity. }
  unfold trimmed. destruct (rev b) as [|c t] eqn:R; [exact I|].
  split.
  - apply (DetectorFacts.lstrip_head s c (t ++ rev pre)).
    fold a. rewrite Ea. reflexivity.
  - destruct b as [|c' b'] eqn:Eb; [discriminate R|].
    rewrite <- R. cbn [rev]. rewrite last_last.
    apply (DetectorFacts.lstrip_head (rev a) c' b'). exact Eb.
Qed.

Lemma in_run_cat (ic : bool) (r1 r2 : regex) (st st' : state) :
  In st' (run ic (Cat r1 r2) st) ->
  exists stm, In stm (run ic r1 st) /\ In st' (run ic r2 stm).
Proof. cbn [run]. intro I. apply in_flat_map in I. exact I. Qed.

Lemma in_run_star (ic : bool) (cs : cset) (st st' : state) :
  In st' (run ic (Star cs) st) ->
  exists sep,
    rest st = sep ++ rest st' /\ Forall (fun c => in_cset ic cs c = true) sep /\
    caps st' = caps st.
Proof.
  cbn [run]. intro I. apply in_map_iff in I. destruct I as ([p t] & <- & I).
  apply in_rev in I. apply spans_in in I. destruct I as (sep & E & F).
  exists sep. cbn [move rest caps fst snd]. auto.
Qed.

Lemma in_run_one (ic : bool) (cs : cset) (st st' : state) :
  In st' (run ic (One cs) st) ->
  exists c, rest st = c :: rest st' /\ in_cset ic cs c = true /\ caps st' = caps st.
Proof.
  cbn [run]. destruct (rest st) as [|c t]; [intros []|].
  destruct (in_cset ic cs c) eqn:E; [|intros []].
  intros [<-|[]]. exists c. cbn [move rest caps fst snd]. auto.
Qed.

(** What a match of  label\s*:?\s*(.+?)(?:\n|$)  at the cursor looks like. *)
Lemma field_regex_here (label : str) (p : option char) (t : str) (start : nat)
    (m : match_obj) :
  match_line_here true (field_regex label) p t start = Some m ->
  exists lab s1 colon s2 val post,
    t = lab ++ (s1 ++ colon ++ s2) ++ val ++ post /\
    Forall2 (fun c p => in_cset true (Lit p) c = true) lab label /\
    Forall (fun c => isspace c = true) s1 /\
    Forall (fun c => isspace c = true) s2 /\
    (colon = [] \/ exists c, colon = [c] /\ in_cset true (Lit 58) c = true) /\
    val <> [] /\ Forall (fun c => c <> 10%Z) val /\
    ends_line post /\
    group (m_groups m) 1 = Some val.
Proof.
  unfold match_line_here.
  set (st0 := {| prev := p; rest := t; caps := [] |}).
  destruct (flat_map (line_end true) (run true (field_regex label) st0))
    as [|st more] eqn:R; [discriminate|].
  intros [= <-].
  apply flat_map_head in R. destruct R as (st5 & more5 & I & L).
  assert (Il : In st (line_end true st5)) by (rewrite L; now left).
  clear L more more5.
  unfold field_regex, seq in I. cbn [fold_right] in I.
  apply in_run_cat in I. destruct I as (st1 & I1 & I).
  apply in_run_cat in I. destruct I as (st2 & I2 & I).
  apply in_run_cat in I. destruct I as (st3 & I3 & I).
  apply in_run_cat in I. destruct I as (st4 & I4 & I).
  apply in_run_cat in I. destruct I as (stg & Ig & I).
  cbn [run] in I. destruct I as [<-|[]].
  destruct (run_lit _ _ _ _ I1) as (lab & E1 & F1 & _).
  destruct (in_run_star _ _ _ _ I2) as (s1 & E2 & F2 & _).
  destruct (in_run_star _ _ _ _ I4) as (s2 & E4 & F4 & _).
  assert (H3 : exists colon,
             rest st2 = colon ++ rest st3 /\
             (colon = [] \/ exists c, colon = [c] /\ in_cset true (Lit 58) c = true)).
  { cbn [run] in I3. apply in_app_or in I3. destruct I3 as [I3|[<-|[]]].
    - apply (in_run_one true (Lit 58)) in I3. destruct I3 as (c & E & C & _).
      exists [c]. split; [exact E|]. right. eauto.
    - exists []. split; [reflexivity|now left]. }
  destruct H3 as (colon & E3 & C3).
  change (run true (Group 1 (Cat (One Dot) (StarLazy Dot))) st4)
    with (map (fun st' =>
                 {| prev := prev st'; rest := rest st';
                    caps := set_cap 1 (consumed (rest st4) (rest st')) (caps st') |})
            (run true (Cat (One Dot) (StarLazy Dot)) st4)) in Ig.
  apply in_map_iff in Ig. destruct Ig as (st' & <- & Ig).
  apply in_run_cat in Ig. destruct Ig as (std & Id & Ig).
  apply in_run_one in Id. destruct Id as (c & Ed & Cd & _).
  cbn [run] in Ig. apply in_map_iff in Ig. destruct Ig as ([p' t'] & <- & Ig).
  apply spans_in in Ig. destruct Ig as (more & Em & Fm).
  cbn [move rest caps fst snd] in *.
  set (val := c :: more).
  assert (Ev : rest st4 = val ++ t') by (rewrite Ed, Em; reflexivity).
  assert (Fv : Forall (fun c => c <> 10%Z) val).
  { assert (D : forall x, in_cset true Dot x = true -> x <> 10%Z).
    { intros x Hx. cbn [in_cset] in Hx. apply negb_true_iff in Hx.
      now apply Z.eqb_neq. }
    constructor; [now apply D|].
    eapply Forall_impl; [|exact Fm]. exact D. }
  assert (G : group (caps st) 1 = Some val /\ ends_line (skipn 0 t')).
  { unfold line_end in Il. apply in_app_or in Il. destruct Il as [Il|Il].
    - apply (in_run_one true (Lit 10)) in Il. destruct Il as (c' & El & Cl & Kl).
      cbn [rest caps] in El, Kl. rewrite Kl, group_set_cap, Ev, consumed_app.
      split; [reflexivity|]. cbn [skipn]. rewrite El. cbn [ends_line]. now left.
    - unfold at_dollar in Il. cbn [rest] in Il.
      destruct t' as [|c' [|c2 t2]]; cbn [In] in Il.
      + destruct Il as [<-|[]]. cbn [caps].
        rewrite group_set_cap, Ev, consumed_app. split; [reflexivity|exact I].
      + destruct (c' =? 10)%Z eqn:E10; [|contradiction].
        destruct Il as [<-|[]]. cbn [caps].
        rewrite group_set_cap, Ev, consumed_app. split; [reflexivity|].
        cbn [skipn ends_line]. right. split; [now apply Z.eqb_eq|reflexivity].
      + contradiction. }
  destruct G as [G El].
  exists lab, s1, colon, s2, val, t'.
  split.
  { change t with (rest st0). rewrite E1, E2, E3, E4, Ev.
    rewrite <- !app_assoc. reflexivity. }
  repeat (split; [assumption || discriminate|]).
  exact G.
Qed.

Lemma search_line_from_here (ic : bool) (r : regex) :
  forall t p start m,
    search_line_from ic r p t start = Some m ->
    exists pre t' p' start',
      t = pre ++ t' /\ match_line_here ic r p' t' start' = Some m.
Proof.
  induction t as [|c t IH]; intros p start m; cbn [search_line_from].
  - destruct (match_line_here ic r p [] start) eqn:H; [|discriminate].
    intros [= <-]. exists [], [], p, start. auto.
  - destruct (match_line_here ic r p (c :: t) start) eqn:H.
    + intros [= <-]. exists [], (c :: t), p, start. auto.
    + intro S. destruct (IH _ _ _ S) as (pre & t' & p' & start' & E & M).
      exists (c :: pre), t', p', start'. split; [simpl; congruence|exact M].
Qed.

(** A successful search finds the label, the separator and the value in the
    text, and captures the value. *)
Lemma field_regex_search (label text : str) (m : match_obj) :
  search_line true (field_regex label) text = Some m ->
  exists lab sep val,
    group (m_groups m) 1 = Some val /\ line_match label text lab sep val.
Proof.
  intro S. unfold search_line in S.
  destruct (search_line_from_here _ _ _ _ _ _ S) as (pre & t' & p' & start' & -> & H).
  destruct (field_regex_here _ _ _ _ _ H)
    as (lab & s1 & colon & s2 & val & post & -> & F0 & F1 & F2 & C & N & Fv & El & G).
  exists lab, (s1 ++ colon ++ s2), val. split; [exact G|].
  exists pre, post, s1, colon, s2. repeat (split; [assumption || reflexivity|]).
  exact El.
Qed.

(** The loop over the requested fields: it does not raise, and it adds only
    values found by the pattern of a requested field. *)
Lemma process_fields_ok (text : str) (primary : Language) (requested : list str) :
  forall acc,
    exists res,
      process_fields text primary requested acc = Ok res /\
      (forall f, In f (keys res) -> In f (keys acc) \/ In f requested) /\
      (NoDup (keys acc) -> NoDup (keys res)) /\
      forall f v,
        get res f = Some v ->
        get acc f = Some v \/
        (In f requested /\
         exists label lab sep val,
           get_field_pattern f primary = Some label /\
           line_match label text lab sep val /\
           v = strip val).
Proof.
  induction requested as [|field requested IH]; intro acc; cbn [process_fields].
  - exists acc. split; [reflexivity|]. split; [auto|]. split; auto.
  - assert (Skip : exists res,
               process_fields text primary requested acc = Ok res /\
               (forall f, In f (keys res) -> In f (keys acc) \/ In f (field :: requested)) /\
               (NoDup (keys acc) -> NoDup (keys res)) /\
               forall f v,
                 get res f = Some v ->
                 get acc f = Some v \/
                 (In f (field :: requested) /\
                  exists label lab sep val,
                    get_field_pattern f primary = Some label /\
                    line_match label text lab sep val /\
                    v = strip val)).
    { destruct (IH acc) as (res & E & K & N & V). exists res.
      split; [exact E|]. split; [|split; [exact N|]].
      - intros f I. destruct (K f I); [now left|right; now right].
      - intros f v G. destruct (V f v G) as [|[I H]]; [now left|].
        right. split; [now right|exact H]. }
    destruct (get_field_pattern field primary) as [[|c pattern']|] eqn:P;
      [exact Skip| |exact Skip].
    destruct (search_line true (field_regex (c :: pattern')) text) as [m|] eqn:S;
      [|exact Skip].
    destruct (field_regex_search _ _ _ S) as (lab & sep & val & G & M).
    rewrite G.
    destruct (IH (set acc field (strip val))) as (res & E & K & N & V).
    exists res. split; [exact E|]. split; [|split].
    + intros f I. destruct (K f I) as [I'|I']; [|right; now right].
      destruct (in_dec (list_eq_dec Z.eq_dec) field (keys acc)) as [Ia|Na].
      * rewrite keys_set_present in I' by exact Ia. now left.
      * rewrite set_fresh in I' by exact Na. unfold keys in I'.
        rewrite map_app in I'. apply in_app_or in I'.
        destruct I' as [I'|[<-|[]]]; [now left|right; now left].
    + intro Na. apply N.
      destruct (in_dec (list_eq_dec Z.eq_dec) field (keys acc)) as [Ia|Nf].
      * rewrite keys_set_present by exact Ia. exact Na.
      * rewrite set_fresh by exact Nf. unfold keys. rewrite map_app.
        apply NoDup_app; [exact Na|repeat constructor; intros []|].
        intros a Ia [<-|[]]. contradiction.
    + intros f v Gf. destruct (V f v Gf) as [Gs|[I H]].
      * destruct (list_eq_dec Z.eq_dec field f) as [<-|Ne].
        -- rewrite get_set_same in Gs. injection Gs as <-.
           right. split; [now left|]. exists (c :: pattern'), lab, sep, val. auto.
        -- rewrite get_set_other in Gs by exact Ne. now left.
      * right. split; [now right|exact H].
Qed.

(** X10. [process_multilingual] never raises; it reports the primary language of
    [detect] and its confidence; its fields have distinct names, each a
    requested name with a label in the primary language, and each value is
    what follows that label on its line, stripped: it holds no newline and
    no white space at either end. *)
Theorem process_multilingual_fields (text : str) (requested : list str) :
  exists res r,
    process_multilingual text requested = Ok res /\
    detect text = Ok r /\
    language res = value (primary_language r) /\
    MultiLanguageProcessor.confidence res = LanguageDetector.confidence r /\
    NoDup (keys (fields res)) /\
    forall f v,
      get (fields res) f = Some v ->
      In f requested /\
      Forall (fun c => c <> 10%Z) v /\ trimmed v /\
      exists label lab sep val,
        get_field_pattern f (primary_language r) = Some label /\
        line_match label text lab sep val /\
        v = strip val.
Proof.
  destruct (DetectorMoreFacts.detect_returns text) as (r & D).
  destruct (process_fields_ok text (primary_language r) requested [])
    as (res & E & _ & N & V).
  unfold process_multilingual. rewrite D. cbn [bind]. rewrite E. cbn [bind].
  eexists. exists r. split; [reflexivity|]. split; [reflexivity|].
  cbn [language MultiLanguageProcessor.confidence fields].
  split; [reflexivity|]. split; [reflexivity|].
  split; [apply N; constructor|].
  intros f v G. destruct (V f v G) as [G0|[I H]]; [discriminate G0|].
  split; [exact I|].
  destruct H as (label & lab & sep & val & P & M & ->).
  split; [|split; [apply strip_trimmed|eauto 8]].
  apply forall_strip.
  destruct M as (pre & post & s1 & colon & s2 & _ & _ & _ & _ & _ & _ & _ & Fv & _).
  exact Fv.
Qed.

Lemma process_fields_untranslated (text : str) (primary : Language)
    (requested : list str) (acc : dict str) :
  ~ In primary translated_languages ->
  process_fields text primary requested acc = Ok acc.
Proof.
  intro N. induction requested as [|f requested IH]; cbn [process_fields].
  - reflexivity.
  - rewrite (untranslated_pattern f primary N). exact IH.
Qed.

(** X11. Only the four fields of the translation table can come out, and only
    when the primary language is one of the six translated languages: for
    any other language, UNKNOWN included, no field is extracted. *)
Theorem process_multilingual_translated_only (text : str) (requested : list str) :
  exists res r,
    process_multilingual text requested = Ok res /\
    detect text = Ok r /\
    (forall f, In f (keys (fields res)) ->
       In f (map u ["invoice_number"; "date"; "total"; "tax"]%string)) /\
    (~ In (primary_language r) translated_languages -> fields res = []).
Proof.
  destruct (DetectorMoreFacts.detect_returns text) as (r & D).
  destruct (process_fields_ok text (primary_language r) requested [])
    as (res & E & _ & _ & V).
  unfold process_multilingual. rewrite D. cbn [bind]. rewrite E. cbn [bind].
  eexists. exists r. split; [reflexivity|]. split; [reflexivity|].
  cbn [fields]. split.
  - intros f I.
    destruct (get res f) as [v|] eqn:G; [|apply get_none in G; contradiction].
    destruct (V f v G) as [G0|[_ (label & _ & _ & _ & P & _)]]; [discriminate G0|].
    exact (known_field _ _ _ P).
  - intro N. rewrite (process_fields_untranslated _ _ _ _ N) in E. congruence.
Qed.

End WithUnicode.

End MultiLanguageFacts.

(** ** The rest of the field extractor *)

Module FieldToolsFacts.
Import Py FieldExtractor FieldTools PyFacts.
Local Open Scope list_scope.

Lemma str_eq_dec (a b : str) : {a = b} + {a <> b}.
Proof. apply (list_eq_dec Z.eq_dec). Qed.

Lemma existsb_str (x : str) (l : list str) : existsb (str_eqb x) l = true <-> In x l.
Proof.
  rewrite existsb_exists. split.
  - intros (y & I & E). apply str_eqb_eq in E. now subst.
  - intro I. exists x. split; [exact I|apply str_eqb_refl].
Qed.

Lemma existsb_str_false (x : str) (l : list str) :
  existsb (str_eqb x) l = false <-> ~ In x l.
Proof.
  rewrite <- existsb_str. destruct (existsb (str_eqb x) l); split; intro H;
    try discriminate; try reflexivity; try (intro; discriminate).
  exfalso. now apply H.
Qed.

(** [first_occurrences] looks only at what the names seen are. *)
Lemma first_occurrences_ext (l : list str) :
  forall seen seen',
    (forall x, In x seen <-> In x seen') ->
    first_occurrences l seen = first_occurrences l seen'.
Proof.
  induction l as [|x l IH]; intros seen seen' H; cbn [first_occurrences]; [reflexivity|].
  assert (E : existsb (str_eqb x) seen = existsb (str_eqb x) seen').
  { apply eq_true_iff_eq. rewrite !existsb_str. apply H. }
  rewrite E. destruct (existsb (str_eqb x) seen').
  - now apply IH.
  - f_equal. apply IH. intro y. simpl. rewrite H. tauto.
Qed.

Lemma first_occurrences_in (l : list str) :
  forall seen x, In x (first_occurrences l seen) <-> In x l /\ ~ In x seen.
Proof.
  induction l as [|y l IH]; intros seen x; cbn [first_occurrences].
  - simpl. tauto.
  - destruct (existsb (str_eqb y) seen) eqn:E.
    + apply existsb_str in E. rewrite IH. simpl. split.
      * tauto.
      * intros [[->|I] N]; [contradiction|tauto].
    + apply existsb_str_false in E. simpl. rewrite IH. simpl.
      destruct (str_eq_dec y x) as [->|Ne]; [tauto|]. tauto.
Qed.

Lemma first_occurrences_nodup (l : list str) :
  forall seen, NoDup (first_occurrences l seen).
Proof.
  induction l as [|y l IH]; intro seen; cbn [first_occurrences]; [constructor|].
  destruct (existsb (str_eqb y) seen); [apply IH|].
  constructor; [|apply IH]. rewrite first_occurrences_in. simpl. tauto.
Qed.

Section Dict.
Context {V : Type}.

Lemma keys_set (d : dict V) (k : str) (v : V) :
  keys (set d k v) = if existsb (str_eqb k) (keys d) then keys d else keys d ++ [k].
Proof.
  destruct (existsb (str_eqb k) (keys d)) eqn:E.
  - apply existsb_str in E. now apply keys_set_present.
  - apply existsb_str_false in E. rewrite set_fresh by exact E.
    unfold keys. rewrite map_app. reflexivity.
Qed.

Lemma set_nodup (d : dict V) (k : str) (v : V) :
  NoDup (keys d) -> NoDup (keys (set d k v)).
Proof.
  intro N. rewrite keys_set. destruct (existsb (str_eqb k) (keys d)) eqn:E; [exact N|].
  apply existsb_str_false in E.
  apply NoDup_app; [exact N|repeat constructor; intros []|].
  intros a Ia [<-|[]]. contradiction.
Qed.

(** A comprehension over the items of a dictionary maps its values. *)
Lemma comprehension_map {W : Type} (g : V -> W) (d : dict V) :
  NoDup (keys d) ->
  fold_left (fun acc (item : str * V) => set acc (fst item) (g (snd item))) d []
  = map (fun item => (fst item, g (snd item))) d.
Proof.
  intro N. apply (fold_set_fresh (V := W) fst (fun item => g (snd item)) d []).
  exact N.
Qed.

Lemma get_map_values {W : Type} (g : V -> W) (d : dict V) (k : str) :
  get (map (fun item => (fst item, g (snd item))) d) k = option_map g (get d k).
Proof.
  induction d as [|[k' v] d IH]; [reflexivity|].
  cbn [map fst snd]. unfold get in *. cbn [find fst]. 
  destruct (str_eqb k' k); [reflexivity|exact IH].
Qed.

End Dict.

Lemma add_custom_field_fields (names : list str) :
  forall self, fields (fold_left add_custom_field names self) = fields self.
Proof.
  induction names as [|x names IH]; intro self; cbn [fold_left]; [reflexivity|].
  rewrite IH. unfold add_custom_field.
  destruct (truthy x && negb (existsb (str_eqb x) (_custom_fields self)));
    reflexivity.
Qed.

Lemma add_custom_field_list (names : list str) :
  forall self,
    _custom_fields (fold_left add_custom_field names self)
    = _custom_fields self
      ++ first_occurrences (filter truthy names) (_custom_fields self).
Proof.
  induction names as [|x names IH]; intro self; cbn [fold_left filter].
  - cbn [first_occurrences]. now rewrite app_nil_r.
  - rewrite IH. unfold add_custom_field.
    destruct x as [|c x']; cbn [truthy andb]; [reflexivity|].
    cbn [first_occurrences].
    destruct (existsb (str_eqb (c :: x')) (_custom_fields self)); cbn [negb];
      [reflexivity|].
    cbn [_custom_fields]. rewrite <- app_assoc. cbn [app]. do 2 f_equal.
    apply first_occurrences_ext. intro y. rewrite in_app_iff. simpl. tauto.
Qed.

(** X12. After any sequence of [add_custom_field] on a new extractor, the custom
    fields are the non-empty names given, each once, in the order of their
    first appearance. *)
Theorem add_custom_field_distinct (PREDEFINED_FIELDS : list str)
    (field_config : option (list str)) (names : list str) :
  let self := fold_left add_custom_field names (__init__ PREDEFINED_FIELDS field_config) in
  _custom_fields self = first_occurrences (filter truthy names) [] /\
  NoDup (_custom_fields self) /\
  (forall f, In f (_custom_fields self) <-> In f names /\ f <> []) /\
  fields self = fields (__init__ PREDEFINED_FIELDS field_config).
Proof.
  cbv zeta. rewrite add_custom_field_list, add_custom_field_fields.
  cbn [__init__ _custom_fields app].
  split; [reflexivity|]. split; [apply first_occurrences_nodup|].
  split; [|reflexivity].
  intro f. rewrite first_occurrences_in, filter_In. simpl.
  destruct f; cbn [truthy]; intuition congruence.
Qed.

Section WithUnicode.
Context {U : Unicode}.

(** X13. The custom fields added with [add_custom_field] play no part in
    [extract]: it returns what it returns without them. *)
Theorem custom_fields_not_extracted (self : FieldExtractor.FieldExtractor)
    (names : list str) (text : str) (enabled_fields custom_fields : option (list str)) :
  extract (fold_left add_custom_field names self) text enabled_fields custom_fields
  = extract self text enabled_fields custom_fields.
Proof.
  unfold extract. rewrite add_custom_field_fields. reflexivity.
Qed.

(** X14. [_extract_field] never raises, and the value it returns has no white
    space at either end; the entry of [extract] for the field holds that
    value and is found exactly when the value is not empty. *)
Theorem extract_field_trimmed (text field : str) :
  exists v,
    _extract_field text field = Ok v /\
    Notions.trimmed v /\
    forall r,
      extract_one text field = Ok r ->
      value r = v /\ (found r = true <-> v <> []).
Proof.
  assert (H : exists v, _extract_field text field = Ok v /\ Notions.trimmed v).
  { unfold _extract_field. rewrite ExtractorFacts.first_match_first_hit.
    destruct (Spec.Extractor.first_hit text (field_patterns field)) as [m|] eqn:F.
    - apply ExtractorFacts.first_hit_in in F. destruct F as (p & Ip & S).
      assert (G : exists g, Re.group (Re.m_groups m) 1 = Some g).
      { unfold field_patterns in Ip. simpl in Ip.
        destruct Ip as [<-|[<-|[<-|[]]]];
          destruct (ExtractorFacts.label_pattern_search _ _ _ S)
            as (lab & sep & val & G & _); eauto. }
      destruct G as (g & ->). exists (strip g).
      split; [reflexivity|apply MultiLanguageFacts.strip_trimmed].
    - exists []. split; [reflexivity|exact I]. }
  destruct H as (v & E & T). exists v. split; [exact E|]. split; [exact T|].
  intros r X. unfold extract_one in X. rewrite E in X. cbn [bind] in X.
  destruct (_calculate_confidence field v) as [c|]; cbn [bind] in X; [|discriminate].
  injection X as <-. cbn [value found]. split; [reflexivity|].
  destruct v; cbn [truthy]; split; intro; congruence.
Qed.

Lemma extract_all_fields (self : FieldExtractor.FieldExtractor) (text : str)
    (enabled_fields custom_fields : option (list str)) :
  extract self text enabled_fields custom_fields
  = extract_loop text (all_fields self enabled_fields custom_fields) [].
Proof.
  unfold extract, all_fields. destruct custom_fields as [[|c cs]|]; reflexivity.
Qed.

Lemma extract_one_ok (text field : str) :
  (exists b, encode field = Ok b) -> exists r, extract_one text field = Ok r.
Proof.
  intros (b & E). unfold extract_one.
  destruct (ExtractorFacts.extract_field_ok text field) as (v & ->). cbn [bind].
  unfold _calculate_confidence, stable_hash. rewrite E. cbn [bind].
  destruct (negb (truthy v)); cbn [bind]; eauto.
Qed.

(** The loop of [extract]: where the keys go and what they hold. *)
Lemma extract_loop_keys (text : str) (all : list str) :
  forall acc res,
    extract_loop text all acc = Ok res ->
    keys res = keys acc ++ first_occurrences all (keys acc) /\
    (forall f, In f all -> exists r, get res f = Some r /\ extract_one text f = Ok r) /\
    (forall f, ~ In f all -> get res f = get acc f).
Proof.
  induction all as [|field all IH]; intros acc res; cbn [extract_loop].
  - intros [= <-]. cbn [first_occurrences]. rewrite app_nil_r.
    split; [reflexivity|]. split; [intros f []|reflexivity].
  - destruct (extract_one text field) as [r|e] eqn:E; cbn [bind]; [|discriminate].
    intro L. destruct (IH _ _ L) as (K & G & O).
    split; [|split].
    + rewrite K, keys_set. cbn [first_occurrences].
      destruct (existsb (str_eqb field) (keys acc)); [reflexivity|].
      rewrite <- app_assoc. cbn [app]. do 2 f_equal.
      apply first_occurrences_ext. intro y. rewrite in_app_iff. simpl. tauto.
    + intros f I.
      destruct (in_dec str_eq_dec f all) as [Ia|Na]; [now apply G|].
      destruct I as [<-|I]; [|contradiction].
      exists r. rewrite (O _ Na), get_set_same. auto.
    + intros f N. rewrite O by (intro; apply N; now right).
      apply get_set_other. intro; apply N; now left.
Qed.

Lemma extract_loop_ok (text : str) (all : list str) :
  (forall f, In f all -> exists b, encode f = Ok b) ->
  forall acc, exists res, extract_loop text all acc = Ok res.
Proof.
  induction all as [|field all IH]; intros H acc; cbn [extract_loop]; [eauto|].
  destruct (extract_one_ok text field) as (r & ->); [apply H; now left|].
  cbn [bind]. apply IH. intros f I. apply H. now right.
Qed.

(** X15. When every requested name can be encoded, [extract] does not raise; its
    result has one entry for each requested name, in the order of first
    appearance, and the entry of a name is the result of the loop body for
    that name. *)
Theorem extract_requested (self : FieldExtractor.FieldExtractor) (text : str)
    (enabled_fields custom_fields : option (list str)) :
  (forall f, In f (all_fields self enabled_fields custom_fields) ->
             exists b, encode f = Ok b) ->
  exists res,
    extract self text enabled_fields custom_fields = Ok res /\
    keys res = first_occurrences (all_fields self enabled_fields custom_fields) [] /\
    forall f,
      In f (all_fields self enabled_fields custom_fields) ->
      exists r, get res f = Some r /\ extract_one text f = Ok r.
Proof.
  intro H. rewrite extract_all_fields.
  destruct (extract_loop_ok text _ H []) as (res & L).
  exists res. split; [exact L|].
  destruct (extract_loop_keys _ _ _ _ L) as (K & G & _).
  split; [exact K|exact G].
Qed.

Lemma extract_nodup (self : FieldExtractor.FieldExtractor) (text : str)
    (enabled_fields custom_fields : option (list str)) (res : dict FieldResult) :
  extract self text enabled_fields custom_fields = Ok res -> NoDup (keys res).
Proof.
  rewrite extract_all_fields. intro L.
  destruct (extract_loop_keys _ _ _ _ L) as (K & _). rewrite K.
  apply first_occurrences_nodup.
Qed.

(** X16. On a result of [extract], [to_dict] and [get_confidence_scores] keep the
    names and their order; under a name, the one holds the value that
    [_extract_field] finds for the name and the other the confidence that
    [_calculate_confidence] gives that value. *)
Theorem extract_to_dict (self : FieldExtractor.FieldExtractor) (text : str)
    (enabled_fields custom_fields : option (list str)) (res : dict FieldResult) :
  extract self text enabled_fields custom_fields = Ok res ->
  keys (to_dict res) = keys res /\
  keys (get_confidence_scores res) = keys res /\
  forall f,
    In f (keys res) ->
    exists v c,
      get (to_dict res) f = Some v /\
      get (get_confidence_scores res) f = Some c /\
      _extract_field text f = Ok v /\
      _calculate_confidence f v = Ok c.
Proof.
  intro E. pose proof (extract_nodup _ _ _ _ _ E) as N.
  unfold to_dict, get_confidence_scores.
  rewrite !comprehension_map by exact N.
  split; [unfold keys; rewrite map_map; reflexivity|].
  split; [unfold keys; rewrite map_map; reflexivity|].
  intros f I. rewrite !get_map_values.
  destruct (get res f) as [r|] eqn:G; [|apply get_none in G; contradiction].
  pose proof (ExtractorFacts.extract_entries _ _ _ _ _ E f r G) as X.
  unfold extract_one in X.
  destruct (_extract_field text f) as [v|] eqn:V; cbn [bind] in X; [|discriminate].
  destruct (_calculate_confidence f v) as [c|] eqn:C; cbn [bind] in X; [|discriminate].
  injection X as <-. exists v, c. cbn [option_map value confidence]. auto.
Qed.

End WithUnicode.




Lemma extract_requested_witness :
  (forall f,
     In f (all_fields (U := basic_latin) (__init__ [u "Total"] None) None
             (Some [u " Date "; u "Total"])) ->
     exists b, encode f = Ok b) /\
  exists res,
    extract (U := basic_latin) (__init__ [u "Total"] None) (u "Total: 42") None
      (Some [u " Date "; u "Total"]) = Ok res /\
    keys res
    = first_occurrences
        (all_fields (U := basic_latin) (__init__ [u "Total"] None) None
           (Some [u " Date "; u "Total"])) [] /\
    forall f,
      In f (all_fields (U := basic_latin) (__init__ [u "Total"] None) None
              (Some [u " Date "; u "Total"])) ->
      exists r, get res f = Some r /\
                extract_one (U := basic_latin) (u "Total: 42") f = Ok r.
Proof.
  assert (H : forall f,
             In f (all_fields (U := basic_latin) (__init__ [u "Total"] None) None
                     (Some [u " Date "; u "Total"])) ->
             exists b, encode f = Ok b).
  { intros f I. vm_compute in I.
    destruct I as [<-|[<-|[<-|[]]]]; eexists; vm_compute; reflexivity. }
  split; [exact H|].
  exact (extract_requested (U := basic_latin) _ _ _ _ H).
Defined.

Lemma extract_to_dict_witness :
  exists res,
    extract (U := basic_latin) (__init__ [u "Total"; u "Date"] None)
      (u "Total: 42") None None = Ok res /\
    keys (to_dict res) = keys res /\
    keys (get_confidence_scores res) = keys res /\
    forall f,
      In f (keys res) ->
      exists v c,
        get (to_dict res) f = Some v /\
        get (get_confidence_scores res) f = Some c /\
        _extract_field (U := basic_latin) (u "Total: 42") f = Ok v /\
        _calculate_confidence f v = Ok c.
Proof.
  assert (E : { res | extract (U := basic_latin) (__init__ [u "Total"; u "Date"] None)
                        (u "Total: 42") None None = Ok res }).
  { eexists. vm_compute. reflexivity. }
  destruct E as [res E]. exists res. split; [exact E|].
  exact (extract_to_dict (U := basic_latin) _ _ _ _ _ E).
Defined.

End FieldToolsFacts.

(** ** Further worked examples *)

Module MoreExamples.
Import Py.

Example route_letter :
  exists r,
    Routing.classify_with_routing (U := basic_latin)
      (u "Dear Sir, sincerely, regards, to whom it may concern")
    = Ok (r, u "general") /\
    DocumentClassifier.document_type r = DocumentClassifier.LETTER.
Proof. eexists. split; vm_compute; reflexivity. Qed.

Example detect_script_mixed :
  LanguageDetector._detect_script (u "Привет мир abc") = Ok (u "cyrillic").
Proof. vm_compute. reflexivity. Qed.

Example process_multilingual_english :
  exists res,
    MultiLanguageProcessor.process_multilingual (U := basic_latin)
      (u "The invoice number: INV-7
and the total is :  42.50  
Date 2024-01-15")
      [u "total"; u "date"; u "vendor"; u "invoice_number"; u "total"] = Ok res /\
    MultiLanguageProcessor.language res = u "en" /\
    MultiLanguageProcessor.fields res
    = [ (u "total", u "is :  42.50");
        (u "date", u "2024-01-15");
        (u "invoice_number", u "INV-7") ].
Proof. eexists. split; [|split]; vm_compute; reflexivity. Qed.

Example statistics_two_of_three :
  let found_ v := {| FieldExtractor.value := v; FieldExtractor.confidence := 0.9;
                     FieldExtractor.found := true |} in
  let empty := {| FieldExtractor.value := []; FieldExtractor.confidence := 0.0;
                  FieldExtractor.found := false |} in
  FieldTools.get_statistics
    [(u "a", found_ (u "1")); (u "b", empty); (u "c", found_ (u "2"))]
  = {| FieldTools.total_fields := 3; FieldTools.fields_found := 2;
       FieldTools.fields_empty := 1;
       FieldTools.success_rate :=
         FieldTools.Float (Binary64.div (Binary64.of_int 667) (Binary64.of_int 10)) |}.
Proof. vm_compute. reflexivity. Qed.

End MoreExamples.
